(** * GlobSim, ERA-Interim driver (era_interim.py): interpolation and scaling

    A shallow embedding of the station pipeline of [era_interim.py]:
    - [ERAIinterpolate.ERAinterp2D] and [ERAIinterpolate.ERA2station]
      (chunked regridding and appending to the station file),
    - [ERAIinterpolate.levels2elevation] (pressure levels to station
      elevation),
    - [ERAIscale] (output time axis, kernel dispatch and the kernels
      [RH_per_sur], [PREC_mm_sur], [AIRT_redcapp]).

    Conventions.  Python exceptions are values of [exn] and fallible code
    lives in the error monad [result].  Array arithmetic is exact, over [Q];
    floating-point rounding is outside the model, and a NumPy division whose
    divisor is zero (which yields [nan] or [inf]) is the value [None] of
    [option Q].  A [datetime] is kept as a number on the time axis of its
    file: [num2date] is strictly monotone, so comparing [datetime] objects
    is comparing these numbers. *)

From Stdlib Require Import List ZArith QArith Qround Qabs Lia Lqa Bool Sorted.
From Stdlib Require String Ascii DecimalString.
Import ListNotations String.StringSyntax Ascii.AsciiSyntax.

Abbreviation string := String.string.
Open Scope string_scope.
Open Scope Q_scope.
Open Scope Z_scope.
Open Scope nat_scope.
Open Scope list_scope.

Set Implicit Arguments.

(** ** Python exceptions and the error monad *)

Inductive exn : Type :=
| ValueError (msg : string)
| KeyError (key : string)
| IndexError
| ZeroDivisionError
| RuntimeError (msg : string)
| TypeError.

Inductive result (A : Type) : Type :=
| Ok (a : A)
| Raise (e : exn).
Arguments Ok {A} a.
Arguments Raise {A} e.

Definition bind {A B : Type} (m : result A) (k : A -> result B) : result B :=
  match m with
  | Ok a => k a
  | Raise e => Raise e
  end.

Notation "x <- m ;; k" := (bind m (fun x => k))
  (at level 61, m at next level, right associativity).

Fixpoint mapM {A B : Type} (f : A -> result B) (l : list A) : result (list B) :=
  match l with
  | [] => Ok []
  | a :: r => b <- f a ;; bs <- mapM f r ;; Ok (b :: bs)
  end.

(** ** NumPy and Python list primitives *)

(** [xs[mask]] for a boolean mask of the length of [xs]. *)
Fixpoint compress {A : Type} (mask : list bool) (xs : list A) : list A :=
  match mask, xs with
  | b :: m, x :: r => if b then x :: compress m r else compress m r
  | _, _ => []
  end.

(** Boolean-mask indexing raises [IndexError] when the mask does not have
    the length of the indexed axis. *)
Definition bool_index {A : Type} (xs : list A) (mask : list bool)
  : result (list A) :=
  if Nat.eqb (length mask) (length xs) then Ok (compress mask xs)
  else Raise IndexError.

(** [sum(mask)]: the number of [True] entries. *)
Definition mask_sum (mask : list bool) : nat := count_occ bool_dec mask true.

(** [xs[b:e]] for [0 <= b], [0 <= e]. *)
Definition slice {A : Type} (xs : list A) (b e : nat) : list A :=
  firstn (e - b) (skipn b xs).

(** [xs[i]] for [0 <= i]. *)
Definition getitem {A : Type} (xs : list A) (i : nat) : result A :=
  match nth_error xs i with
  | Some x => Ok x
  | None => Raise IndexError
  end.

Fixpoint lookup {A : Type} (k : string) (d : list (string * A)) : result A :=
  match d with
  | [] => Raise (KeyError k)
  | (k', a) :: r => if String.eqb k k' then Ok a else lookup k r
  end.

Definition mem (k : string) (l : list string) : bool :=
  existsb (String.eqb k) l.

(** [set(a) <= set(b)] and the proper-subset test [set(a) < set(b)]. *)
Definition set_le (a b : list string) : bool := forallb (fun k => mem k b) a.
Definition set_lt (a b : list string) : bool := set_le a b && negb (set_le b a).

(** [set(b) == 0]: a Python set never compares equal to an [int]. *)
Definition set_eq_int (b : list string) (z : Z) : bool := false.

(** * ERAIinterpolate: regridding in temporal chunks *)

Module Interpolate.

(** [datetime(3000, 1, 1)] in the time unit of the ERA-Interim files,
    hours since 1900-01-01 00:00 (401767 days). *)
Definition datetime_3000 : Z := 9642408.

Section Regrid.

(** One time step of one gridded variable (levels x latitude x longitude),
    and of one variable at the stations (levels x station). *)
Variables grid_row station_row : Type.

(** The ESMF bilinear regridding of one time step: [ESMF.Regrid] treats
    the undistributed dimensions (variable, time, level) independently. *)
Variable regrid : grid_row -> station_row.

(** [globsim.generic.variables_skip]. *)
Variable variables_skip : string -> bool.

(** [ncf_in]: the decoded time axis and the data variables (the
    coordinate variables, which [ERAinterp2D] removes from [varlist], are
    not listed in [ncvars]); every variable holds one row per time step. *)
Record dataset : Type := {
  nctime : list Z;
  ncvars : list (string * list grid_row)
}.

Definition ERAinterp2D (ncf_in : dataset) (tmask_chunk : list bool)
    (variables : option (list string))
  : result (list (list station_row) * list string) :=
  (* test if time steps to interpolate remain *)
  let nt := mask_sum tmask_chunk in
  if Nat.eqb nt 0 then
    Raise (ValueError "No time steps from netCDF file selected.")
  else
  (* get variables *)
  let varlist := map fst (ncvars ncf_in) in
  let variables := match variables with None => varlist | Some v => v end in
  (* set(variables) < set(varlist) == 0 is a chained comparison:
     (set(variables) < set(varlist)) and (set(varlist) == 0) *)
  if set_lt variables varlist && set_eq_int varlist 0 then
    Raise (ValueError "One or more variables not in netCDF file.")
  else
  (* assign data from ncdf, then regrid *)
  sfield <- mapM (fun var =>
              rows <- lookup var (ncvars ncf_in) ;;
              bool_index rows tmask_chunk) variables ;;
  Ok (map (map regrid) sfield, variables).

(** [ncf_out]: the time variable and the data variables of the station
    file.  The time dimension is unlimited; a row that was never written
    holds the fill value, [None]. *)
Record station_file : Type := {
  out_time : list Z;
  out_vars : list (string * list (option station_row))
}.

(** [ERAIgeneric.netCDF_empty]: the schema, with no time step. *)
Definition netCDF_empty (nc_in : dataset) : station_file :=
  {| out_time := [];
     out_vars := map (fun var => (var, []))
                   (filter (fun var => negb (variables_skip var))
                      (map fst (ncvars nc_in))) |}.

(** [v[b:e] = data] on a variable whose first dimension is unlimited: the
    rows below [b] that do not exist yet are filled, the rows [b..e-1] are
    overwritten; the number of rows of [data] has to be [e - b]. *)
Definition set_slice (rows : list (option station_row)) (b e : nat)
    (data : list station_row) : result (list (option station_row)) :=
  if Nat.eqb (length data) (e - b) then
    Ok (firstn b (rows ++ repeat None (b - length rows))
        ++ map Some data ++ skipn e rows)
  else Raise (ValueError "shape mismatch").

Fixpoint assign (var : string) (b e : nat) (data : list station_row)
    (vars : list (string * list (option station_row)))
  : result (list (string * list (option station_row))) :=
  match vars with
  | [] => Raise (KeyError var)
  | (k, rows) :: r =>
      if String.eqb var k then
        rows' <- set_slice rows b e data ;; Ok ((k, rows') :: r)
      else r' <- assign var b e data r ;; Ok ((k, rows) :: r')
  end.

(** The restriction to the date range: [date] is [None] or
    [Some (beg, end)]; without a range, [time < datetime(3000, 1, 1)]. *)
Definition in_range (date : option (Z * Z)) (t : Z) : bool :=
  match date with
  | None => (t <? datetime_3000)%Z
  | Some (dbeg, dend) => (t <? dend)%Z && (t >=? dbeg)%Z
  end.

Definition tmask_of (time : list Z) (date : option (Z * Z)) : list bool :=
  map (in_range date) time.

Definition niter_of (len cs : nat) : nat :=
  len / cs + (if Nat.ltb 0 (len mod cs) then 1 else 0).

(** Indices of chunk [n], relative to the output file.  Inside the loop
    [min(n*cs + cs, len) >= 1], so the subtraction is the one of Python. *)
Definition chunk_beg (cs n : nat) : nat := n * cs.
Definition chunk_end (cs len n : nat) : nat := Nat.min (n * cs + cs) len - 1.

(** The [# append variables] loop of one chunk. *)
Fixpoint append_variables (beg stop : nat)
    (dfield : list (list station_row)) (variables : list string)
    (vars : list (string * list (option station_row)))
  : result (list (string * list (option station_row))) :=
  match variables with
  | [] => Ok vars
  | var :: vs =>
      if variables_skip var then
        append_variables beg stop (tl dfield) vs vars
      else
        data <- getitem dfield 0 ;;
        vars' <- assign var beg stop data vars ;;
        append_variables beg stop (tl dfield) vs vars'
  end.

(** The body of [for n in range(niter)]. *)
Definition chunk_step (cs : nat) (ncf_in : dataset) (invariant : bool)
    (time_in : list Z) (ncf_out : station_file) (n : nat)
  : result station_file :=
  let time := nctime ncf_in in
  let beg := chunk_beg cs n in
  let end_ := chunk_end cs (length time_in) n in
  beg_time <- getitem time_in beg ;;
  end_time <- (if invariant then getitem time 0 else getitem time_in end_) ;;
  let tmask_chunk :=
    if invariant then [true]
    else map (fun t => (t <=? end_time)%Z && (t >=? beg_time)%Z) time in
  r <- ERAinterp2D ncf_in tmask_chunk None ;;
  let (dfield, variables) := r in
  (* append time *)
  let time' := out_time ncf_out ++ slice time_in beg (end_ + 1) in
  (* append variables *)
  vars' <- append_variables beg (end_ + 1) dfield variables
             (out_vars ncf_out) ;;
  Ok {| out_time := time'; out_vars := vars' |}.

Fixpoint for_range (body : station_file -> nat -> result station_file)
    (ns : list nat) (s : station_file) : result station_file :=
  match ns with
  | [] => Ok s
  | n :: r => s' <- body s n ;; for_range body r s'
  end.

(** [ERA2station], with [self.cs = cs].  The argument [variables] is
    accepted and never read: the call of [ERAinterp2D] passes
    [variables=None]. *)
Definition ERA2station (cs : nat) (ncf_in : dataset)
    (variables : option (list string)) (date : option (Z * Z))
  : result station_file :=
  let ncf_out := netCDF_empty ncf_in in
  let time := nctime ncf_in in
  let invariant := Nat.eqb (length time) 1 in
  let tmask := tmask_of time date in
  let time_in := compress tmask time in
  if Nat.eqb cs 0 then Raise ZeroDivisionError else
  let niter := niter_of (length time_in) cs in
  for_range (chunk_step cs ncf_in invariant time_in) (seq 0 niter) ncf_out.

(** The whole restricted range taken as one chunk: the restricted time
    axis, and for every variable the regridded rows of the restricted time
    steps, in time order. *)
Definition whole_range (ncf_in : dataset) (date : option (Z * Z))
  : station_file :=
  let tmask := tmask_of (nctime ncf_in) date in
  {| out_time := compress tmask (nctime ncf_in);
     out_vars :=
       map (fun kv => (fst kv, map Some (map regrid (compress tmask (snd kv)))))
         (filter (fun kv => negb (variables_skip (fst kv))) (ncvars ncf_in)) |}.

(** The station file once the first [k] chunks are appended: the series
    of [whole_range], cut at the row [k * cs]. *)
Definition after_chunks (cs : nat) (ncf_in : dataset)
    (date : option (Z * Z)) (k : nat) : station_file :=
  let tmask := tmask_of (nctime ncf_in) date in
  {| out_time := firstn (k * cs) (compress tmask (nctime ncf_in));
     out_vars :=
       map (fun kv =>
              (fst kv,
               map Some
                 (map regrid (firstn (k * cs) (compress tmask (snd kv))))))
         (filter (fun kv => negb (variables_skip (fst kv))) (ncvars ncf_in)) |}.

(** The invariants of a gridded dataset: the time axis is strictly
    increasing, the variables are the entries of a dictionary (no name
    twice), and every variable has one row per time step. *)
Definition well_formed (ncf_in : dataset) : Prop :=
  StronglySorted Z.lt (nctime ncf_in)
  /\ NoDup (map fst (ncvars ncf_in))
  /\ Forall (fun kv => length (snd kv) = length (nctime ncf_in))
       (ncvars ncf_in).

(** The chunk partition of [len] restricted time steps: every index lies
    in exactly one chunk, a chunk has between one and [cs] steps, and every
    chunk but the last has [cs] steps. *)
Definition chunk_partition (cs len : nat) : Prop :=
  let niter := niter_of len cs in
  (forall i, i < len ->
     exists n, n < niter
       /\ chunk_beg cs n <= i <= chunk_end cs len n
       /\ (forall m, m < niter ->
             chunk_beg cs m <= i <= chunk_end cs len m -> m = n))
  /\ (forall n, n < niter ->
        1 <= chunk_end cs len n + 1 - chunk_beg cs n <= cs)
  /\ (forall n, S n < niter ->
        chunk_end cs len n + 1 - chunk_beg cs n = cs).

(** A station file with exactly [n] time steps, all written: no variable
    has a missing or a filled row. *)
Definition dense (s : station_file) (n : nat) : Prop :=
  length (out_time s) = n
  /\ Forall (fun kv => length (snd kv) = n /\ ~ In None (snd kv))
       (out_vars s).

(** [s'] is [s] with [n] further time steps at the end, every row of [s]
    kept in place. *)
Definition extends (s s' : station_file) (n : nat) : Prop :=
  (exists ts, length ts = n /\ out_time s' = out_time s ++ ts)
  /\ Forall2 (fun kv kv' =>
                fst kv' = fst kv
                /\ exists data : list station_row,
                     length data = n /\ snd kv' = snd kv ++ map Some data)
       (out_vars s) (out_vars s').

End Regrid.

(** A small dataset: seven time steps (hours), two variables whose rows
    are numbers, regridding that doubles a row. *)
Definition example_dataset : dataset Z :=
  {| nctime := [10; 13; 16; 19; 22; 25; 28]%Z;
     ncvars := [("t2m", [1; 2; 3; 4; 5; 6; 7]%Z);
                ("d2m", [11; 12; 13; 14; 15; 16; 17]%Z)] |}.

Definition example_regrid (row : Z) : Z := (2 * row)%Z.

Definition example_skip (var : string) : bool := false.

End Interpolate.

(** * ERAIinterpolate.levels2elevation: pressure levels to station elevation *)

Module Levels.

Local Open Scope Q_scope.

Definition Qlt_bool (x y : Q) : bool := negb (Qle_bool y x).

(** A NumPy boolean used as a number. *)
Definition bool_to_Q (b : bool) : Q := if b then 1 else 0.
Definition bool_to_nat (b : bool) : nat := if b then 1 else 0.

(** NumPy true division of finite values: a zero divisor gives [nan] or
    [inf], which is [None]; [nan] and [inf] never become finite again in
    the products and the sum of the interpolation. *)
Definition np_div (a b : Q) : option Q :=
  if Qeq_bool b 0 then None else Some (a / b).

Definition fmul (x : Q) (w : option Q) : option Q :=
  match w with
  | Some q => Some (x * q)
  | None => None
  end.

Definition fadd (x y : option Q) : option Q :=
  match x, y with
  | Some p, Some q => Some (p + q)
  | _, _ => None
  end.

(** Elementwise operation on two arrays of one shape. *)
Fixpoint zip_with {A B C : Type} (f : A -> B -> C) (l : list A) (l' : list B)
  : list C :=
  match l, l' with
  | a :: r, b :: r' => f a b :: zip_with f r r'
  | _, _ => []
  end.

(** [np.argmin] along one row: the first index of the least value, with
    that value. *)
Fixpoint argmin_val (row : list Q) : option (nat * Q) :=
  match row with
  | [] => None
  | x :: r =>
      match argmin_val r with
      | None => Some (O, x)
      | Some (i, m) => if Qle_bool x m then Some (O, x) else Some (S i, m)
      end
  end.

Definition argmin (row : list Q) : result nat :=
  match argmin_val row with
  | Some (i, _) => Ok i
  | None => Raise (ValueError "attempt to get argmin of an empty sequence")
  end.

(** [a.ravel()[idx]] for an index array [idx]. *)
Definition take (flat : list Q) (idx : list nat) : result (list Q) :=
  mapM (getitem flat) idx.

(** Standard gravity, 9.80665 m s-2. *)
Definition gravity : Q := 980665 # 100000.

(** What the loop over stations computes before the loop over variables:
    the flat indices of the levels above ([va]) and below ([vb]) and the
    weights, one entry per time step. *)
Record brackets : Type := {
  va : list nat;
  vb : list nat;
  wa : list (option Q);
  wb : list (option Q)
}.

(** [zn] is [ncf.variables['z'][:,:,n]], of shape (time, level), [nl] the
    length of the level axis, which is also [ele.shape[1]]. *)
Definition station_brackets (nl : nat) (h : Q) (zn : list (list Q))
  : result brackets :=
  (* convert geopotential to height *)
  let ele := map (map (fun g => g / gravity)) zn in
  (* difference in elevation, level directly above will be >= 0 *)
  let dele := map (map (fun e => e - h)) ele in
  va0 <- mapM (fun row =>
           argmin (map (fun d => d + bool_to_Q (Qlt_bool d 0) * 100000) row))
         dele ;;
  (* mask for situations where station is below lowest level *)
  let mask := map (fun v => Nat.ltb v (nl - 1)%nat) va0 in
  let va :=
    zip_with Nat.add va0 (map (fun t => t * nl)%nat (seq 0 (length ele))) in
  let vb := zip_with (fun v m => v + bool_to_nat m)%nat va mask in
  (* weights *)
  a <- take (concat dele) vb ;;
  b <- take (concat dele) va ;;
  let wa := map Qabs a in
  let wb := map Qabs b in
  let wt := zip_with Qplus wa wb in
  Ok {| va := va; vb := vb;
        wa := zip_with np_div wa wt; wb := zip_with np_div wb wt |}.

(** [ipol = data[va]*wa + data[vb]*wb] for [data] of shape (time, level)
    before [ravel()]. *)
Definition interpolate (br : brackets) (data : list (list Q))
  : result (list (option Q)) :=
  da <- take (concat data) (va br) ;;
  db <- take (concat data) (vb br) ;;
  Ok (zip_with fadd (zip_with fmul da (wa br)) (zip_with fmul db (wb br))).

(** The body of the loop over stations for one variable. *)
Definition levels2elevation_station (nl : nat) (h : Q)
    (zn data : list (list Q)) : result (list (option Q)) :=
  br <- station_brackets nl h zn ;;
  interpolate br data.

(** The station file with pressure levels: arrays are (time, level,
    station); [plvars] are the variables left in [varlist] after the
    coordinates, [height] and [z] are removed. *)
Record pl_file : Type := {
  height : list Q;
  time : list Z;
  level : list Q;
  z : list (list (list Q));
  plvars : list (string * list (list (list Q)))
}.

(** [a[:,:,n]]. *)
Definition station_slice (n : nat) (a : list (list (list Q)))
  : result (list (list Q)) :=
  mapM (mapM (fun r => getitem r n)) a.

(** [levels2elevation]: for every station, in order, the series written to
    [rootgrp.variables[var][:,n]] for every variable of [varlist]. *)
Definition levels2elevation (ncf : pl_file)
  : result (list (list (string * list (option Q)))) :=
  let nt := length (time ncf) in
  let nl := length (level ncf) in
  let varlist := map fst (plvars ncf) ++ ["air_pressure"] in
  mapM (fun nh =>
    let n := fst nh in
    let h := snd nh in
    zn <- station_slice n (z ncf) ;;
    br <- station_brackets nl h zn ;;
    mapM (fun var =>
      data <- (if String.eqb var "air_pressure"
               then Ok (repeat (level ncf) nt)
               else a <- lookup var (plvars ncf) ;; station_slice n a) ;;
      ipol <- interpolate br data ;;
      Ok (var, ipol)) varlist)
  (combine (seq 0 (length (height ncf))) (height ncf)).

(** ** One time step, read off the vectorised code

    The same computation for the row of one time step: [zrow] is the row of
    geopotential, [xrow] the row of the variable, both along the level
    axis.  [levels2elevation_station] is shown below to compute exactly
    this at every time step. *)

Definition ele_row (zrow : list Q) : list Q := map (fun g => g / gravity) zrow.

Definition dele_row (h : Q) (zrow : list Q) : list Q :=
  map (fun e => e - h) (ele_row zrow).

Definition level_key (d : Q) : Q := d + bool_to_Q (Qlt_bool d 0) * 100000.

(** The index within the row of the level directly above. *)
Definition above_level (drow : list Q) : nat :=
  match argmin_val (map level_key drow) with
  | Some (i, _) => i
  | None => O
  end.

(** The index of the level used as the level below. *)
Definition below_level (nl : nat) (drow : list Q) : nat :=
  (above_level drow + bool_to_nat (Nat.ltb (above_level drow) (nl - 1)))%nat.

Definition weight_above (nl : nat) (h : Q) (zrow : list Q) : option Q :=
  let d := dele_row h zrow in
  let a := Qabs (nth (below_level nl d) d 0) in
  let b := Qabs (nth (above_level d) d 0) in
  np_div a (a + b).

Definition weight_below (nl : nat) (h : Q) (zrow : list Q) : option Q :=
  let d := dele_row h zrow in
  let a := Qabs (nth (below_level nl d) d 0) in
  let b := Qabs (nth (above_level d) d 0) in
  np_div b (a + b).

Definition interp_row (nl : nat) (h : Q) (zrow xrow : list Q) : option Q :=
  let d := dele_row h zrow in
  fadd (fmul (nth (above_level d) xrow 0) (weight_above nl h zrow))
       (fmul (nth (below_level nl d) xrow 0) (weight_below nl h zrow)).

(** Heights that decrease strictly along the level axis, as those of
    pressure levels listed by increasing pressure do. *)
Definition decreasing (ele : list Q) : Prop :=
  StronglySorted (fun upper lower => lower < upper) ele.

(** An array of shape (time, level) with [nl] levels. *)
Definition rectangular (nl : nat) (a : list (list Q)) : Prop :=
  Forall (fun row => length row = nl) a.

(** ** A small pressure-level file

    Two time steps, the levels 850, 900 and 950 hPa at 200, 100 and 0 m
    at the first time step and at 310, 210 and 110 m at the second (the
    geopotential is the height times [gravity]), and the temperature [t].
    [example_zn] and [example_t] are the (time, level) arrays of one
    station. *)
Definition example_zn : list (list Q) :=
  [[1961330 # 1000; 980665 # 1000; 0];
   [30400615 # 10000; 20593965 # 10000; 10787315 # 10000]].

Definition example_t : list (list Q) :=
  [[270; 275; 280]; [271; 276; 281]].

(** The file with two stations, at 150 m and at 0 m, the second one at
    the height of the lowest level of the first time step. *)
Definition example_pl_file : pl_file :=
  {| height := [150; 0];
     time := [0; 6]%Z;
     level := [850; 900; 950];
     z := map (map (fun g => [g; g])) example_zn;
     plvars := [("t", map (map (fun x => [x; x])) example_t)] |}.

(** The values of a result in lowest terms. *)
Definition reduced (r : result (list (list (string * list (option Q)))))
  : result (list (list (string * list (option Q)))) :=
  match r with
  | Ok stations =>
      Ok (map (map (fun vs => (fst vs, map (option_map Qred) (snd vs))))
            stations)
  | Raise e => Raise e
  end.

End Levels.

(** * ERAIscale: the uniform output time axis and the kernels *)

Module Scale.

Local Open Scope Q_scope.

(** ** The time vector for output data ([ERAIscale.__init__]) *)

(** [nc.num2date] for the unit of the station files, hours since
    1900-01-01: a [datetime] is kept as its number of seconds since that
    epoch, which is also its [nc.date2num] value in
    [seconds since 1900-01-01 00:00:00]. *)
Definition num2date (hours : Z) : Q := inject_Z (hours * 3600).

(** [timedelta.seconds]: the seconds within the day, days left out. *)
Definition timedelta_seconds (delta : Q) : Z := (Qfloor delta mod 86400)%Z.

(** [min(time)] and [max(time)]. *)
Definition py_min (l : list Q) : result Q :=
  match l with
  | [] => Raise (ValueError "min() arg is an empty sequence")
  | x :: r => Ok (fold_left (fun m y => if Qle_bool m y then m else y) r x)
  end.

Definition py_max (l : list Q) : result Q :=
  match l with
  | [] => Raise (ValueError "max() arg is an empty sequence")
  | x :: r => Ok (fold_left (fun m y => if Qle_bool y m then m else y) r x)
  end.

Record time_axis : Type := {
  time_step : Q;            (* [s] scaled file *)
  interpN : Z;
  nt : Z;
  times_out_nc : list Q
}.

(** The part of [__init__] from [nctime] on; [par_time_step] is
    [par.time_step], in hours. *)
Definition init_time_axis (nctime : list Z) (par_time_step : Q)
  : result time_axis :=
  let time := map num2date nctime in
  (* interpolation scale factor *)
  let time_step := par_time_step * 3600 in
  t1 <- getitem time 1 ;;
  t0 <- getitem time 0 ;;
  let interval_in := timedelta_seconds (t1 - t0) in
  if Qeq_bool time_step 0 then Raise ZeroDivisionError else
  let interpN := Qfloor (inject_Z interval_in / time_step) in
  (* number of time steps for output, include last value *)
  tmax <- py_max time ;;
  tmin <- py_min time ;;
  let nt := (Qfloor ((tmax - tmin) / 3600 / par_time_step) + 1)%Z in
  (* vector of output time steps *)
  let mt := tmin in
  Ok {| time_step := time_step;
        interpN := interpN;
        nt := nt;
        times_out_nc :=
          map (fun x => mt + inject_Z (Z.of_nat x) * time_step)
            (seq 0 (Z.to_nat nt)) |}.

(** ** Arrays with missing values

    A cell of the scaled file is [Some q], or [None] for a value that is
    not a number ([nan], or a masked cell that was never written).
    Arithmetic propagates [None]. *)

Definition cell : Type := option Q.

Definition lift1 (f : Q -> Q) (x : cell) : cell :=
  match x with
  | Some p => Some (f p)
  | None => None
  end.

Definition lift2 (f : Q -> Q -> Q) (x y : cell) : cell :=
  match x, y with
  | Some p, Some q => Some (f p q)
  | _, _ => None
  end.

(** True division: [x / 0] is [inf] or [nan]; each later use of such a
    rate in [interp1d] ends in [nan] ([inf - inf], [inf * 0] or
    [-inf + inf]), so it is kept as [None]. *)
Definition cell_div (x y : cell) : cell :=
  match x, y with
  | Some p, Some q => if Qeq_bool q 0 then None else Some (p / q)
  | _, _ => None
  end.

(** [numpy.clip(min=lo, max=hi)] on one cell; [nan] stays [nan]. *)
Definition clip (lo hi : Q) (x : cell) : cell :=
  lift1 (fun q => if Qle_bool q lo then lo
                  else if Qle_bool hi q then hi else q) x.

(** Elementwise operation on two arrays, which have to be of one shape. *)
Fixpoint broadcast2 {A B C : Type} (f : A -> B -> C) (a : list A)
    (b : list B) : result (list C) :=
  match a, b with
  | [], [] => Ok []
  | x :: a', y :: b' => r <- broadcast2 f a' b' ;; Ok (f x y :: r)
  | _, _ => Raise (ValueError "operands could not be broadcast together")
  end.

(** ** [scipy.interpolate.interp1d(x, y, kind='linear')]

    For [x] in increasing order, as the time axes of the station files are:
    [x_new] in [(x_lo, x_hi]] is interpolated on that segment, [x[0]] on the
    first one, and a value outside the range of [x] raises. *)
Fixpoint interp1d_eval (x : list Q) (y : list cell) (x_new : Q)
  : result cell :=
  match x, y with
  | x_lo :: ((x_hi :: _) as x'), y_lo :: ((y_hi :: _) as y') =>
      if Qle_bool x_new x_hi then
        let slope :=
          cell_div (lift2 Qminus y_hi y_lo) (Some (x_hi - x_lo)) in
        Ok (lift2 Qplus (lift2 Qmult slope (Some (x_new - x_lo))) y_lo)
      else interp1d_eval x' y' x_new
  | _, _ =>
      Raise (ValueError "A value in x_new is above the interpolation range.")
  end.

Definition interp1d (x : list Q) (y : list cell) (x_new : list Q)
  : result (list cell) :=
  if negb (Nat.eqb (length x) (length y)) then
    Raise (ValueError "x and y arrays must be equal in length")
  else
    mapM (fun xn =>
      match x with
      | x0 :: _ =>
          if Levels.Qlt_bool xn x0 then
            Raise (ValueError
                     "A value in x_new is below the interpolation range.")
          else interp1d_eval x y xn
      | [] => Raise (ValueError "x and y arrays must have at least 2 entries")
      end) x_new.

(** Modelled from the spec: [globsim.generic.cummulative2total], which
    [era_interim.py] imports and does not define.  The source values are
    cumulative sums reset at fixed intervals; the helper converts
    cumulative to total per native interval.  [reset] is the number of
    native steps between two resets: the first value after a reset is
    itself the total of its interval, every other total is the increase
    since the previous value. *)
Fixpoint totals_from (reset i : nat) (prev : Q) (data : list Q) : list Q :=
  match data with
  | [] => []
  | v :: r =>
      (if Nat.eqb (i mod reset) 0 then v else v - prev)
        :: totals_from reset (S i) v r
  end.

Definition cummulative2total (reset : nat) (data : list Q) (time : list Q)
  : list Q :=
  totals_from reset 0 0 data.

(** ** The engine *)

(** A station file read by the kernels: the time axis (hours) and the
    variables of shape (time, station), each kept as the list of its
    station columns, so that [values[:, n]] is the [n]-th column. *)
Record ncfile : Type := {
  nc_time : list Z;
  nc_vars : list (string * list (list Q))
}.

(** The state built by [__init__].  The station files of one run hold the
    same [nstation] stations, and so does the scaled file, which is opened
    from [nc_pl]. *)
Record engine : Type := {
  nc_pl : ncfile;
  nc_sa : ncfile;
  nc_sf : ncfile;
  nstation : nat;
  axis : time_axis
}.

(** What a run changes: the variables of the scaled file [self.rg], by
    columns as above, and the printed lines. *)
Record scaled : Type := {
  rg : list (string * list (list cell));
  stdout : list string
}.

Definition print (line : string) (s : scaled) : scaled :=
  {| rg := rg s; stdout := stdout s ++ [line] |}.

(** The number of rows of a variable of [rg]: the length of the time axis
    that [ScaledFileOpen] is given. *)
Definition rows (e : engine) : nat := length (times_out_nc (axis e)).

(** [self.rg.createVariable(vn, 'f4', ('time', 'station'))]: netCDF
    refuses a name in use; a new variable is all masked. *)
Definition createVariable (e : engine) (vn : string) (s : scaled)
  : result scaled :=
  if mem vn (map fst (rg s)) then
    Raise (RuntimeError "NetCDF: String match to name in use")
  else
    Ok {| rg := rg s ++ [(vn, repeat (repeat None (rows e)) (nstation e))];
          stdout := stdout s |}.

Fixpoint update {A : Type} (k : string) (f : A -> result A)
    (d : list (string * A)) : result (list (string * A)) :=
  match d with
  | [] => Raise (KeyError k)
  | (k', a) :: r =>
      if String.eqb k k' then a' <- f a ;; Ok ((k', a') :: r)
      else r' <- update k f r ;; Ok ((k', a) :: r')
  end.

Fixpoint set_nth {A : Type} (n : nat) (x : A) (l : list A)
  : result (list A) :=
  match n, l with
  | _, [] => Raise IndexError
  | O, _ :: r => Ok (x :: r)
  | S m, a :: r => r' <- set_nth m x r ;; Ok (a :: r')
  end.

(** [self.rg.variables[vn][:, n] = col]. *)
Definition set_column (e : engine) (vn : string) (n : nat) (col : list cell)
    (s : scaled) : result scaled :=
  if negb (Nat.eqb (length col) (rows e)) then
    Raise (ValueError "shape mismatch")
  else
    rg' <- update vn (set_nth n col) (rg s) ;;
    Ok {| rg := rg'; stdout := stdout s |}.

(** [self.rg.variables[vn][:, :] = arr]. *)
Definition set_all (e : engine) (vn : string) (arr : list (list cell))
    (s : scaled) : result scaled :=
  if negb (Nat.eqb (length arr) (nstation e)
           && forallb (fun col => Nat.eqb (length col) (rows e)) arr) then
    Raise (ValueError "shape mismatch")
  else
    rg' <- update vn (fun _ => Ok arr) (rg s) ;;
    Ok {| rg := rg'; stdout := stdout s |}.

(** [for n, s in enumerate(self.rg.variables['station'][:].tolist())] with
    a body that assigns column [n] of variable [vn]. *)
Fixpoint for_stations (e : engine) (vn : string)
    (column : nat -> result (list cell)) (ns : list nat) (s : scaled)
  : result scaled :=
  match ns with
  | [] => Ok s
  | n :: r =>
      col <- column n ;;
      s' <- set_column e vn n col s ;;
      for_stations e vn column r s'
  end.

(** [time_in * 3600]. *)
Definition time_in_seconds (f : ncfile) : list Q :=
  map (fun h => inject_Z (h * 3600)) (nc_time f).

Inductive kernel : Type :=
| PRESS_Pa_pl | AIRT_C_pl | AIRT_C_sur | AIRT_redcapp | PREC_mm_sur
| RH_per_sur | WIND_sur | SW_Wm2_sur | LW_Wm2_sur | SH_kgkg_sur
| LW_Wm2_topo.

(** The kernel methods of the class, by name. *)
Definition kernel_of (name : string) : option kernel :=
  if String.eqb name "PRESS_Pa_pl" then Some PRESS_Pa_pl
  else if String.eqb name "AIRT_C_pl" then Some AIRT_C_pl
  else if String.eqb name "AIRT_C_sur" then Some AIRT_C_sur
  else if String.eqb name "AIRT_redcapp" then Some AIRT_redcapp
  else if String.eqb name "PREC_mm_sur" then Some PREC_mm_sur
  else if String.eqb name "RH_per_sur" then Some RH_per_sur
  else if String.eqb name "WIND_sur" then Some WIND_sur
  else if String.eqb name "SW_Wm2_sur" then Some SW_Wm2_sur
  else if String.eqb name "LW_Wm2_sur" then Some LW_Wm2_sur
  else if String.eqb name "SH_kgkg_sur" then Some SH_kgkg_sur
  else if String.eqb name "LW_Wm2_topo" then Some LW_Wm2_topo
  else None.

(** The data attributes of an instance while the kernels run: those
    that [__init__] assigns, and [self.rg]. *)
Definition data_attributes : list string :=
  ["sfile"; "intpdir"; "scdir"; "list_name"; "kernels"; "nc_pl"; "nc_sa";
   "nc_sf"; "nc_to"; "nstation"; "output_file"; "t_unit"; "t_cal";
   "time_step"; "interpN"; "nt"; "times_out"; "scaled_t_units";
   "times_out_nc"; "stations_csv"; "stations"; "rg"].

(** What [getattr(self, name)] finds: a kernel method, or another
    attribute, kept as what calling it without argument does. *)
Inductive attribute : Type :=
| Kernel (k : kernel)
| Other (called : result unit).

Section Kernels.

(** [globsim.generic.series_interpolate (time_out, time_in, value_in)]. *)
Variable series_interpolate : list Q -> list Q -> list Q -> list Q.

(** The number of native steps between two resets of the accumulated
    fields: the fixed reset interval of the forecast accumulations. *)
Variable reset_steps : nat.

(** The kernels [WIND_sur], [SH_kgkg_sur] and [LW_Wm2_topo], whose
    arithmetic ([sqrt], [atan2], [spec_hum_kgkg], [LW_downward]) is not
    rational. *)
Variable irrational_kernel : kernel -> engine -> scaled -> result scaled.

(** The attributes that an instance has from [object] and not from the
    source ([__str__], [__eq__], [__class__], [__dict__], ...), with what
    calling them without argument does: the call raises, or it returns a
    value, which [process] drops, and changes nothing.  Which names these
    are depends on the version of Python. *)
Variable object_attribute : string -> option (result unit).

(** The pattern [# interpolate station by station] of the kernels of
    instantaneous quantities. *)
Definition interpolated_column (e : engine) (f : ncfile)
    (values : list (list Q)) (conv : Q -> Q) (n : nat) : result (list Q) :=
  col <- getitem values n ;;
  Ok (series_interpolate (times_out_nc (axis e)) (time_in_seconds f)
        (map conv col)).

Definition run_PRESS_Pa_pl (e : engine) (s : scaled) : result scaled :=
  let vn := "PRESS_ERAI_Pa_pl" in
  s <- createVariable e vn s ;;
  values <- lookup "air_pressure" (nc_vars (nc_pl e)) ;;
  for_stations e vn
    (fun n =>
       col <- interpolated_column e (nc_pl e) values (fun v => v) n ;;
       Ok (map (fun v => Some (v * 100)) col))
    (seq 0 (nstation e)) s.

Definition run_AIRT_C_pl (e : engine) (s : scaled) : result scaled :=
  let vn := "AIRT_ERAI_C_pl" in
  s <- createVariable e vn s ;;
  values <- lookup "t" (nc_vars (nc_pl e)) ;;
  for_stations e vn
    (fun n =>
       col <- interpolated_column e (nc_pl e) values
                (fun v => v - (27315 # 100)) n ;;
       Ok (map Some col))
    (seq 0 (nstation e)) s.

Definition run_AIRT_C_sur (e : engine) (s : scaled) : result scaled :=
  let vn := "AIRT_ERAI_C_sur" in
  s <- createVariable e vn s ;;
  values <- lookup "t2m" (nc_vars (nc_sa e)) ;;
  for_stations e vn
    (fun n =>
       col <- interpolated_column e (nc_sa e) values
                (fun v => v - (27315 # 100)) n ;;
       Ok (map Some col))
    (seq 0 (nstation e)) s.

(** The placeholder of the REDCAPP method. *)
Definition run_AIRT_redcapp (e : engine) (s : scaled) : result scaled :=
  Ok (print "AIRT_ERAI_redcapp" s).

(** One station of a kernel of an accumulated quantity:
    [f = interp1d(time_in*3600, cummulative2total(values[:, n], time)
    / interval_in, kind='linear')], then [f(self.times_out_nc) *
    self.time_step]. *)
Definition accumulated_column (e : engine) (interval_in : Z)
    (values_n : list Q) : result (list cell) :=
  let time := map num2date (nc_time (nc_sf e)) in
  let rate :=
    map (fun d => cell_div (Some d) (Some (inject_Z interval_in)))
      (cummulative2total reset_steps values_n time) in
  f <- interp1d (time_in_seconds (nc_sf e)) rate (times_out_nc (axis e)) ;;
  Ok (map (fun y => lift2 Qmult y (Some (time_step (axis e)))) f).

(** [PREC_mm_sur], [SW_Wm2_sur] and [LW_Wm2_sur] differ in the names and
    in the unit conversion [conv] of the values. *)
Definition accumulated_kernel (vn var : string) (conv : Q -> Q)
    (e : engine) (s : scaled) : result scaled :=
  s <- createVariable e vn s ;;
  values0 <- lookup var (nc_vars (nc_sf e)) ;;
  let values := map (map conv) values0 in
  let time := map num2date (nc_time (nc_sf e)) in
  t1 <- getitem time 1 ;;
  t0 <- getitem time 0 ;;
  let interval_in := timedelta_seconds (t1 - t0) in
  for_stations e vn
    (fun n =>
       col <- getitem values n ;;
       accumulated_column e interval_in col)
    (seq 0 (nstation e)) s.

Definition run_PREC_mm_sur : engine -> scaled -> result scaled :=
  accumulated_kernel "PREC_ERAI_mm_sur" "tp" (fun v => v * 1000).

Definition run_SW_Wm2_sur : engine -> scaled -> result scaled :=
  accumulated_kernel "SW_ERAI_Wm2_sur" "ssrd" (fun v => v / 3600).

Definition run_LW_Wm2_sur : engine -> scaled -> result scaled :=
  accumulated_kernel "LW_ERAI_Wm2_sur" "strd" (fun v => v / 3600).

(** [RH = 100 - 5 * (T - dewp)], clipped. *)
Definition RH_cell (t : cell) (dewp : Q) : cell :=
  clip (1 # 10) (999 # 10)
    (lift1 (fun x => 100 - 5 * x) (lift2 Qminus t (Some dewp))).

Definition run_RH_per_sur (e : engine) (s : scaled) : result scaled :=
  (* temporary variable, interpolate station by station *)
  values <- lookup "d2m" (nc_vars (nc_sa e)) ;;
  dewp <- mapM (fun n =>
            col <- interpolated_column e (nc_sa e) values
                     (fun v => v - (27315 # 100)) n ;;
            if Nat.eqb (length col) (Z.to_nat (nt (axis e))) then Ok col
            else Raise (ValueError "could not broadcast input array"))
          (seq 0 (nstation e)) ;;
  (* add variable to ncdf file *)
  let vn := "RH_ERAI_per_sur" in
  s <- createVariable e vn s ;;
  airt <- lookup "AIRT_ERAI_C_sur" (rg s) ;;
  RH <- broadcast2 (fun a d => broadcast2 RH_cell a d) airt dewp ;;
  RH <- mapM (fun c => c) RH ;;
  set_all e vn RH s.

Definition run_kernel (k : kernel) : engine -> scaled -> result scaled :=
  match k with
  | PRESS_Pa_pl => run_PRESS_Pa_pl
  | AIRT_C_pl => run_AIRT_C_pl
  | AIRT_C_sur => run_AIRT_C_sur
  | AIRT_redcapp => run_AIRT_redcapp
  | PREC_mm_sur => run_PREC_mm_sur
  | RH_per_sur => run_RH_per_sur
  | SW_Wm2_sur => run_SW_Wm2_sur
  | LW_Wm2_sur => run_LW_Wm2_sur
  | WIND_sur | SH_kgkg_sur | LW_Wm2_topo => irrational_kernel k
  end.

(** [getattr(self, name)], [None] when [hasattr(self, name)] is false.
    Called without argument, [__init__], [getOutNCF] and [makeOutDir] miss
    an argument and a data attribute is not callable ([TypeError]);
    [process] runs the kernel list again up to its own name, and so on:
    the call never returns, it ends in the [RuntimeError] of the recursion
    limit unless an exception is raised before. *)
Definition getattr (name : string) : option attribute :=
  match kernel_of name with
  | Some k => Some (Kernel k)
  | None =>
      if mem name ["__init__"; "getOutNCF"; "makeOutDir"] then
        Some (Other (Raise TypeError))
      else if String.eqb name "process" then
        Some (Other (Raise (RuntimeError
                              "maximum recursion depth exceeded")))
      else if mem name data_attributes then Some (Other (Raise TypeError))
      else
        match object_attribute name with
        | Some called => Some (Other called)
        | None => None
        end
  end.

Definition hasattr (name : string) : bool :=
  match getattr name with
  | Some _ => true
  | None => false
  end.

(** [getattr(self, kernel_name)()]. *)
Definition call (a : attribute) (e : engine) (s : scaled) : result scaled :=
  match a with
  | Kernel k => run_kernel k e s
  | Other called => u <- called ;; Ok s
  end.

(** [# iterate through kernels and start process]. *)
Fixpoint run_kernels (e : engine) (kernels : list string) (s : scaled)
  : result scaled :=
  match kernels with
  | [] => Ok s
  | kernel_name :: r =>
      match getattr kernel_name with
      | Some a =>
          s' <- call a e (print kernel_name s) ;;
          run_kernels e r s'
      | None => run_kernels e r s
      end
  end.

(** [process]: the scaled file is opened without kernel variables, the
    kernels of [self.kernels] are run in order, the files are closed. *)
Definition process (e : engine) (kernels : list string) : result scaled :=
  run_kernels e kernels {| rg := []; stdout := [] |}.

End Kernels.

(** ** Re-summing the output of an accumulated kernel

    With [K] output steps per native interval, the output steps that end in
    the native interval [i >= 1] are the steps [(i - 1) * K + 1 .. i * K];
    [resum K col i] is the sum of the column over them. *)
Definition resum (K : nat) (col : list cell) (i : nat) : cell :=
  fold_left (fun acc k => lift2 Qplus acc (nth ((i - 1) * K + k) col None))
    (seq 1 K) (Some 0).

(** ** A small run

    Station files with one station and the time steps 0, 2 and 4 h, an
    output time step of one hour, and linear interpolation as
    [series_interpolate]. *)
Definition example_series_interpolate (time_out time_in value_in : list Q)
  : list Q :=
  match interp1d time_in (map Some value_in) time_out with
  | Ok l => map (fun c => match c with Some q => q | None => 0 end) l
  | Raise _ => []
  end.

Definition example_sa : ncfile :=
  {| nc_time := [0; 2; 4]%Z;
     nc_vars := [("t2m", [[28315 # 100; 29315 # 100; 27315 # 100]]);
                 ("d2m", [[28315 # 100; 26315 # 100; 27115 # 100]])] |}.

Definition example_sf : ncfile :=
  {| nc_time := [0; 2; 4]%Z;
     nc_vars := [("tp", [[0; 4 # 1000; 6 # 1000]])] |}.

Definition example_pl : ncfile :=
  {| nc_time := [0; 2; 4]%Z;
     nc_vars := [("t", [[28015 # 100; 28115 # 100; 28215 # 100]]);
                 ("air_pressure", [[900; 901; 902]])] |}.

Definition example_axis : time_axis :=
  match init_time_axis [0; 2; 4]%Z 1 with
  | Ok ax => ax
  | Raise _ =>
      {| time_step := 0; interpN := 0; nt := 0; times_out_nc := [] |}
  end.

Definition example_engine : engine :=
  {| nc_pl := example_pl;
     nc_sa := example_sa;
     nc_sf := example_sf;
     nstation := 1;
     axis := example_axis |}.

(** A stand-in for the three kernels that are not modelled. *)
Definition example_irrational (k : kernel) (e : engine) (s : scaled)
  : result scaled :=
  Ok s.

(** Two of the attributes of [object]: [__str__()] returns a string,
    [__eq__()] misses its argument. *)
Definition example_object_attribute (name : string)
  : option (result unit) :=
  if String.eqb name "__str__" then Some (Ok tt)
  else if String.eqb name "__eq__" then Some (Raise TypeError)
  else None.

(** The scaled file after the kernel [AIRT_C_sur]. *)
Definition example_after_AIRT : scaled :=
  match run_AIRT_C_sur example_series_interpolate example_engine
          {| rg := []; stdout := [] |} with
  | Ok s => s
  | Raise _ => {| rg := []; stdout := [] |}
  end.

End Scale.

(** * Dictionaries and strings of the download and driver code *)

Delimit Scope char_scope with char.

(** [d.get(k)]: [None] for a key that is not in the dictionary. *)
Fixpoint dict_get {A : Type} (k : string) (d : list (string * A)) : option A :=
  match d with
  | [] => None
  | (k', a) :: r => if String.eqb k k' then Some a else dict_get k r
  end.

(** [s.rstrip(c)] for one character [c]: every trailing [c] is removed. *)
Fixpoint rstrip (c : Ascii.ascii) (s : string) : string :=
  match s with
  | String.EmptyString => String.EmptyString
  | String.String a r =>
      match rstrip c r with
      | String.EmptyString =>
          if Ascii.eqb a c then String.EmptyString
          else String.String a String.EmptyString
      | r' => String.String a r'
      end
  end.

(** [str(n)] for an integer [n]. *)
Definition str_int (n : Z) : string :=
  DecimalString.NilZero.string_of_int (Z.to_int n).

(** * ERAIgeneric: what a request to the server is built from *)

Module Generic.

Local Open Scope Q_scope.

(** [TranslateCF2ERA]: the value left in [self.param].  For a name that
    is not a key, [dpar.get(var)] is [None] and [None + '/'] raises the
    [TypeError] that the loop passes over. *)
Definition TranslateCF2ERA (variables : list string)
    (dpar : list (string * string)) : string :=
  let param :=
    fold_left
      (fun param var =>
         match dict_get var dpar with
         | Some code => String.append param (String.append code "/")
         | None => param
         end)
      variables "" in
  rstrip "/"%char param.

(** The dictionary [elevation], with its keys ['min'] and ['max']. *)
Record elevation_range : Type := {
  ele_min : Q;
  ele_max : Q
}.

(** The ERA-Interim pressure levels [hPa] that can be downloaded. *)
Definition levs : list Z :=
  [300; 350; 400; 450; 500; 550; 600; 650; 700; 750; 775;
   800; 825; 850; 875; 900; 925; 950; 975; 1000]%Z.

Section Pressure.

(** [math.exp]. *)
Variable exp : Q -> Q.

(** Elevation [m] to air pressure [hPa], by the barometric formula. *)
Definition getPressure (elevation : Q) : Q :=
  let g := 980665 # 100000 in
  let R := 831432 # 100000 in
  let M := 289644 # 10000000 in
  let P0 := 101325 in
  let T0 := 28815 # 100 in
  P0 * exp ((- g * M * elevation) / (R * T0)) / 100.

(** [levs[mask]] in [getPressureLevels]. *)
Definition selected_levels (elevation : elevation_range) : list Z :=
  let Pmax := getPressure (ele_min elevation) + 55 in
  let Pmin := getPressure (ele_max elevation) - 55 in
  let mask :=
    map (fun l => Qle_bool Pmin (inject_Z l) && Qle_bool (inject_Z l) Pmax)
      levs in
  compress mask levs.

Definition getPressureLevels (elevation : elevation_range) : string :=
  String.concat "/" (map str_int (selected_levels elevation)).

End Pressure.

End Generic.

(** * ERAIpl, ERAIsa, ERAIsf and ERAIdownload *)

Module Download.

(** The dictionaries [dpar] of the three request classes. *)
Definition dpar_pl : list (string * string) :=
  [("air_temperature", "130.128");
   ("relative_humidity", "157.128");
   ("wind_speed", "131.128/132.128")].

Definition dpar_sa : list (string * string) :=
  [("air_temperature", "167.128");
   ("relative_humidity", "168.128");
   ("downwelling_shortwave_flux_in_air_assuming_clear_sky",
    "206.128/137.128");
   ("wind_speed", "165.128/166.128")].

Definition dpar_sf : list (string * string) :=
  [("precipitation_amount", "228.128");
   ("downwelling_shortwave_flux_in_air", "169.128");
   ("downwelling_longwave_flux_in_air", "175.128")].

(** [self.param] at the end of [__init__]; for pressure levels the
    geopotential is always added. *)
Definition ERAIpl_param (variables : list string) : string :=
  String.append (Generic.TranslateCF2ERA variables dpar_pl) "/129.128".

Definition ERAIsa_param (variables : list string) : string :=
  Generic.TranslateCF2ERA variables dpar_sa.

Definition ERAIsf_param (variables : list string) : string :=
  Generic.TranslateCF2ERA variables dpar_sf.

(** ** The bounding box ([ERAIdownload.__init__]) *)

Record bbox : Type := {
  north : Q;
  south : Q;
  west : Q;
  east : Q
}.

(** The two [raise Exception(...)] of the sanity check, named after their
    messages. *)
Inductive area_error : Type :=
| Bounding_box_is_invalid
| Download_area_is_too_small.

(** The part of [__init__] that assigns and checks [self.area], for the
    values [par.bbN], [par.bbS], [par.bbW] and [par.bbE]. *)
Definition ERAIdownload_area (bbN bbS bbW bbE : Q) : area_error + bbox :=
  let area := {| north := bbN; south := bbS; west := bbW; east := bbE |} in
  if Levels.Qlt_bool bbN bbS || Levels.Qlt_bool bbE bbW then
    inl Bounding_box_is_invalid
  else if Levels.Qlt_bool (Qabs (bbN - bbS)) (3 # 2)
          || Levels.Qlt_bool (Qabs (bbE - bbW)) (3 # 2) then
    inl Download_area_is_too_small
  else inr area.

(** ** The time slices ([ERAIdownload.retrieve]) *)

Local Open Scope Z_scope.

(** A [datetime] is its number of microseconds since a fixed origin, a
    [timedelta] a number of microseconds; [timedelta(days = n)] is [n]
    days and [delta.days] the whole days of [delta], rounded down. *)
Definition day : Z := 86400000000.

Definition timedelta (days : Z) : Z := days * day.

Definition timedelta_days (delta : Z) : Z := delta / day.

(** [range(0, n)]. *)
Definition range (n : Z) : list Z := map Z.of_nat (seq 0 (Z.to_nat n)).

Inductive levtype : Type := pl | sa | sf.

(** A call of [download()]: the topography, or one file of one time
    slice, with the parameter string and the dates of its request. *)
Inductive request : Type :=
| Topography
| Slice (kind : levtype) (param : string) (date_beg date_end : Z).

(** [date_i] in the iteration [ind] of the time loop. *)
Definition date_i (date_beg date_end chunk_size slices ind : Z) : Z * Z :=
  let beg := date_beg + timedelta (chunk_size * ind) in
  let end_ := date_beg + timedelta (chunk_size * (ind + 1) - 1) in
  (beg, if ind =? slices - 1 then date_end else end_).

(** [slices]: [floor(float(days) / chunk_size) + 1], for a chunk size that
    is a whole number of days. *)
Definition slices_of (date_beg date_end chunk_size : Z) : Z :=
  timedelta_days (date_end - date_beg) / chunk_size + 1.

(** [retrieve]: the downloads, in the order in which they are made. *)
Definition retrieve (variables : list string)
    (date_beg date_end chunk_size : Z) : result (list request) :=
  if chunk_size =? 0 then Raise ZeroDivisionError else
  let slices := slices_of date_beg date_end chunk_size in
  Ok (Topography
      :: flat_map
           (fun ind =>
              let d := date_i date_beg date_end chunk_size slices ind in
              [Slice pl (ERAIpl_param variables) (fst d) (snd d);
               Slice sa (ERAIsa_param variables) (fst d) (snd d);
               Slice sf (ERAIsf_param variables) (fst d) (snd d)])
           (range slices)).

End Download.

(** * ERAIinterpolate: the short names of the variables *)

Module Translate.

(** [TranslateCF2short]: [self.variables] mapped into the short codes of
    the netCDF files. *)
Definition TranslateCF2short (variables : list string)
    (dpar : list (string * list string)) : list string :=
  let varlist := map (fun var => dict_get var dpar) variables in
  (* drop none *)
  let varlist :=
    flat_map (fun item => match item with
                          | Some sublist => [sublist]
                          | None => []
                          end) varlist in
  (* flatten *)
  concat varlist.

(** The dictionaries [dpar] of [ERAIinterpolate.process]. *)
Definition dpar_sa : list (string * list string) :=
  [("air_temperature", ["t2m"]);
   ("relative_humidity", ["d2m"]);
   ("downwelling_shortwave_flux_in_air_assuming_clear_sky",
    ["tco3"; "tcwv"]);
   ("wind_speed", ["u10"; "v10"])].

Definition dpar_sf : list (string * list string) :=
  [("precipitation_amount", ["tp"]);
   ("downwelling_shortwave_flux_in_air", ["ssrd"]);
   ("downwelling_longwave_flux_in_air", ["strd"])].

Definition dpar_pl : list (string * list string) :=
  [("air_temperature", ["t"]);
   ("relative_humidity", ["r"]);
   ("wind_speed", ["u"; "v"])].

End Translate.

(** * ERAIgeneric.netCDF_merge: the files that are merged and their names *)

Module Merge.

(** [s[i:j]] for a string: an index below zero counts from the end, and
    both indices are clipped to the string. *)
Definition clip_index (n : nat) (i : Z) : nat :=
  if (i <? 0)%Z then Z.to_nat (Z.max (Z.of_nat n + i) 0)
  else Nat.min (Z.to_nat i) n.

Definition str_slice (s : string) (i j : Z) : string :=
  let n := String.length s in
  let a := clip_index n i in
  let b := clip_index n j in
  String.substring a (b - a) s.

(** [b.startswith(c)] and [a.endswith(c)] for one character [c]. *)
Definition startswith (c : Ascii.ascii) (s : string) : bool :=
  match s with
  | String.EmptyString => false
  | String.String a _ => Ascii.eqb a c
  end.

Fixpoint endswith (c : Ascii.ascii) (s : string) : bool :=
  match s with
  | String.EmptyString => false
  | String.String a r =>
      match r with
      | String.EmptyString => Ascii.eqb a c
      | String.String _ _ => endswith c r
      end
  end.

(** [os.path.join(a, b)] of [posixpath]. *)
Definition path_join (a b : string) : string :=
  if startswith "/"%char b then b
  else if String.eqb a "" || endswith "/"%char a then String.append a b
  else String.append a (String.append "/" b).

(** The exceptions of the method: an index into an empty list, and the
    use of the local name [merged_file] before it is bound. *)
Inductive merge_exn : Type :=
| IndexError
| UnboundLocalError (name : string).

(** What the method does to the outside: [nco.ncrcat], [print] and
    [remove], each of which is taken to return. *)
Inductive action : Type :=
| Ncrcat (input : list string) (output : string)
| Print (line : string)
| Remove (file : string).

(** The local name [merged_file], the actions performed so far, and the
    exception that ended the run, if any. *)
Record state : Type := {
  merged_file : option string;
  log : list action;
  raised : option merge_exn
}.

Definition file_type : list string :=
  ["erai_sa_*.nc"; "erai_sf_*.nc"; "erai_pl_*.nc"].

(** [getDstring], for the two dates as [strftime("%Y%m%d")] prints
    them. *)
Definition getDstring (date_beg date_end : string) : string :=
  String.append "_"
    (String.append date_beg (String.append "_to_" date_end)).

(** [self.file_ncdf] of [ERAIpl], [ERAIsa] and [ERAIsf]: [head] is
    ['erai_pl'], ['erai_sa'] or ['erai_sf']. *)
Definition file_ncdf (directory head date_beg date_end : string) : string :=
  let outfile :=
    String.append head
      (String.append (getDstring date_beg date_end) ".nc") in
  path_join directory outfile.

Section Files.

(** [glob.glob(pattern)] once [files_list.sort()] has sorted it.  The
    method passes three different patterns, each of them once. *)
Variable sorted_glob : string -> list string.

(** The second argument of [path.join] in the three branches:
    [head + files_list[0][-23:-15] + "_" + files_list[num-1][-11:-3]
    + '.nc']. *)
Definition merged_name (head : string) (files_list : list string)
  : option string :=
  let num := length files_list in
  match nth_error files_list 0, nth_error files_list (num - 1) with
  | Some first, Some last =>
      Some (String.append head
              (String.append (str_slice first (-23) (-15))
                 (String.append "_"
                    (String.append (str_slice last (-11) (-3)) ".nc"))))
  | _, _ => None
  end.

(** The body of [for ft in file_type]. *)
Definition merge_step (directory : string) (st : state) (ft : string)
  : state :=
  let ncfile_in := path_join directory ft in
  (* get the file list *)
  let files_list := sorted_glob ncfile_in in
  (* set up the name of merged file *)
  let kind := str_slice ncfile_in (-7) (-5) in
  let named (head : string) : state :=
    match merged_name head files_list with
    | Some name =>
        {| merged_file :=
             Some (path_join (str_slice ncfile_in 0 (-11)) name);
           log := log st; raised := None |}
    | None =>
        {| merged_file := merged_file st; log := log st;
           raised := Some IndexError |}
    end in
  let st1 :=
    if String.eqb kind "sa" then named "erai_sa_all_"
    else if String.eqb kind "sf" then named "erai_sf_all_"
    else if String.eqb kind "pl" then named "erai_pl_all_"
    else {| merged_file := merged_file st;
            log := log st ++ [Print "There is not such type of file"];
            raised := None |} in
  match raised st1 with
  | Some _ => st1
  | None =>
      (* combined files into merged files *)
      match merged_file st1 with
      | None =>
          {| merged_file := None; log := log st1;
             raised := Some (UnboundLocalError "merged_file") |}
      | Some merged =>
          {| merged_file := Some merged;
             log := log st1
                    ++ [Ncrcat files_list merged;
                        Print "The Merged File below is saved:";
                        Print merged]
                    (* clear up the data *)
                    ++ map Remove files_list;
             raised := None |}
      end
  end.

Fixpoint merge_loop (directory : string) (fts : list string) (st : state)
  : state :=
  match fts with
  | [] => st
  | ft :: r =>
      let st' := merge_step directory st ft in
      match raised st' with
      | Some _ => st'
      | None => merge_loop directory r st'
      end
  end.

Definition netCDF_merge (directory : string) : state :=
  merge_loop directory file_type
    {| merged_file := None; log := []; raised := None |}.

End Files.

(** A directory with two downloads of each type, and the same directory
    without the downloads of type sf. *)
Definition example_glob (pattern : string) : list string :=
  if String.eqb pattern "/data/erai_sa_*.nc" then
    ["/data/erai_sa_19790101_to_19790105.nc";
     "/data/erai_sa_19790106_to_19790110.nc"]
  else if String.eqb pattern "/data/erai_sf_*.nc" then
    ["/data/erai_sf_19790101_to_19790105.nc";
     "/data/erai_sf_19790106_to_19790110.nc"]
  else if String.eqb pattern "/data/erai_pl_*.nc" then
    ["/data/erai_pl_19790101_to_19790105.nc";
     "/data/erai_pl_19790106_to_19790110.nc"]
  else [].

Definition example_glob_no_sf (pattern : string) : list string :=
  if String.eqb pattern "/data/erai_sf_*.nc" then []
  else example_glob pattern.

End Merge.

(** * Shapes and names used in the statements *)

(** An array of shape ([nt], [nl], [ns]): (time, level, station). *)
Definition shaped (nt nl ns : nat) (a : list (list (list Q))) : Prop :=
  length a = nt
  /\ Forall (fun step =>
               length step = nl /\ Forall (fun lev => length lev = ns) step) a.

(** A station file with pressure levels whose arrays have the shape that
    its axes give. *)
Definition well_shaped (ncf : Levels.pl_file) : Prop :=
  let nt := length (Levels.time ncf) in
  let nl := length (Levels.level ncf) in
  let ns := length (Levels.height ncf) in
  shaped nt nl ns (Levels.z ncf)
  /\ Forall (fun kv => shaped nt nl ns (snd kv)) (Levels.plvars ncf).

(** The name [vn] of the variable that a kernel creates in the scaled
    file; [AIRT_redcapp] creates none, and the three kernels outside the
    model are left out. *)
Definition kernel_variable (k : Scale.kernel) : option string :=
  match k with
  | Scale.PRESS_Pa_pl => Some "PRESS_ERAI_Pa_pl"
  | Scale.AIRT_C_pl => Some "AIRT_ERAI_C_pl"
  | Scale.AIRT_C_sur => Some "AIRT_ERAI_C_sur"
  | Scale.PREC_mm_sur => Some "PREC_ERAI_mm_sur"
  | Scale.RH_per_sur => Some "RH_ERAI_per_sur"
  | Scale.SW_Wm2_sur => Some "SW_ERAI_Wm2_sur"
  | Scale.LW_Wm2_sur => Some "LW_ERAI_Wm2_sur"
  | Scale.AIRT_redcapp | Scale.WIND_sur | Scale.SH_kgkg_sur
  | Scale.LW_Wm2_topo => None
  end.

(** The kernels of the model: all but [WIND_sur], [SH_kgkg_sur] and
    [LW_Wm2_topo]. *)
Definition modelled (k : Scale.kernel) : bool :=
  match k with
  | Scale.WIND_sur | Scale.SH_kgkg_sur | Scale.LW_Wm2_topo => false
  | _ => true
  end.

(** A kernel list that names no kernel outside the model. *)
Definition modelled_kernels (kernels : list string) : Prop :=
  forall name k,
    In name kernels -> Scale.kernel_of name = Some k -> modelled k = true.

(** * Facts about the list primitives *)

Unset Implicit Arguments.

Section ListFacts.

Context {A B : Type}.

Lemma compress_map_combine (p : Z -> bool) (time : list Z) (xs : list A) :
  length xs = length time ->
  compress (map p time) xs
  = map snd (filter (fun x => p (fst x)) (combine time xs)).
Proof.
  revert xs; induction time as [|t time IH]; intros [|x xs] H;
    simpl in *; try discriminate; auto.
  injection H as H. rewrite (IH _ H). now destruct (p t).
Qed.

Lemma compress_map_filter (p : Z -> bool) (time : list Z) :
  compress (map p time) time = filter p time.
Proof.
  induction time as [|t time IH]; simpl; auto.
  rewrite IH. reflexivity.
Qed.

Lemma filter_map_fst_combine (p : Z -> bool) (time : list Z) (xs : list A) :
  length xs = length time ->
  map fst (filter (fun x => p (fst x)) (combine time xs)) = filter p time.
Proof.
  revert xs; induction time as [|t time IH]; intros [|x xs] H;
    simpl in *; try discriminate; auto.
  injection H as H. destruct (p t); simpl; now rewrite (IH _ H).
Qed.

Lemma mask_sum_compress (mask : list bool) (xs : list A) :
  length xs = length mask -> mask_sum mask = length (compress mask xs).
Proof.
  unfold mask_sum. revert xs; induction mask as [|b m IH]; intros [|x xs] H;
    simpl in *; try discriminate; auto.
  injection H as H. destruct b; simpl.
  - destruct (bool_dec true true); [now rewrite (IH _ H) | congruence].
  - destruct (bool_dec false true); [discriminate | now apply IH].
Qed.

Lemma filter_none (p : A -> bool) (l : list A) :
  (forall x, In x l -> p x = false) -> filter p l = [].
Proof.
  induction l as [|a l IH]; simpl; intros H; auto.
  rewrite (H a (or_introl eq_refl)). apply IH. intros; apply H; now right.
Qed.

Lemma filter_filter_imp (p q : A -> bool) (l : list A) :
  (forall x, In x l -> p x = true -> q x = true) ->
  filter p (filter q l) = filter p l.
Proof.
  induction l as [|a l IH]; simpl; intros H; auto.
  destruct (q a) eqn:Q; simpl.
  - destruct (p a); [f_equal|]; apply IH; intros; apply H; auto.
  - destruct (p a) eqn:P.
    + rewrite (H a (or_introl eq_refl) P) in Q. discriminate.
    + apply IH; intros; apply H; auto.
Qed.

Lemma slice_map (f : A -> B) (l : list A) (b e : nat) :
  slice (map f l) b e = map f (slice l b e).
Proof.
  unfold slice. now rewrite skipn_map, firstn_map.
Qed.

Lemma firstn_slice (l : list A) (b e : nat) :
  b <= e -> firstn b l ++ slice l b e = firstn e l.
Proof.
  unfold slice. revert b e; induction l as [|a l IH]; intros b e H.
  - now rewrite skipn_nil, !firstn_nil.
  - destruct b as [|b].
    + simpl. now rewrite Nat.sub_0_r.
    + destruct e as [|e]; [lia|]. simpl. f_equal. apply IH. lia.
Qed.

Lemma length_slice (l : list A) (b e : nat) :
  e <= length l -> length (slice l b e) = e - b.
Proof.
  unfold slice. intros H. rewrite length_firstn, length_skipn. lia.
Qed.

Lemma getitem_nth (l : list A) (i : nat) (d : A) :
  i < length l -> getitem l i = Ok (nth i l d).
Proof.
  intros H. unfold getitem. now rewrite (nth_error_nth' l d H).
Qed.

End ListFacts.

(** A strictly increasing list, filtered to the closed range between two
    of its own entries, is the slice between their positions. *)

Section SortedRange.

Context {X : Type}.
Variable key : X -> Z.

Local Abbreviation key_lt := (fun x y : X => (key x < key y)%Z).

Lemma key_nth_In (L : list X) (e : nat) :
  e < length L -> exists x, In x L /\ key x = nth e (map key L) 0%Z.
Proof.
  intros He.
  assert (H : In (nth e (map key L) 0%Z) (map key L))
    by (apply nth_In; now rewrite length_map).
  apply in_map_iff in H. destruct H as (x & Hx & Hin). eauto.
Qed.

Lemma filter_upto_sorted (L : list X) (e : nat) (lo : Z) :
  StronglySorted key_lt L -> e < length L ->
  (forall x, In x L -> (lo <= key x)%Z) ->
  filter (fun x => (key x <=? nth e (map key L) 0)%Z && (key x >=? lo)%Z) L
  = firstn (e + 1) L.
Proof.
  intros HL. revert e. induction HL as [|x L HL IH Hx]; intros e He Hlo.
  - simpl in He. lia.
  - rewrite Forall_forall in Hx. cbv beta in Hx.
    assert (Hlx : (lo <= key x)%Z) by (apply Hlo; now left).
    destruct e as [|e].
    + cbn [map nth filter Nat.add firstn].
      replace ((key x <=? key x)%Z && (key x >=? lo)%Z) with true
        by (symmetry; apply andb_true_iff; split; lia).
      f_equal. apply filter_none. intros y Hy. specialize (Hx y Hy).
      apply andb_false_iff. left. lia.
    + simpl in He. cbn [map nth filter Nat.add firstn].
      destruct (@key_nth_In L e) as (y & Hy & Hk); [lia|].
      specialize (Hx _ Hy). rewrite <- Hk.
      replace ((key x <=? key y)%Z && (key x >=? lo)%Z) with true
        by (symmetry; apply andb_true_iff; split; lia).
      f_equal. rewrite Hk. apply IH; [lia|]. intros; apply Hlo; now right.
Qed.

Lemma filter_range_sorted (L : list X) (b e : nat) :
  StronglySorted key_lt L -> b <= e -> e < length L ->
  filter (fun x => (key x <=? nth e (map key L) 0)%Z
                   && (key x >=? nth b (map key L) 0)%Z) L
  = slice L b (e + 1).
Proof.
  intros HL. revert b e. induction HL as [|x L HL IH Hx]; intros b e Hbe He.
  - simpl in He. lia.
  - destruct b as [|b].
    + unfold slice. rewrite Nat.sub_0_r. cbn [skipn].
      change (nth 0 (map key (x :: L)) 0%Z) with (key x).
      apply filter_upto_sorted; auto.
      * now constructor.
      * intros y [<-|Hy]; [lia|].
        rewrite Forall_forall in Hx. specialize (Hx y Hy).
        cbv beta in Hx. lia.
    + destruct e as [|e]; [lia|]. simpl in He.
      unfold slice. cbn [map nth filter skipn].
      rewrite Forall_forall in Hx. cbv beta in Hx.
      destruct (@key_nth_In L b) as (y & Hy & Hk); [lia|].
      specialize (Hx _ Hy). rewrite <- Hk.
      replace ((key x <=? nth e (map key L) 0)%Z && (key x >=? key y)%Z)
        with false by (symmetry; apply andb_false_iff; right; lia).
      replace (S e + 1 - S b) with (e + 1 - b) by lia.
      rewrite Hk. apply IH; lia.
Qed.

Lemma StronglySorted_filter (R : X -> X -> Prop) (p : X -> bool)
    (l : list X) :
  StronglySorted R l -> StronglySorted R (filter p l).
Proof.
  induction 1 as [|x l HL IH Hx]; simpl; [constructor|].
  destruct (p x); auto. constructor; auto.
  rewrite Forall_forall in *. intros y Hy.
  apply filter_In in Hy. now apply Hx.
Qed.

Lemma StronglySorted_key (L : list X) :
  StronglySorted Z.lt (map key L) -> StronglySorted key_lt L.
Proof.
  induction L as [|x L IH]; simpl; intros H; [constructor|].
  inversion H as [|? ? HS HF]; subst. constructor; auto.
  rewrite Forall_forall in *. intros y Hy. apply HF. now apply in_map.
Qed.

End SortedRange.

(** * The error monad *)

Section MonadFacts.

Context {A B : Type}.

Lemma mapM_ok_map (f : A -> result B) (g : A -> B) (l : list A) :
  (forall x, In x l -> f x = Ok (g x)) -> mapM f l = Ok (map g l).
Proof.
  induction l as [|a l IH]; simpl; intros H; auto.
  rewrite (H a (or_introl eq_refl)). simpl.
  rewrite IH by (intros; apply H; now right). reflexivity.
Qed.



Lemma lookup_NoDup (d : list (string * A)) (k : string) (a : A) :
  NoDup (map fst d) -> In (k, a) d -> lookup k d = Ok a.
Proof.
  induction d as [|[k' a'] d IH]; simpl; intros Hnd Hin; [tauto|].
  inversion Hnd as [|? ? Hk Hd]; subst.
  destruct Hin as [E|Hin].
  - injection E as -> ->. now rewrite String.eqb_refl.
  - destruct (String.eqb_spec k k') as [->|_]; auto.
    exfalso. apply Hk. apply in_map_iff. now exists (k', a).
Qed.

End MonadFacts.

(** * ERA2station: the chunks and what they write *)

Lemma niter_lt (cs len n : nat) :
  1 <= cs -> (n < Interpolate.niter_of len cs <-> n * cs < len).
Proof.
  intros Hcs. unfold Interpolate.niter_of.
  pose proof (Nat.div_mod_eq len cs) as E.
  pose proof (Nat.mod_upper_bound len cs ltac:(lia)) as U.
  destruct (Nat.ltb_spec 0 (len mod cs)); split; intros; nia.
Qed.

Lemma chunk_end_succ (cs len n : nat) :
  1 <= cs -> n * cs < len ->
  Interpolate.chunk_end cs len n + 1 = Nat.min (n * cs + cs) len.
Proof. unfold Interpolate.chunk_end. set (m := n * cs). lia. Qed.

Lemma chunk_bounds (cs len n : nat) :
  1 <= cs -> n * cs < len ->
  Interpolate.chunk_beg cs n <= Interpolate.chunk_end cs len n
  /\ Interpolate.chunk_end cs len n < len.
Proof.
  unfold Interpolate.chunk_beg, Interpolate.chunk_end. set (m := n * cs). lia.
Qed.

Section ERA2stationFacts.

Import Interpolate.

Variables grid_row station_row : Type.
Variable regrid : grid_row -> station_row.
Variable variables_skip : string -> bool.
Variable ncf_in : dataset grid_row.
Variable date : option (Z * Z).

Local Abbreviation time := (nctime ncf_in).
Local Abbreviation tmask := (tmask_of (nctime ncf_in) date).
Local Abbreviation time_in := (compress tmask (nctime ncf_in)).
Local Abbreviation kept := (fun kv : string * list grid_row =>
                              negb (variables_skip (fst kv))).

Lemma in_range_convex (a b t : Z) :
  in_range date a = true -> in_range date b = true ->
  (a <= t <= b)%Z -> in_range date t = true.
Proof.
  unfold in_range. destruct date as [[dbeg dend]|]; intros Ha Hb Ht.
  - apply andb_true_iff in Ha, Hb. apply andb_true_iff. split; lia.
  - lia.
Qed.

Lemma time_in_filter : time_in = filter (in_range date) time.
Proof. unfold tmask_of. apply compress_map_filter. Qed.

Lemma map_fst_combine (A : Type) (rows : list A) :
  length rows = length time -> map fst (combine time rows) = time.
Proof.
  generalize time. intros l; revert rows.
  induction l as [|t l IH]; intros [|x xs] H; simpl in *;
    try discriminate; auto.
  f_equal. apply IH. lia.
Qed.

Lemma length_restricted (A : Type) (rows : list A) :
  length rows = length time -> length (compress tmask rows) = length time_in.
Proof.
  intros H.
  rewrite <- (mask_sum_compress tmask rows), <- (mask_sum_compress tmask time);
    auto; unfold tmask_of; now rewrite length_map.
Qed.

(** The mask of a chunk, built from the first and the last time of the
    chunk, selects the rows of the chunk and no other. *)
Lemma chunk_mask_slice (A : Type) (rows : list A) (b e : nat) :
  StronglySorted Z.lt time -> length rows = length time ->
  b <= e -> e < length time_in ->
  compress
    (map (fun t => (t <=? nth e time_in 0)%Z && (t >=? nth b time_in 0)%Z) time)
    rows
  = slice (compress tmask rows) b (e + 1).
Proof.
  intros Hs Hlen Hbe He.
  rewrite (compress_map_combine
             (fun t => (t <=? nth e time_in 0)%Z && (t >=? nth b time_in 0)%Z))
    by assumption.
  unfold tmask_of at 3.
  rewrite (compress_map_combine (in_range date)) by assumption.
  rewrite slice_map. f_equal.
  set (P := combine time rows).
  set (S' := filter (fun x => in_range date (fst x)) P).
  assert (HS' : map fst S' = time_in).
  { unfold S', P. rewrite filter_map_fst_combine by assumption.
    symmetry. apply time_in_filter. }
  assert (Hin : forall i, i < length time_in ->
                          in_range date (nth i time_in 0%Z) = true).
  { intros i Hi.
    assert (H : In (nth i time_in 0%Z) time_in) by now apply nth_In.
    rewrite time_in_filter in H |- *. now apply filter_In in H. }
  rewrite <- (filter_filter_imp
                (fun x => (fst x <=? nth e time_in 0)%Z
                          && (fst x >=? nth b time_in 0)%Z)
                (fun x => in_range date (fst x)) P).
  - fold S'. rewrite <- HS'. apply filter_range_sorted; auto.
    + apply StronglySorted_filter, StronglySorted_key.
      unfold P. now rewrite map_fst_combine.
    + rewrite <- (length_map fst), HS'. exact He.
  - intros x _ Hx. apply andb_true_iff in Hx.
    apply in_range_convex
      with (a := nth b time_in 0%Z) (b := nth e time_in 0%Z);
      [apply Hin | apply Hin | ]; lia.
Qed.

Lemma firstn_min_length (A : Type) (l : list A) (n : nat) :
  firstn (Nat.min n (length l)) l = firstn n l.
Proof.
  destruct (Nat.le_ge_cases n (length l)).
  - now rewrite Nat.min_l.
  - rewrite Nat.min_r by assumption. now rewrite !firstn_all2 by lia.
Qed.

Lemma ERAinterp2D_ok (mask : list bool) :
  well_formed ncf_in -> length mask = length time -> mask_sum mask <> 0 ->
  ERAinterp2D regrid ncf_in mask None
  = Ok (map (fun kv => map regrid (compress mask (snd kv))) (ncvars ncf_in),
        map fst (ncvars ncf_in)).
Proof.
  intros (_ & Hnd & Hrect) Hlen Hsum. unfold ERAinterp2D.
  destruct (Nat.eqb_spec (mask_sum mask) 0) as [E|_]; [contradiction|].
  unfold set_eq_int. rewrite andb_false_r.
  assert (M : mapM (fun var => rows <- lookup var (ncvars ncf_in) ;;
                               bool_index rows mask)
                (map fst (ncvars ncf_in))
              = Ok (map (fun k => match lookup k (ncvars ncf_in) with
                                  | Ok rows => compress mask rows
                                  | Raise _ => []
                                  end) (map fst (ncvars ncf_in)))).
  { apply mapM_ok_map. intros k Hk. apply in_map_iff in Hk.
    destruct Hk as ([k' rows] & <- & Hin). simpl.
    rewrite (lookup_NoDup _ _ _ Hnd Hin). simpl. unfold bool_index.
    rewrite Forall_forall in Hrect. specialize (Hrect _ Hin). simpl in Hrect.
    rewrite Hrect, Hlen, Nat.eqb_refl. reflexivity. }
  rewrite M. simpl. do 2 f_equal. rewrite !map_map.
  apply map_ext_in. intros [k rows] Hin. simpl.
  now rewrite (lookup_NoDup _ _ _ Hnd Hin).
Qed.

Lemma assign_app (var : string) (b e : nat) (data : list station_row)
    (done : list (string * list (option station_row)))
    (rows rows' : list (option station_row))
    (r : list (string * list (option station_row))) :
  ~ In var (map fst done) -> set_slice rows b e data = Ok rows' ->
  assign var b e data (done ++ (var, rows) :: r)
  = Ok (done ++ (var, rows') :: r).
Proof.
  intros Hnot Hset. induction done as [|[k x] done IH]; simpl.
  - now rewrite String.eqb_refl, Hset.
  - simpl in Hnot. destruct (String.eqb_spec var k) as [->|_]; [tauto|].
    rewrite IH by tauto. reflexivity.
Qed.

Lemma append_variables_ok (b e : nat)
    (d : list grid_row -> list station_row)
    (F G : list grid_row -> list (option station_row))
    (kvs : list (string * list grid_row)) :
  NoDup (map fst kvs) ->
  (forall kv, In kv kvs -> set_slice (F (snd kv)) b e (d (snd kv))
                           = Ok (G (snd kv))) ->
  forall done,
  (forall kv, In kv kvs -> ~ In (fst kv) (map fst done)) ->
  append_variables variables_skip b e (map (fun kv => d (snd kv)) kvs)
    (map fst kvs)
    (done ++ map (fun kv => (fst kv, F (snd kv))) (filter kept kvs))
  = Ok (done ++ map (fun kv => (fst kv, G (snd kv))) (filter kept kvs)).
Proof.
  induction kvs as [|[k v] kvs IH]; intros Hnd Hset done Hdone; simpl; auto.
  inversion Hnd as [|? ? Hk Hnd']; subst.
  destruct (variables_skip k) eqn:Hskip; simpl.
  - apply IH; auto; intros; [apply Hset | apply Hdone]; now right.
  - rewrite assign_app with (rows' := G v);
      [ | apply (Hdone (k, v)); now left | apply (Hset (k, v)); now left ].
    simpl.
    change (done ++ (k, G v) :: ?l) with (done ++ [(k, G v)] ++ l).
    change (done ++ (k, F v) :: ?l) with (done ++ [(k, F v)] ++ l).
    rewrite !app_assoc. apply IH; auto.
    + intros; apply Hset; now right.
    + intros kv Hin. rewrite map_app, in_app_iff. simpl.
      intros [H|[H|[]]].
      * now apply (Hdone kv (or_intror Hin)).
      * apply Hk. rewrite H. now apply in_map.
Qed.

Lemma set_slice_append (full : list grid_row) (b e : nat) :
  b <= e -> e <= length full ->
  set_slice (map Some (map regrid (firstn b full))) b e
    (map regrid (slice full b e))
  = Ok (map Some (map regrid (firstn e full))).
Proof.
  intros Hbe He. unfold set_slice.
  rewrite length_map, length_slice, Nat.eqb_refl by assumption.
  assert (L : length (map Some (map regrid (firstn b full))) = b)
    by (rewrite !length_map, length_firstn; lia).
  rewrite L, Nat.sub_diag. simpl repeat. rewrite app_nil_r.
  rewrite firstn_all2 by lia. rewrite skipn_all2 by lia.
  rewrite app_nil_r, <- !map_app, firstn_slice by assumption. reflexivity.
Qed.

Variable cs : nat.
Hypothesis Hcs : 1 <= cs.
Hypothesis Hwf : well_formed ncf_in.

Local Abbreviation state k :=
  (after_chunks regrid variables_skip cs ncf_in date k).

(** From the chunk mask on: regridding, then the two appends. *)
Lemma chunk_tail (k : nat) (cm : list bool) :
  k * cs < length time_in ->
  length cm = length time ->
  (forall (A : Type) (rows : list A), length rows = length time ->
     compress cm rows
     = slice (compress tmask rows) (chunk_beg cs k)
         (chunk_end cs (length time_in) k + 1)) ->
  (r <- ERAinterp2D regrid ncf_in cm None ;;
   let (dfield, variables) := r in
   vars' <- append_variables variables_skip (chunk_beg cs k)
              (chunk_end cs (length time_in) k + 1) dfield variables
              (out_vars (state k)) ;;
   Ok {| out_time := out_time (state k)
                     ++ slice time_in (chunk_beg cs k)
                          (chunk_end cs (length time_in) k + 1);
         out_vars := vars' |})
  = Ok (state (S k)).
Proof.
  intros Hk Hlen Hcm.
  destruct (chunk_bounds cs _ k Hcs Hk) as [Hbe He].
  pose proof (chunk_end_succ cs _ k Hcs Hk) as Hstop.
  destruct Hwf as (Hs & Hnd & Hrect).
  rewrite ERAinterp2D_ok; auto.
  2:{ rewrite (mask_sum_compress cm time) by (symmetry; exact Hlen).
      rewrite Hcm by reflexivity. rewrite length_slice by lia. lia. }
  simpl bind.
  rewrite (map_ext_in _
             (fun kv => map regrid
                          (slice (compress tmask (snd kv)) (chunk_beg cs k)
                             (chunk_end cs (length time_in) k + 1)))).
  2:{ intros kv Hin. rewrite Forall_forall in Hrect.
      now rewrite (Hcm _ (snd kv) (Hrect kv Hin)). }
  unfold after_chunks; cbn [out_time out_vars].
  assert (Hset : forall kv, In kv (ncvars ncf_in) ->
            set_slice
              (map Some (map regrid (firstn (k * cs) (compress tmask (snd kv)))))
              (chunk_beg cs k) (chunk_end cs (length time_in) k + 1)
              (map regrid
                 (slice (compress tmask (snd kv)) (chunk_beg cs k)
                    (chunk_end cs (length time_in) k + 1)))
            = Ok (map Some
                    (map regrid (firstn (S k * cs) (compress tmask (snd kv)))))).
  { intros kv Hin. rewrite Forall_forall in Hrect.
    pose proof (length_restricted _ (snd kv) (Hrect kv Hin)) as HL.
    unfold chunk_beg in *. rewrite set_slice_append by lia.
    do 3 f_equal. rewrite Hstop.
    rewrite <- (firstn_min_length _ (compress tmask (snd kv)) (S k * cs)).
    rewrite HL. f_equal. lia. }
  pose proof (append_variables_ok
                (chunk_beg cs k) (chunk_end cs (length time_in) k + 1)
                (fun rows => map regrid
                   (slice (compress tmask rows) (chunk_beg cs k)
                      (chunk_end cs (length time_in) k + 1)))
                (fun rows => map Some
                   (map regrid (firstn (k * cs) (compress tmask rows))))
                (fun rows => map Some
                   (map regrid (firstn (S k * cs) (compress tmask rows))))
                (ncvars ncf_in) Hnd Hset [] (fun _ _ H => H)) as HA.
  cbn [app] in HA. rewrite HA. simpl bind. f_equal. f_equal.
  unfold chunk_beg in *. rewrite firstn_slice by lia. rewrite Hstop.
  rewrite <- (firstn_min_length _ time_in (S k * cs)). f_equal. lia.
Qed.

Lemma chunk_step_ok (k : nat) :
  k * cs < length time_in ->
  chunk_step regrid variables_skip cs ncf_in (Nat.eqb (length time) 1)
    time_in (state k) k
  = Ok (state (S k)).
Proof.
  intros Hk. unfold chunk_step.
  destruct (chunk_bounds cs _ k Hcs Hk) as [Hbe He].
  rewrite (getitem_nth time_in _ 0%Z) by (unfold chunk_beg in *; lia).
  simpl bind.
  destruct (Nat.eqb_spec (length time) 1) as [Hinv|Hinv].
  - (* invariant file: one time step, one chunk *)
    rewrite (getitem_nth time _ 0%Z) by lia. simpl bind.
    apply chunk_tail; auto.
    intros A rows Hrows.
    pose proof (length_restricted _ rows Hrows) as HL.
    assert (Hone : length time_in = 1).
    { pose proof (length_restricted _ time eq_refl).
      assert (length time_in <= length time).
      { rewrite time_in_filter. apply filter_length_le. }
      lia. }
    assert (k = 0) by nia. subst k.
    unfold chunk_beg, chunk_end, slice. rewrite Hone.
    replace (Nat.min (0 * cs + cs) 1 - 1 + 1 - 0 * cs) with 1 by lia.
    simpl skipn. rewrite firstn_all2 by lia.
    destruct time as [|t0 [|t1 l]] eqn:Et; simpl in Hinv; try lia.
    destruct rows as [|x [|y rows]]; simpl in Hrows; try lia.
    unfold tmask_of in *. simpl in *.
    destruct (in_range date t0); simpl in *; [reflexivity | lia].
  - rewrite (getitem_nth time_in _ 0%Z) by lia. simpl bind.
    apply chunk_tail; auto.
    + now rewrite length_map.
    + intros A rows Hrows. destruct Hwf as (Hs & _).
      now apply chunk_mask_slice.
Qed.

Lemma for_range_app (body : station_file station_row -> nat ->
                            result (station_file station_row))
    (l1 l2 : list nat) (s : station_file station_row) :
  for_range body (l1 ++ l2) s
  = (s' <- for_range body l1 s ;; for_range body l2 s').
Proof.
  revert s; induction l1 as [|n l1 IH]; intros s; simpl; auto.
  destruct (body s n); simpl; auto.
Qed.

Lemma netCDF_empty_state :
  netCDF_empty station_row variables_skip ncf_in = state 0.
Proof.
  unfold netCDF_empty, after_chunks. simpl. f_equal.
  induction (ncvars ncf_in) as [|[k v] l IH]; simpl; auto.
  destruct (variables_skip k); simpl; now rewrite IH.
Qed.

(** The loop invariant: after [k] chunks the file holds the first
    [k * cs] rows of the whole-range series. *)
Lemma chunks_prefix (k : nat) :
  k <= niter_of (length time_in) cs ->
  for_range (chunk_step regrid variables_skip cs ncf_in
               (Nat.eqb (length time) 1) time_in)
    (seq 0 k) (netCDF_empty station_row variables_skip ncf_in)
  = Ok (state k).
Proof.
  induction k as [|k IH]; intros Hk.
  - simpl. now rewrite netCDF_empty_state.
  - rewrite seq_S, for_range_app, IH by lia. simpl.
    rewrite chunk_step_ok; auto.
    apply (niter_lt cs (length time_in) k Hcs). lia.
Qed.

Lemma state_niter :
  state (niter_of (length time_in) cs)
  = whole_range regrid variables_skip ncf_in date.
Proof.
  assert (H : length time_in <= niter_of (length time_in) cs * cs).
  { pose proof (niter_lt cs (length time_in)
                  (niter_of (length time_in) cs) Hcs).
    lia. }
  destruct Hwf as (_ & _ & Hrect).
  unfold after_chunks, whole_range. f_equal.
  - now apply firstn_all2.
  - apply map_ext_in. intros kv Hin. apply filter_In in Hin.
    rewrite Forall_forall in Hrect.
    rewrite firstn_all2; auto.
    rewrite (length_restricted _ (snd kv)); auto. apply Hrect, Hin.
Qed.

Lemma ERA2station_whole_range (variables : option (list string)) :
  ERA2station regrid variables_skip cs ncf_in variables date
  = Ok (whole_range regrid variables_skip ncf_in date).
Proof.
  unfold ERA2station.
  destruct (Nat.eqb_spec cs 0); [lia|].
  rewrite chunks_prefix by lia. now rewrite state_niter.
Qed.

Lemma firstn_next_chunk (A : Type) (l : list A) (k : nat) :
  length l = length time_in -> k * cs < length time_in ->
  firstn (S k * cs) l
  = firstn (k * cs) l
    ++ slice l (chunk_beg cs k) (chunk_end cs (length time_in) k + 1).
Proof.
  intros Hl Hk.
  destruct (chunk_bounds cs _ k Hcs Hk) as [Hbe He].
  pose proof (chunk_end_succ cs _ k Hcs Hk) as Hstop.
  unfold chunk_beg in *. rewrite firstn_slice by lia. rewrite Hstop.
  rewrite <- (firstn_min_length _ l (S k * cs)), Hl. f_equal. lia.
Qed.

Lemma Forall2_map_same (A B C : Type) (R : B -> C -> Prop) (f : A -> B)
    (g : A -> C) (l : list A) :
  (forall x, In x l -> R (f x) (g x)) -> Forall2 R (map f l) (map g l).
Proof.
  induction l as [|a l IH]; simpl; intros H; constructor; auto.
Qed.

Lemma state_dense (k : nat) :
  k * cs < length time_in -> dense (state k) (chunk_beg cs k).
Proof.
  intros Hk. destruct Hwf as (_ & _ & Hrect).
  rewrite Forall_forall in Hrect.
  unfold dense, after_chunks, chunk_beg; cbn [out_time out_vars]. split.
  - rewrite length_firstn. lia.
  - apply Forall_forall. intros kv' Hin. apply in_map_iff in Hin.
    destruct Hin as (kv & <- & Hin). apply filter_In in Hin.
    cbn [snd]. split.
    + rewrite !length_map, length_firstn.
      rewrite (length_restricted _ (snd kv)) by (apply Hrect, Hin). lia.
    + intros H. apply in_map_iff in H. destruct H as (? & ? & _).
      discriminate.
Qed.

Lemma state_extends (k : nat) :
  k * cs < length time_in ->
  extends (state k) (state (S k))
    (chunk_end cs (length time_in) k + 1 - chunk_beg cs k).
Proof.
  intros Hk. destruct Hwf as (_ & _ & Hrect).
  rewrite Forall_forall in Hrect.
  destruct (chunk_bounds cs _ k Hcs Hk) as [Hbe He].
  unfold extends, after_chunks; cbn [out_time out_vars]. split.
  - exists (slice time_in (chunk_beg cs k)
              (chunk_end cs (length time_in) k + 1)).
    split; [apply length_slice; lia | now apply firstn_next_chunk].
  - apply Forall2_map_same. intros kv Hin. apply filter_In in Hin.
    cbn [fst snd]. split; auto.
    pose proof (length_restricted _ (snd kv) (Hrect _ (proj1 Hin))) as HL.
    exists (map regrid
              (slice (compress tmask (snd kv)) (chunk_beg cs k)
                 (chunk_end cs (length time_in) k + 1))).
    split.
    + rewrite length_map. apply length_slice. lia.
    + rewrite (firstn_next_chunk _ _ k HL Hk), !map_app. reflexivity.
Qed.

End ERA2stationFacts.

Lemma chunk_partition_holds (cs len : nat) :
  1 <= cs -> Interpolate.chunk_partition cs len.
Proof.
  intros Hcs. unfold Interpolate.chunk_partition.
  cbv zeta. repeat split.
  - intros i Hi.
    pose proof (Nat.div_mod_eq i cs) as E.
    pose proof (Nat.mod_upper_bound i cs ltac:(lia)) as U.
    exists (i / cs).
    assert (Hn : i / cs * cs < len) by nia.
    split; [now apply niter_lt|].
    unfold Interpolate.chunk_beg, Interpolate.chunk_end.
    split; [split; nia|].
    intros m Hm [H1 H2]. apply niter_lt in Hm; [|assumption].
    assert (m * cs <= i < m * cs + cs) by lia.
    nia.
  - apply niter_lt in H; [|assumption].
    unfold Interpolate.chunk_beg, Interpolate.chunk_end.
    set (m := n * cs) in *. lia.
  - apply niter_lt in H; [|assumption].
    unfold Interpolate.chunk_beg, Interpolate.chunk_end.
    set (m := n * cs) in *. lia.
  - intros n Hn. apply niter_lt in Hn; [|assumption].
    unfold Interpolate.chunk_beg, Interpolate.chunk_end. nia.
Qed.

(** C1.  For every chunk size [cs >= 1], every dataset that satisfies the
    invariants of a gridded dataset (strictly increasing time axis, one row
    per time step in every variable, no variable name twice), every time
    window and every requested variable list, [ERA2station] succeeds and
    the station file it writes is the series of the whole restricted range
    ([whole_range]); it is the file written when the restricted range is
    one chunk ([cs] set to its length, at most one iteration); and the
    chunks partition the restricted time indices: each index in exactly one
    chunk of at most [cs] steps, every chunk but the last of [cs] steps. *)
Theorem ERA2station_chunking :
  forall (grid_row station_row : Type) (regrid : grid_row -> station_row)
         (variables_skip : string -> bool)
         (ncf_in : Interpolate.dataset grid_row)
         (variables : option (list string)) (date : option (Z * Z))
         (cs : nat),
  1 <= cs ->
  Interpolate.well_formed ncf_in ->
  let len :=
    length (compress (Interpolate.tmask_of (Interpolate.nctime ncf_in) date)
              (Interpolate.nctime ncf_in)) in
  Interpolate.ERA2station regrid variables_skip cs ncf_in variables date
  = Ok (Interpolate.whole_range regrid variables_skip ncf_in date)
  /\ Interpolate.ERA2station regrid variables_skip cs ncf_in variables date
     = Interpolate.ERA2station regrid variables_skip (Nat.max 1 len) ncf_in
         variables date
  /\ Interpolate.niter_of len (Nat.max 1 len) <= 1
  /\ Interpolate.chunk_partition cs len.
Proof.
  intros grid_row station_row regrid variables_skip ncf_in variables date cs
    Hcs Hwf len.
  split; [|split; [|split]].
  - now apply ERA2station_whole_range.
  - rewrite !ERA2station_whole_range; auto. lia.
  - destruct (Nat.le_gt_cases (Interpolate.niter_of len (Nat.max 1 len)) 1)
      as [H|H]; auto.
    assert (H1 : 1 < Interpolate.niter_of len (Nat.max 1 len)) by lia.
    apply niter_lt in H1; lia.
  - apply chunk_partition_holds; assumption.
Qed.

Lemma example_dataset_well_formed :
  Interpolate.well_formed Interpolate.example_dataset.
Proof.
  unfold Interpolate.well_formed, Interpolate.example_dataset; simpl.
  split; [|split].
  - repeat (constructor; [|repeat (constructor; try lia)]). constructor.
  - repeat constructor; simpl; intuition discriminate.
  - repeat constructor.
Defined.

Lemma ERA2station_chunking_witness :
  1 <= 3
  /\ Interpolate.well_formed Interpolate.example_dataset
  /\ Interpolate.ERA2station Interpolate.example_regrid
       Interpolate.example_skip 3 Interpolate.example_dataset None
       (Some (13, 26)%Z)
     = Ok (Interpolate.whole_range Interpolate.example_regrid
             Interpolate.example_skip Interpolate.example_dataset
             (Some (13, 26)%Z)).
Proof.
  split; [lia|]. split; [exact example_dataset_well_formed|].
  apply (ERA2station_chunking Z Z Interpolate.example_regrid
           Interpolate.example_skip Interpolate.example_dataset None
           (Some (13, 26)%Z) 3); [lia | exact example_dataset_well_formed].
Defined.

(** C6, as stated, fails.  The offset at which the rows of the variables
    are written is [beg = n * cs], computed from the chunk index alone; only
    the time slice is appended at the end of what the file holds.  The body
    of the loop for chunk 1 with [cs = 3], run on the station file that
    holds no time step yet, appends the three time stamps of the chunk at
    row 0 and writes the rows of the variables at the rows 3 to 5: the
    rows 0 to 2 stay unwritten and the variables no longer line up with
    the time axis. *)
Lemma chunk_step_offset_from_index :
  length
    (Interpolate.out_time
       (Interpolate.netCDF_empty Z Interpolate.example_skip
          Interpolate.example_dataset)) = 0
  /\ Interpolate.chunk_beg 3 1 = 3
  /\ Interpolate.chunk_step Interpolate.example_regrid
       Interpolate.example_skip 3 Interpolate.example_dataset false
       (Interpolate.nctime Interpolate.example_dataset)
       (Interpolate.netCDF_empty Z Interpolate.example_skip
          Interpolate.example_dataset) 1
     = Ok {| Interpolate.out_time := [19; 22; 25]%Z;
             Interpolate.out_vars :=
               [("t2m", [None; None; None; Some 8; Some 10; Some 12]%Z);
                ("d2m", [None; None; None; Some 28; Some 30; Some 32]%Z)] |}.
Proof. repeat split. Qed.

(** C6, amended.  In a run of [ERA2station], for a well-formed dataset
    and [cs >= 1], the offset [chunk_beg cs n = n * cs] at which chunk [n]
    writes its variable slices coincides with the number of time steps
    that the previous chunks appended: the chunks before chunk [n] run
    without error and leave a station file with that many time steps,
    every row of every variable written; chunk [n] then only adds its own
    rows at that offset, as many as the chunk has steps, leaving every
    earlier row in place.  The ranges of consecutive chunks abut, the
    first starts at 0 and the last ends at the length of the restricted
    time axis: the appended ranges have no gap and no overlap. *)
Theorem ERA2station_offsets :
  forall (grid_row station_row : Type) (regrid : grid_row -> station_row)
         (variables_skip : string -> bool)
         (ncf_in : Interpolate.dataset grid_row) (date : option (Z * Z))
         (cs n : nat),
  1 <= cs ->
  Interpolate.well_formed ncf_in ->
  let time := Interpolate.nctime ncf_in in
  let time_in := compress (Interpolate.tmask_of time date) time in
  let len := length time_in in
  let niter := Interpolate.niter_of len cs in
  let step := Interpolate.chunk_step regrid variables_skip cs ncf_in
                (Nat.eqb (length time) 1) time_in in
  n < niter ->
  exists s s' : Interpolate.station_file station_row,
    Interpolate.for_range step (seq 0 n)
      (Interpolate.netCDF_empty station_row variables_skip ncf_in) = Ok s
    /\ Interpolate.dense s (Interpolate.chunk_beg cs n)
    /\ step s n = Ok s'
    /\ Interpolate.extends s s'
         (Interpolate.chunk_end cs len n + 1 - Interpolate.chunk_beg cs n)
    /\ Interpolate.dense s' (Interpolate.chunk_end cs len n + 1)
    /\ Interpolate.chunk_beg cs 0 = 0
    /\ (S n < niter ->
        Interpolate.chunk_beg cs (S n) = Interpolate.chunk_end cs len n + 1)
    /\ (S n = niter -> Interpolate.chunk_end cs len n + 1 = len).
Proof.
  intros grid_row station_row regrid variables_skip ncf_in date cs n Hcs Hwf
    time time_in len niter step Hn.
  assert (Hk : n * cs < len) by (apply niter_lt; assumption).
  pose proof (chunk_end_succ cs len n Hcs Hk) as Hstop.
  exists (Interpolate.after_chunks regrid variables_skip cs ncf_in date n),
         (Interpolate.after_chunks regrid variables_skip cs ncf_in date (S n)).
  split; [apply chunks_prefix; auto; fold time time_in len niter; lia|].
  split; [now apply state_dense|].
  split; [now apply chunk_step_ok|].
  split; [now apply state_extends|].
  split.
  { destruct (Nat.lt_ge_cases (S n * cs) len) as [H|H].
    - replace (Interpolate.chunk_end cs len n + 1)
        with (Interpolate.chunk_beg cs (S n))
        by (unfold Interpolate.chunk_beg; lia).
      now apply state_dense.
    - assert (E : Interpolate.after_chunks regrid variables_skip cs ncf_in
                    date (S n)
                  = Interpolate.whole_range regrid variables_skip ncf_in date).
      { rewrite <- (state_niter _ _ regrid variables_skip ncf_in date cs
                      Hcs Hwf).
        f_equal. fold time time_in len.
        destruct (Nat.lt_trichotomy (S n) (Interpolate.niter_of len cs))
          as [L|[L|L]]; auto.
        - apply niter_lt in L; auto. lia.
        - assert (L' : Interpolate.niter_of len cs < S n) by lia.
          fold niter in L'. lia. }
      rewrite E. replace (Interpolate.chunk_end cs len n + 1) with len by lia.
      destruct Hwf as (_ & _ & Hrect). rewrite Forall_forall in Hrect.
      unfold Interpolate.dense, Interpolate.whole_range;
        cbn [Interpolate.out_time Interpolate.out_vars]. split; auto.
      apply Forall_forall. intros kv' Hin. apply in_map_iff in Hin.
      destruct Hin as (kv & <- & Hin). apply filter_In in Hin. cbn [snd].
      split.
      + rewrite !length_map.
        apply (length_restricted _ ncf_in date _ (snd kv)), Hrect, Hin.
      + intros H'. apply in_map_iff in H'. destruct H' as (? & ? & _).
        discriminate. }
  split; [reflexivity|].
  split.
  - intros HS. apply niter_lt in HS; auto.
    unfold Interpolate.chunk_beg. lia.
  - intros HS.
    assert (~ S n * cs < len).
    { intros H. apply (niter_lt cs len (S n) Hcs) in H. fold niter in H. lia. }
    lia.
Qed.

Lemma ERA2station_offsets_witness :
  1 <= 3
  /\ Interpolate.well_formed Interpolate.example_dataset
  /\ 1 < Interpolate.niter_of 5 3
  /\ exists s s' : Interpolate.station_file Z,
       Interpolate.for_range
         (Interpolate.chunk_step Interpolate.example_regrid
            Interpolate.example_skip 3 Interpolate.example_dataset false
            [13; 16; 19; 22; 25]%Z)
         (seq 0 1)
         (Interpolate.netCDF_empty Z Interpolate.example_skip
            Interpolate.example_dataset) = Ok s
       /\ Interpolate.dense s 3
       /\ Interpolate.chunk_step Interpolate.example_regrid
            Interpolate.example_skip 3 Interpolate.example_dataset false
            [13; 16; 19; 22; 25]%Z s 1 = Ok s'
       /\ Interpolate.extends s s' 2
       /\ Interpolate.dense s' 5.
Proof.
  split; [lia|]. split; [exact example_dataset_well_formed|].
  split; [vm_compute; lia|].
  destruct (ERA2station_offsets Z Z Interpolate.example_regrid
              Interpolate.example_skip Interpolate.example_dataset
              (Some (13, 26)%Z) 3 1 ltac:(lia) example_dataset_well_formed
              ltac:(vm_compute; lia))
    as (s & s' & H1 & H2 & H3 & H4 & H5 & _).
  exists s, s'. exact (conj H1 (conj H2 (conj H3 (conj H4 H5)))).
Defined.

(** C5.  The test of the requested variables never fails: the condition
    [set(variables) < set(varlist) == 0] is false for every pair of lists.
    On the example dataset, which holds [t2m] and [d2m], a call of
    [ERAinterp2D] that requests [v10] ends in the [KeyError] of the first
    read of the missing variable, not in the error of the test; and
    [ERA2station], which passes [variables=None] on, returns the series of
    all variables of the file without any error, the request for [v10]
    ignored. *)
Theorem ERA2station_variable_request_unchecked :
  (forall variables varlist : list string,
     set_lt variables varlist && set_eq_int varlist 0 = false)
  /\ Interpolate.ERAinterp2D Interpolate.example_regrid
       Interpolate.example_dataset
       [true; true; true; false; false; false; false] (Some ["v10"])
     = Raise (KeyError "v10")
  /\ Interpolate.ERA2station Interpolate.example_regrid
       Interpolate.example_skip 3 Interpolate.example_dataset
       (Some ["v10"]) None
     = Ok {| Interpolate.out_time := [10; 13; 16; 19; 22; 25; 28]%Z;
             Interpolate.out_vars :=
               [("t2m", map Some [2; 4; 6; 8; 10; 12; 14]%Z);
                ("d2m", map Some [22; 24; 26; 28; 30; 32; 34]%Z)] |}.
Proof.
  split; [|split].
  - intros variables varlist. unfold set_eq_int. apply andb_false_r.
  - reflexivity.
  - reflexivity.
Qed.


(** * levels2elevation: the vectorised code, time step by time step *)

Section ZipFacts.

Context {A B C D : Type}.

Lemma zip_with_same_map (f : B -> C -> D) (g : A -> B) (g' : A -> C)
    (l : list A) :
  Levels.zip_with f (map g l) (map g' l) = map (fun x => f (g x) (g' x)) l.
Proof. induction l as [|a l IH]; simpl; congruence. Qed.

Lemma map_fst_combine_seq (l : list A) (n : nat) :
  map fst (combine (seq n (length l)) l) = seq n (length l).
Proof.
  revert n; induction l as [|a l IH]; intros n; simpl; auto.
  now rewrite IH.
Qed.

Lemma map_snd_combine_seq (l : list A) (n : nat) :
  map snd (combine (seq n (length l)) l) = l.
Proof.
  revert n; induction l as [|a l IH]; intros n; simpl; auto.
  now rewrite IH.
Qed.

Lemma In_combine_seq (l : list A) (n t : nat) (a : A) :
  In (t, a) (combine (seq n (length l)) l) ->
  n <= t /\ nth_error l (t - n) = Some a.
Proof.
  revert n; induction l as [|x l IH]; intros n; simpl; [tauto|].
  intros [E|H].
  - injection E as <- <-. rewrite Nat.sub_diag. split; auto.
  - apply IH in H. destruct H as [H1 H2]. split; [lia|].
    replace (t - n) with (S (t - S n)) by lia. exact H2.
Qed.

Lemma nth_error_combine_seq (l : list A) (t : nat) (a : A) :
  nth_error l t = Some a ->
  nth_error (combine (seq 0 (length l)) l) t = Some (t, a).
Proof.
  intros H.
  assert (G : forall n, nth_error (combine (seq n (length l)) l) t
                        = Some (n + t, a)); [|apply (G 0)].
  revert t H; induction l as [|x l IH]; intros [|t] H n; simpl in *;
    try discriminate.
  - injection H as <-. now rewrite Nat.add_0_r.
  - rewrite (IH t H (S n)). do 2 f_equal. lia.
Qed.

End ZipFacts.

Section ArgminFacts.

Local Open Scope Q_scope.

Lemma argmin_val_bound (row : list Q) (i : nat) (m : Q) :
  Levels.argmin_val row = Some (i, m) ->
  (i < length row)%nat /\ nth i row 0 = m.
Proof.
  revert i m; induction row as [|x r IH]; simpl; intros i m H;
    [discriminate|].
  destruct (Levels.argmin_val r) as [[j mj]|].
  - destruct (IH j mj eq_refl) as [Hj Hm].
    destruct (Qle_bool x mj); injection H as <- <-; simpl; split;
      auto; lia.
  - injection H as <- <-. simpl. split; auto; lia.
Qed.

Lemma argmin_val_nonempty (row : list Q) :
  row <> [] -> exists i m, Levels.argmin_val row = Some (i, m).
Proof.
  destruct row as [|x r]; [congruence|]. intros _. simpl.
  destruct (Levels.argmin_val r) as [[j mj]|]; [|eauto].
  destruct (Qle_bool x mj); eauto.
Qed.

(** [np.argmin] finds the first position of the least entry. *)
Lemma argmin_val_first_min (row : list Q) (k : nat) :
  (k < length row)%nat ->
  (forall j, (j < k)%nat -> nth k row 0 < nth j row 0) ->
  (forall j, (k < j < length row)%nat -> nth k row 0 <= nth j row 0) ->
  Levels.argmin_val row = Some (k, nth k row 0).
Proof.
  revert k; induction row as [|x r IH]; intros k Hk Hlt Hle;
    simpl in Hk; [lia|].
  destruct k as [|k]; simpl.
  - destruct (Levels.argmin_val r) as [[j mj]|] eqn:E; auto.
    destruct (argmin_val_bound _ _ _ E) as [Hj Hm].
    specialize (Hle (S j) ltac:(simpl; lia)). simpl in Hle.
    rewrite Hm in Hle. apply Qle_bool_iff in Hle. now rewrite Hle.
  - rewrite (IH k).
    + specialize (Hlt O ltac:(lia)). simpl in Hlt.
      destruct (Qle_bool x (nth k r 0)) eqn:E; auto.
      apply Qle_bool_iff in E. lra.
    + lia.
    + intros j Hj. apply (Hlt (S j)). lia.
    + intros j Hj. apply (Hle (S j)). simpl. lia.
Qed.

End ArgminFacts.

Section LevelsRows.

Local Open Scope Q_scope.

Lemma mapM_map (A B C : Type) (f : B -> result C) (g : A -> B) (l : list A) :
  mapM f (map g l) = mapM (fun x => f (g x)) l.
Proof. induction l as [|a l IH]; simpl; [|rewrite IH]; reflexivity. Qed.

Lemma take_ok (flat : list Q) (idx : list nat) :
  (forall i, In i idx -> (i < length flat)%nat) ->
  Levels.take flat idx = Ok (map (fun i => nth i flat 0) idx).
Proof.
  intros H. unfold Levels.take. apply mapM_ok_map.
  intros i Hi. apply getitem_nth. now apply H.
Qed.

Lemma length_concat_rect (nl : nat) (rows : list (list Q)) :
  Levels.rectangular nl rows -> length (concat rows) = (length rows * nl)%nat.
Proof.
  induction 1 as [|r rows Hr _ IH]; simpl; auto.
  rewrite length_app, IH, Hr. reflexivity.
Qed.

Lemma concat_nth_rect (nl : nat) (rows : list (list Q)) (t j : nat)
    (row : list Q) :
  Levels.rectangular nl rows -> nth_error rows t = Some row -> (j < nl)%nat ->
  nth (j + t * nl) (concat rows) 0 = nth j row 0.
Proof.
  intros H. revert t. induction H as [|r rows Hr _ IH]; intros t Ht Hj.
  - destruct t; discriminate.
  - destruct t as [|t]; simpl in Ht |- *.
    + injection Ht as ->. rewrite Nat.add_0_r. apply app_nth1. lia.
    + rewrite app_nth2 by lia.
      replace (j + (nl + t * nl) - length r)%nat with (j + t * nl)%nat by lia.
      now apply IH.
Qed.

Lemma above_level_lt (drow : list Q) :
  drow <> [] -> (Levels.above_level drow < length drow)%nat.
Proof.
  intros H. unfold Levels.above_level.
  destruct (argmin_val_nonempty (map Levels.level_key drow)) as (i & m & E).
  - destruct drow; [congruence | discriminate].
  - rewrite E. apply argmin_val_bound in E. rewrite length_map in E. tauto.
Qed.

Lemma below_level_lt (nl : nat) (drow : list Q) :
  length drow = nl -> (0 < nl)%nat ->
  (Levels.below_level nl drow < nl)%nat.
Proof.
  intros Hl Hnl. unfold Levels.below_level.
  assert (Levels.above_level drow < length drow)%nat
    by (apply above_level_lt; destruct drow; simpl in *; [lia|congruence]).
  destruct (Nat.ltb_spec (Levels.above_level drow) (nl - 1)); simpl; lia.
Qed.

Variables (nl : nat) (h : Q) (zn : list (list Q)).
Hypothesis Hnl : (0 < nl)%nat.
Hypothesis Hzn : Levels.rectangular nl zn.

Local Abbreviation I := (combine (seq 0 (length zn)) zn).
Local Abbreviation drow tr := (Levels.dele_row h (snd tr)).

Lemma I_row (tr : nat * list Q) :
  In tr I ->
  nth_error zn (fst tr) = Some (snd tr) /\ length (drow tr) = nl
  /\ (fst tr < length zn)%nat.
Proof.
  destruct tr as [t row]. intros H. apply In_combine_seq in H.
  destruct H as [_ H]. rewrite Nat.sub_0_r in H. simpl. split; auto.
  split.
  - unfold Levels.dele_row, Levels.ele_row. rewrite !length_map.
    unfold Levels.rectangular in Hzn. rewrite Forall_forall in Hzn.
    apply Hzn. eapply nth_error_In; eauto.
  - apply nth_error_Some. congruence.
Qed.

Lemma dele_rows :
  map (map (fun e => e - h)) (map (map (fun g => g / Levels.gravity)) zn)
  = map (fun tr => drow tr) I.
Proof.
  rewrite map_map. rewrite <- (map_snd_combine_seq zn 0) at 1.
  rewrite map_map. reflexivity.
Qed.

Lemma dele_rectangular :
  Levels.rectangular nl (map (fun tr => drow tr) I).
Proof.
  unfold Levels.rectangular. apply Forall_forall. intros r Hr.
  apply in_map_iff in Hr. destruct Hr as (tr & <- & Hin).
  now destruct (I_row tr Hin) as (_ & Hl & _).
Qed.

Lemma station_brackets_rows :
  Levels.station_brackets nl h zn
  = Ok {| Levels.va :=
            map (fun tr => Levels.above_level (drow tr) + fst tr * nl)%nat I;
          Levels.vb :=
            map (fun tr => Levels.below_level nl (drow tr) + fst tr * nl)%nat I;
          Levels.wa := map (fun tr => Levels.weight_above nl h (snd tr)) I;
          Levels.wb := map (fun tr => Levels.weight_below nl h (snd tr)) I |}.
Proof.
  unfold Levels.station_brackets. cbv zeta.
  set (II := combine (seq 0 (length zn)) zn).
  rewrite dele_rows. fold II.
  rewrite !length_map.
  replace (seq 0 (length zn)) with (map fst II)
    by apply map_fst_combine_seq.
  rewrite mapM_map.
  rewrite (mapM_ok_map _ (fun tr => Levels.above_level (drow tr))).
  2:{ intros tr Hin. destruct (I_row tr Hin) as (_ & Hl & _).
      unfold Levels.argmin, Levels.above_level.
      change (map (fun d : Q => d + Levels.bool_to_Q (Levels.Qlt_bool d 0)
                                   * 100000) (drow tr))
        with (map Levels.level_key (drow tr)).
      destruct (argmin_val_nonempty (map Levels.level_key (drow tr)))
        as (i & m & E).
      - destruct (drow tr); simpl in *; [lia|discriminate].
      - now rewrite E. }
  cbn [bind].
  rewrite (map_map fst), !zip_with_same_map.
  rewrite (map_map _ (fun v => Nat.ltb v (nl - 1))), zip_with_same_map.
  pose proof (dele_rectangular) as Hrect. fold II in Hrect.
  pose proof (length_concat_rect nl _ Hrect) as Hlen.
  rewrite length_map in Hlen.
  rewrite !take_ok.
  2:{ intros i Hi. apply in_map_iff in Hi. destruct Hi as (tr & <- & Hin).
      destruct (I_row tr Hin) as (_ & Hl & Ht). rewrite Hlen.
      pose proof (above_level_lt (drow tr)
                    ltac:(destruct (drow tr); simpl in *; [lia|congruence])).
      unfold II in *. rewrite length_combine, length_seq, Nat.min_id. nia. }
  2:{ intros i Hi. apply in_map_iff in Hi. destruct Hi as (tr & <- & Hin).
      destruct (I_row tr Hin) as (_ & Hl & Ht). rewrite Hlen.
      pose proof (below_level_lt nl (drow tr) Hl Hnl) as Hb.
      unfold Levels.below_level in Hb.
      unfold II in *. rewrite length_combine, length_seq, Nat.min_id. nia. }
  cbn [bind]. rewrite !map_map, !zip_with_same_map.
  assert (Hva : forall tr, In tr II ->
            nth (Levels.above_level (drow tr) + fst tr * nl)
              (concat (map (fun tr => drow tr) II)) 0
            = nth (Levels.above_level (drow tr)) (drow tr) 0).
  { intros tr Hin. destruct (I_row tr Hin) as (Hn & Hl & _).
    apply concat_nth_rect with (nl := nl); auto.
    - apply nth_error_combine_seq in Hn. fold II in Hn.
      rewrite (map_nth_error _ _ _ Hn). reflexivity.
    - rewrite <- Hl. apply above_level_lt.
      destruct (drow tr); simpl in *; [lia|congruence]. }
  assert (Hvb : forall tr, In tr II ->
            nth (Levels.above_level (drow tr) + fst tr * nl
                 + Levels.bool_to_nat
                     (Nat.ltb (Levels.above_level (drow tr)) (nl - 1)))
              (concat (map (fun tr => drow tr) II)) 0
            = nth (Levels.below_level nl (drow tr)) (drow tr) 0).
  { intros tr Hin. destruct (I_row tr Hin) as (Hn & Hl & _).
    replace (Levels.above_level (drow tr) + fst tr * nl
             + Levels.bool_to_nat
                 (Nat.ltb (Levels.above_level (drow tr)) (nl - 1)))%nat
      with (Levels.below_level nl (drow tr) + fst tr * nl)%nat
      by (unfold Levels.below_level; lia).
    apply concat_nth_rect with (nl := nl); auto.
    - apply nth_error_combine_seq in Hn. fold II in Hn.
      rewrite (map_nth_error _ _ _ Hn). reflexivity.
    - now apply below_level_lt. }
  f_equal. f_equal.
  - apply map_ext. intros tr. unfold Levels.below_level. lia.
  - apply map_ext_in. intros tr Hin.
    rewrite (Hva tr Hin), (Hvb tr Hin). reflexivity.
  - apply map_ext_in. intros tr Hin.
    rewrite (Hva tr Hin), (Hvb tr Hin). reflexivity.
Qed.

Lemma station_rows_nth (T : Type) (F : nat * list Q -> T) (t : nat) :
  (t < length zn)%nat ->
  nth_error (map F I) t = Some (F (t, nth t zn [])).
Proof.
  intros Ht. apply map_nth_error, nth_error_combine_seq.
  now apply nth_error_nth'.
Qed.

Variable data : list (list Q).
Hypothesis Hdata : Levels.rectangular nl data.
Hypothesis Hlen : length data = length zn.

(** [levels2elevation_station] computes [interp_row] at every time
    step. *)
Lemma levels2elevation_station_rows :
  Levels.levels2elevation_station nl h zn data
  = Ok (map (fun tr => Levels.interp_row nl h (snd tr) (nth (fst tr) data []))
          I).
Proof.
  unfold Levels.levels2elevation_station.
  rewrite station_brackets_rows. cbn [bind].
  unfold Levels.interpolate. cbn [Levels.va Levels.vb Levels.wa Levels.wb].
  set (II := combine (seq 0 (length zn)) zn).
  pose proof (length_concat_rect nl _ Hdata) as HL.
  rewrite !take_ok.
  2:{ intros i Hi. apply in_map_iff in Hi. destruct Hi as (tr & <- & Hin).
      destruct (I_row tr Hin) as (_ & Hl & Ht). rewrite HL, Hlen.
      pose proof (below_level_lt nl (drow tr) Hl Hnl). nia. }
  2:{ intros i Hi. apply in_map_iff in Hi. destruct Hi as (tr & <- & Hin).
      destruct (I_row tr Hin) as (_ & Hl & Ht). rewrite HL, Hlen.
      pose proof (above_level_lt (drow tr)
                    ltac:(destruct (drow tr); simpl in *; [lia|congruence])).
      nia. }
  cbn [bind]. rewrite !map_map, !zip_with_same_map. f_equal.
  apply map_ext_in. intros tr Hin.
  destruct (I_row tr Hin) as (_ & Hl & Ht).
  assert (Hx : nth_error data (fst tr) = Some (nth (fst tr) data []))
    by (apply nth_error_nth'; lia).
  unfold Levels.interp_row.
  rewrite !(concat_nth_rect nl data (fst tr) _ _ Hdata Hx); auto.
  - now apply below_level_lt.
  - rewrite <- Hl. apply above_level_lt.
    destruct (drow tr); simpl in *; [lia|congruence].
Qed.

End LevelsRows.

(** In [levels2elevation] the indices and weights of a station are
    computed once and used for every variable: each series written is the
    one of [levels2elevation_station]. *)
Lemma levels2elevation_station_loop (nl : nat) (h : Q)
    (zn : list (list Q)) (br : Levels.brackets)
    (read : string -> result (list (list Q))) (varlist : list string) :
  Levels.station_brackets nl h zn = Ok br ->
  mapM (fun var =>
          data <- read var ;;
          ipol <- Levels.interpolate br data ;; Ok (var, ipol)) varlist
  = mapM (fun var =>
            data <- read var ;;
            ipol <- Levels.levels2elevation_station nl h zn data ;;
            Ok (var, ipol)) varlist.
Proof.
  intros H. induction varlist as [|var r IH]; simpl; auto.
  rewrite IH. unfold Levels.levels2elevation_station. rewrite H.
  reflexivity.
Qed.

Section RowFacts.

Local Open Scope Q_scope.

Lemma nth_map_lt (A B : Type) (f : A -> B) (l : list A) (j : nat) (d : A)
    (d' : B) :
  (j < length l)%nat -> nth j (map f l) d' = f (nth j l d).
Proof.
  intros H. rewrite (nth_indep _ d' (f d)) by (now rewrite length_map).
  apply map_nth.
Qed.

Lemma decreasing_nth (l : list Q) (i j : nat) :
  Levels.decreasing l -> (i < j < length l)%nat -> nth j l 0 < nth i l 0.
Proof.
  intros H. revert i j. induction H as [|x l H IH Hx]; intros i j Hij.
  - simpl in Hij. lia.
  - destruct j as [|j]; [lia|]. simpl in Hij.
    destruct i as [|i]; simpl.
    + rewrite Forall_forall in Hx. apply Hx, nth_In. lia.
    + apply IH. lia.
Qed.

Lemma level_key_nonneg (d : Q) : 0 <= d -> Levels.level_key d == d.
Proof.
  intros H. unfold Levels.level_key, Levels.Qlt_bool.
  apply Qle_bool_iff in H. rewrite H. simpl. lra.
Qed.

Lemma level_key_neg (d : Q) : d < 0 -> Levels.level_key d == d + 100000.
Proof.
  intros H. unfold Levels.level_key, Levels.Qlt_bool.
  destruct (Qle_bool 0 d) eqn:E.
  - apply Qle_bool_iff in E. lra.
  - simpl. lra.
Qed.

Lemma key_nth (h : Q) (zrow : list Q) (j : nat) :
  (j < length zrow)%nat ->
  nth j (map Levels.level_key (Levels.dele_row h zrow)) 0
  = Levels.level_key (nth j (Levels.ele_row zrow) 0 - h).
Proof.
  intros H. unfold Levels.dele_row.
  rewrite (nth_map_lt _ _ Levels.level_key _ _ 0)
    by (unfold Levels.ele_row; now rewrite !length_map).
  rewrite (nth_map_lt _ _ (fun e => e - h) _ _ 0)
    by (unfold Levels.ele_row; now rewrite !length_map).
  reflexivity.
Qed.

Lemma dele_nth (h : Q) (zrow : list Q) (j : nat) :
  (j < length zrow)%nat ->
  nth j (Levels.dele_row h zrow) 0 = nth j (Levels.ele_row zrow) 0 - h.
Proof.
  intros H. unfold Levels.dele_row.
  now rewrite (nth_map_lt _ _ (fun e => e - h) _ _ 0)
    by (unfold Levels.ele_row; now rewrite !length_map).
Qed.

(** A station strictly between the levels [k] and [k + 1]: the level
    above is [k]. *)
Lemma above_level_between (h : Q) (zrow : list Q) (k : nat) :
  Levels.decreasing (Levels.ele_row zrow) ->
  (S k < length zrow)%nat ->
  nth (S k) (Levels.ele_row zrow) 0 < h < nth k (Levels.ele_row zrow) 0 ->
  Forall (fun e => nth k (Levels.ele_row zrow) 0 - e <= 100000)
    (Levels.ele_row zrow) ->
  Levels.above_level (Levels.dele_row h zrow) = k.
Proof.
  intros Hdec Hk [Hlo Hhi] Hspan.
  assert (Hlen : length (Levels.ele_row zrow) = length zrow)
    by (unfold Levels.ele_row; now rewrite length_map).
  unfold Levels.above_level.
  rewrite (argmin_val_first_min _ k); auto.
  - unfold Levels.dele_row, Levels.ele_row. rewrite !length_map. lia.
  - intros j Hj. rewrite !key_nth by lia.
    pose proof (decreasing_nth _ j k Hdec ltac:(lia)).
    rewrite !level_key_nonneg by lra. lra.
  - intros j Hj. unfold Levels.dele_row, Levels.ele_row in Hj.
    rewrite !length_map in Hj. rewrite !key_nth by lia.
    assert (Hj' : nth j (Levels.ele_row zrow) 0 < h).
    { destruct (Nat.eq_dec j (S k)) as [->|Hne]; auto.
      pose proof (decreasing_nth _ (S k) j Hdec ltac:(lia)). lra. }
    rewrite Forall_forall in Hspan.
    specialize (Hspan (nth j (Levels.ele_row zrow) 0)
                  ltac:(apply nth_In; lia)).
    rewrite level_key_nonneg by lra. rewrite level_key_neg by lra. lra.
Qed.

(** A station below every level, the last level being the lowest: the
    level above is the last one. *)
Lemma above_level_lowest (h : Q) (zrow : list Q) :
  (0 < length zrow)%nat ->
  Forall (fun e => h < e) (Levels.ele_row zrow) ->
  (forall j, (j < length zrow - 1)%nat ->
     nth (length zrow - 1) (Levels.ele_row zrow) 0
     < nth j (Levels.ele_row zrow) 0) ->
  Levels.above_level (Levels.dele_row h zrow) = (length zrow - 1)%nat.
Proof.
  intros Hnl Hall Hlast.
  assert (Hlen : length (Levels.ele_row zrow) = length zrow)
    by (unfold Levels.ele_row; now rewrite length_map).
  rewrite Forall_forall in Hall.
  assert (Hpos : forall j, (j < length zrow)%nat ->
                           h < nth j (Levels.ele_row zrow) 0)
    by (intros j Hj; apply Hall, nth_In; lia).
  unfold Levels.above_level.
  rewrite (argmin_val_first_min _ (length zrow - 1)); auto.
  - unfold Levels.dele_row, Levels.ele_row. rewrite !length_map. lia.
  - intros j Hj. rewrite !key_nth by lia.
    pose proof (Hpos j ltac:(lia)).
    pose proof (Hpos (length zrow - 1)%nat ltac:(lia)).
    rewrite !level_key_nonneg by lra. specialize (Hlast j Hj). lra.
  - intros j Hj. unfold Levels.dele_row, Levels.ele_row in Hj.
    rewrite !length_map in Hj. lia.
Qed.

Lemma np_div_pos (a b : Q) : 0 < b -> Levels.np_div a b = Some (a / b).
Proof.
  intros H. unfold Levels.np_div. destruct (Qeq_bool b 0) eqn:E; auto.
  apply Qeq_bool_iff in E. lra.
Qed.

Lemma convex_weights (a b : Q) :
  0 <= a -> 0 <= b -> 0 < a + b ->
  a / (a + b) + b / (a + b) == 1
  /\ 0 <= a / (a + b) /\ 0 <= b / (a + b).
Proof.
  intros Ha Hb Hab. split; [field; lra|].
  split; apply Qle_shift_div_l; lra.
Qed.

Lemma convex_between (x y wa wb : Q) :
  0 <= wa -> 0 <= wb -> wa + wb == 1 ->
  (x <= x * wa + y * wb <= y) \/ (y <= x * wa + y * wb <= x).
Proof.
  intros Ha Hb Hs.
  assert (E1 : x * wa + y * wb == x + wb * (y - x)) by nra.
  assert (E2 : x * wa + y * wb == y - wa * (y - x)) by nra.
  destruct (Qlt_le_dec x y) as [H|H]; [left|right]; split; nra.
Qed.

End RowFacts.

Section LevelsClaims.

Local Open Scope Q_scope.

(** C2.  For a station whose elevation lies strictly between the heights
    of the adjacent levels [k] and [k + 1] at time step [t] (heights
    decreasing along the level axis and no level more than 100000 m below
    level [k], the offset the source adds to levels below the station),
    [levels2elevation] takes level [k] as the level above and level [k + 1]
    as the level below at that time step, with the weights
    [|dh_below| / (|dh_above| + |dh_below|)] and
    [|dh_above| / (|dh_above| + |dh_below|)] computed from the heights of
    that time step alone; the weights sum to 1 and the value written is the
    weighted sum of the two levels' values and lies between them. *)
Theorem levels2elevation_between_levels :
  forall (nl : nat) (h : Q) (zn data : list (list Q)) (t k : nat),
  Levels.rectangular nl zn ->
  Levels.rectangular nl data ->
  length data = length zn ->
  (t < length zn)%nat ->
  let ele := Levels.ele_row (nth t zn []) in
  let x := nth t data [] in
  Levels.decreasing ele ->
  (S k < nl)%nat ->
  (nth (S k) ele 0 < h < nth k ele 0) ->
  Forall (fun e => nth k ele 0 - e <= 100000) ele ->
  let dh_above := (nth k ele 0 - h) in
  let dh_below := (nth (S k) ele 0 - h) in
  exists (br : Levels.brackets) (out : list (option Q))
         (w_above w_below v : Q),
    Levels.station_brackets nl h zn = Ok br
    /\ nth_error (Levels.va br) t = Some (k + t * nl)%nat
    /\ nth_error (Levels.vb br) t = Some (S k + t * nl)%nat
    /\ nth_error (Levels.wa br) t = Some (Some w_above)
    /\ nth_error (Levels.wb br) t = Some (Some w_below)
    /\ Levels.levels2elevation_station nl h zn data = Ok out
    /\ nth_error out t = Some (Some v)
    /\ (w_above == Qabs dh_below / (Qabs dh_above + Qabs dh_below))
    /\ (w_below == Qabs dh_above / (Qabs dh_above + Qabs dh_below))
    /\ (w_above + w_below == 1)
    /\ (v == nth k x 0 * w_above + nth (S k) x 0 * w_below)
    /\ ((nth k x 0 <= v <= nth (S k) x 0)
        \/ (nth (S k) x 0 <= v <= nth k x 0)).
Proof.
  intros nl h zn data t k Hzn Hdata Hlen Ht ele x Hdec Hk Hh Hspan
    dh_above dh_below.
  assert (Hnl : (0 < nl)%nat) by lia.
  assert (Hrow : length (nth t zn []) = nl).
  { unfold Levels.rectangular in Hzn. rewrite Forall_forall in Hzn.
    apply Hzn, nth_In, Ht. }
  assert (Ha : Levels.above_level (Levels.dele_row h (nth t zn [])) = k)
    by (apply above_level_between; auto; lia).
  assert (Hb : Levels.below_level nl (Levels.dele_row h (nth t zn [])) = S k).
  { unfold Levels.below_level. rewrite Ha.
    destruct (Nat.ltb_spec k (nl - 1)); simpl; lia. }
  set (a := Qabs (nth (S k) (Levels.dele_row h (nth t zn [])) 0)).
  set (b := Qabs (nth k (Levels.dele_row h (nth t zn [])) 0)).
  assert (Ea : (a == Qabs dh_below))
    by (unfold a; rewrite dele_nth by lia; reflexivity).
  assert (Eb : (b == Qabs dh_above))
    by (unfold b; rewrite dele_nth by lia; reflexivity).
  assert (Ea' : (Qabs dh_below == - dh_below))
    by (apply Qabs_neg; unfold dh_below; fold ele; lra).
  assert (Eb' : (Qabs dh_above == dh_above))
    by (apply Qabs_pos; unfold dh_above; fold ele; lra).
  assert (Hpa : (0 < a)) by (unfold dh_below in *; fold ele in Ea'; lra).
  assert (Hpb : (0 < b)) by (unfold dh_above in *; fold ele in Eb'; lra).
  assert (Hwa : Levels.weight_above nl h (nth t zn []) = Some (a / (a + b))).
  { unfold Levels.weight_above. cbv zeta. rewrite Ha, Hb.
    apply np_div_pos. fold a b. lra. }
  assert (Hwb : Levels.weight_below nl h (nth t zn []) = Some (b / (a + b))).
  { unfold Levels.weight_below. cbv zeta. rewrite Ha, Hb.
    apply np_div_pos. fold a b. lra. }
  destruct (convex_weights a b) as (Hsum & Hna & Hnb); try lra.
  eexists _, _, (a / (a + b)), (b / (a + b)),
    (nth k x 0 * (a / (a + b)) + nth (S k) x 0 * (b / (a + b))).
  split; [apply station_brackets_rows; assumption|].
  cbn [Levels.va Levels.vb Levels.wa Levels.wb].
  split; [rewrite station_rows_nth by assumption; cbn [fst snd];
          now rewrite Ha|].
  split; [rewrite station_rows_nth by assumption; cbn [fst snd];
          now rewrite Hb|].
  split; [rewrite station_rows_nth by assumption; cbn [fst snd];
          now rewrite Hwa|].
  split; [rewrite station_rows_nth by assumption; cbn [fst snd];
          now rewrite Hwb|].
  split; [apply levels2elevation_station_rows; assumption|].
  split.
  { rewrite station_rows_nth by assumption. cbn [fst snd].
    unfold Levels.interp_row. cbv zeta. rewrite Ha, Hb, Hwa, Hwb.
    reflexivity. }
  split; [now rewrite Ea, Eb, (Qplus_comm (Qabs dh_above))|].
  split; [now rewrite Ea, Eb, (Qplus_comm (Qabs dh_above))|].
  split; [exact Hsum|].
  split; [reflexivity|].
  apply convex_between; assumption.
Qed.

Lemma example_zn_rectangular : Levels.rectangular 3 Levels.example_zn.
Proof. repeat constructor. Defined.

Lemma example_t_rectangular : Levels.rectangular 3 Levels.example_t.
Proof. repeat constructor. Defined.

Lemma levels2elevation_between_levels_witness :
  Levels.rectangular 3 Levels.example_zn
  /\ Levels.rectangular 3 Levels.example_t
  /\ length Levels.example_t = length Levels.example_zn
  /\ (1 < length Levels.example_zn)%nat
  /\ Levels.decreasing (Levels.ele_row (nth 1 Levels.example_zn []))
  /\ (2 < 3)%nat
  /\ nth 2 (Levels.ele_row (nth 1 Levels.example_zn [])) 0 < 150
     < nth 1 (Levels.ele_row (nth 1 Levels.example_zn [])) 0
  /\ Forall
       (fun e => nth 1 (Levels.ele_row (nth 1 Levels.example_zn [])) 0 - e
                 <= 100000)
       (Levels.ele_row (nth 1 Levels.example_zn []))
  /\ exists (out : list (option Q)) (v : Q),
       Levels.levels2elevation_station 3 150 Levels.example_zn
         Levels.example_t = Ok out
       /\ nth_error out 1 = Some (Some v)
       /\ (276 <= v <= 281 \/ 281 <= v <= 276).
Proof.
  assert (Hdec : Levels.decreasing
                   (Levels.ele_row (nth 1 Levels.example_zn []))).
  { repeat constructor; reflexivity. }
  assert (Hh : nth 2 (Levels.ele_row (nth 1 Levels.example_zn [])) 0 < 150
               < nth 1 (Levels.ele_row (nth 1 Levels.example_zn [])) 0).
  { split; reflexivity. }
  assert (Hspan : Forall
            (fun e => nth 1 (Levels.ele_row (nth 1 Levels.example_zn [])) 0
                      - e <= 100000)
            (Levels.ele_row (nth 1 Levels.example_zn []))).
  { repeat constructor; discriminate. }
  repeat (split; [first [ exact example_zn_rectangular
                        | exact example_t_rectangular
                        | reflexivity | assumption
                        | simpl; lia ] |]).
  destruct (levels2elevation_between_levels 3 150 Levels.example_zn
              Levels.example_t 1 1 example_zn_rectangular
              example_t_rectangular eq_refl ltac:(simpl; lia) Hdec
              ltac:(lia) Hh Hspan)
    as (br & out & wa & wb & v & _ & _ & _ & _ & _ & H1 & H2 & _ & _ & _ & _
        & H3).
  exists out, v. exact (conj H1 (conj H2 H3)).
Defined.

(** C3.  At a time step at which every level is above the station (no
    level height is at or below the station elevation), the last level of
    the axis being the lowest one, [levels2elevation] writes for every
    variable the value of that lowest level: nothing is extrapolated. *)
Theorem levels2elevation_below_lowest :
  forall (nl : nat) (h : Q) (zn data : list (list Q)) (t : nat),
  Levels.rectangular nl zn ->
  Levels.rectangular nl data ->
  length data = length zn ->
  (t < length zn)%nat ->
  (0 < nl)%nat ->
  let ele := Levels.ele_row (nth t zn []) in
  let x := nth t data [] in
  Forall (fun e => h < e) ele ->
  (forall j, (j < nl - 1)%nat -> nth (nl - 1) ele 0 < nth j ele 0) ->
  exists (out : list (option Q)) (v : Q),
    Levels.levels2elevation_station nl h zn data = Ok out
    /\ nth_error out t = Some (Some v)
    /\ v == nth (nl - 1) x 0.
Proof.
  intros nl h zn data t Hzn Hdata Hlen Ht Hnl ele x Hall Hlast.
  assert (Hrow : length (nth t zn []) = nl).
  { unfold Levels.rectangular in Hzn. rewrite Forall_forall in Hzn.
    apply Hzn, nth_In, Ht. }
  assert (Ha : Levels.above_level (Levels.dele_row h (nth t zn []))
               = (nl - 1)%nat).
  { replace (nl - 1)%nat with (length (nth t zn []) - 1)%nat by lia.
    apply above_level_lowest; rewrite ?Hrow; auto. }
  assert (Hb : Levels.below_level nl (Levels.dele_row h (nth t zn []))
               = (nl - 1)%nat).
  { unfold Levels.below_level. rewrite Ha, Nat.ltb_irrefl. simpl. lia. }
  set (a := Qabs (nth (nl - 1) (Levels.dele_row h (nth t zn [])) 0)).
  assert (Hpa : 0 < a).
  { unfold a. rewrite dele_nth by lia. fold ele.
    rewrite Forall_forall in Hall.
    pose proof (Hall (nth (nl - 1) ele 0)
                  ltac:(apply nth_In; unfold ele, Levels.ele_row;
                        rewrite length_map; lia)).
    rewrite Qabs_pos; lra. }
  assert (Hw : Levels.np_div a (a + a) = Some (a / (a + a)))
    by (apply np_div_pos; lra).
  exists (map (fun tr => Levels.interp_row nl h (snd tr)
                           (nth (fst tr) data []))
            (combine (seq 0 (length zn)) zn)),
         (nth (nl - 1) x 0 * (a / (a + a)) + nth (nl - 1) x 0 * (a / (a + a))).
  split; [apply levels2elevation_station_rows; assumption|].
  split.
  - rewrite station_rows_nth by assumption. cbn [fst snd].
    unfold Levels.interp_row, Levels.weight_above, Levels.weight_below.
    cbv zeta. rewrite Ha, Hb. fold a. rewrite Hw. reflexivity.
  - field. lra.
Qed.

Lemma levels2elevation_below_lowest_witness :
  Levels.rectangular 3 Levels.example_zn
  /\ Levels.rectangular 3 Levels.example_t
  /\ length Levels.example_t = length Levels.example_zn
  /\ (1 < length Levels.example_zn)%nat
  /\ (0 < 3)%nat
  /\ Forall (fun e => 100 < e) (Levels.ele_row (nth 1 Levels.example_zn []))
  /\ (forall j, (j < 3 - 1)%nat ->
        nth (3 - 1) (Levels.ele_row (nth 1 Levels.example_zn [])) 0
        < nth j (Levels.ele_row (nth 1 Levels.example_zn [])) 0)
  /\ exists (out : list (option Q)) (v : Q),
       Levels.levels2elevation_station 3 100 Levels.example_zn
         Levels.example_t = Ok out
       /\ nth_error out 1 = Some (Some v)
       /\ v == 281.
Proof.
  assert (Hall : Forall (fun e => 100 < e)
                   (Levels.ele_row (nth 1 Levels.example_zn []))).
  { repeat constructor; reflexivity. }
  assert (Hlast : forall j, (j < 3 - 1)%nat ->
            nth (3 - 1) (Levels.ele_row (nth 1 Levels.example_zn [])) 0
            < nth j (Levels.ele_row (nth 1 Levels.example_zn [])) 0).
  { intros [|[|j]] Hj; [reflexivity | reflexivity | simpl in Hj; lia]. }
  repeat (split; [first [ exact example_zn_rectangular
                        | exact example_t_rectangular
                        | reflexivity | assumption
                        | simpl; lia ] |]).
  exact (levels2elevation_below_lowest 3 100 Levels.example_zn
           Levels.example_t 1 example_zn_rectangular example_t_rectangular
           eq_refl ltac:(simpl; lia) ltac:(lia) Hall Hlast).
Defined.

(** At a time step at which the station is exactly at the height of the
    last level, that level being the lowest: both weights are 0 / 0 and
    the value written is not a number. *)
Lemma levels2elevation_station_at_lowest :
  forall (nl : nat) (h : Q) (zn data : list (list Q)) (t : nat),
  Levels.rectangular nl zn ->
  Levels.rectangular nl data ->
  length data = length zn ->
  (t < length zn)%nat ->
  (0 < nl)%nat ->
  let ele := Levels.ele_row (nth t zn []) in
  nth (nl - 1) ele 0 == h ->
  (forall j, (j < nl - 1)%nat -> nth (nl - 1) ele 0 < nth j ele 0) ->
  exists out : list (option Q),
    Levels.levels2elevation_station nl h zn data = Ok out
    /\ nth_error out t = Some None.
Proof.
  intros nl h zn data t Hzn Hdata Hlen Ht Hnl ele Hh Hlast.
  assert (Hrow : length (nth t zn []) = nl).
  { unfold Levels.rectangular in Hzn. rewrite Forall_forall in Hzn.
    apply Hzn, nth_In, Ht. }
  assert (Ha : Levels.above_level (Levels.dele_row h (nth t zn []))
               = (nl - 1)%nat).
  { unfold Levels.above_level.
    rewrite (argmin_val_first_min _ (nl - 1)); auto.
    - unfold Levels.dele_row, Levels.ele_row. rewrite !length_map. lia.
    - intros j Hj. rewrite !key_nth by lia. fold ele.
      specialize (Hlast j Hj).
      rewrite !level_key_nonneg by lra. lra.
    - intros j Hj. unfold Levels.dele_row, Levels.ele_row in Hj.
      rewrite !length_map in Hj. lia. }
  assert (Hb : Levels.below_level nl (Levels.dele_row h (nth t zn []))
               = (nl - 1)%nat).
  { unfold Levels.below_level. rewrite Ha, Nat.ltb_irrefl. simpl. lia. }
  set (a := Qabs (nth (nl - 1) (Levels.dele_row h (nth t zn [])) 0)).
  assert (Hw : Levels.np_div a (a + a) = None).
  { unfold Levels.np_div.
    assert (E : a + a == 0).
    { unfold a. rewrite dele_nth by lia. fold ele.
      rewrite Qabs_pos; lra. }
    apply Qeq_bool_iff in E. now rewrite E. }
  exists (map (fun tr => Levels.interp_row nl h (snd tr)
                           (nth (fst tr) data []))
            (combine (seq 0 (length zn)) zn)).
  split; [apply levels2elevation_station_rows; assumption|].
  rewrite station_rows_nth by assumption. cbn [fst snd].
  unfold Levels.interp_row, Levels.weight_above, Levels.weight_below.
  cbv zeta. rewrite Ha, Hb. fold a. rewrite Hw. reflexivity.
Qed.

(** C4.  The example file has a non-empty level axis and its second
    station is at 0 m, the height of the lowest level at the first time
    step.  There [levels2elevation] divides 0 by 0: the weights of that
    station and time step are not numbers, and neither is the value
    written for the temperature or for the air pressure; no error is
    raised. *)
Theorem levels2elevation_nan_at_lowest_level :
  (exists br : Levels.brackets,
     Levels.station_brackets 3 0 Levels.example_zn = Ok br
     /\ nth_error (Levels.wa br) 0 = Some None
     /\ nth_error (Levels.wb br) 0 = Some None)
  /\ Levels.reduced (Levels.levels2elevation Levels.example_pl_file)
     = Ok [[("t", [Some (545 # 2); Some 279]);
            ("air_pressure", [Some 875; Some 930])];
           [("t", [None; Some 281]);
            ("air_pressure", [None; Some 950])]].
Proof.
  split.
  - eexists. split; [reflexivity|]. split; reflexivity.
  - vm_compute. reflexivity.
Qed.

End LevelsClaims.


(** * ERAIscale: the output time axis *)

Section TimeAxisFacts.

Local Open Scope Q_scope.

Lemma fold_min_spec (r : list Q) (x : Q) :
  let m := fold_left (fun m y => if Qle_bool m y then m else y) r x in
  In m (x :: r) /\ forall y, In y (x :: r) -> m <= y.
Proof.
  revert x; induction r as [|a r IH]; intros x; cbn [fold_left].
  - split; [now left|]. intros y [<-|[]]. lra.
  - destruct (Qle_bool x a) eqn:E.
    + apply Qle_bool_iff in E. destruct (IH x) as [Hin Hle]. split.
      * destruct Hin as [H|H]; [now left | right; now right].
      * intros y Hy. destruct Hy as [Hy|[Hy|Hy]].
        -- apply Hle. now left.
        -- subst y. apply Qle_trans with x; auto. apply Hle. now left.
        -- apply Hle. now right.
    + assert (Hax : a <= x).
      { destruct (Qlt_le_dec a x) as [H|H]; [lra|].
        apply Qle_bool_iff in H. congruence. }
      destruct (IH a) as [Hin Hle]. split.
      * right. exact Hin.
      * intros y Hy. destruct Hy as [Hy|[Hy|Hy]].
        -- subst y. apply Qle_trans with a; auto. apply Hle. now left.
        -- apply Hle. now left.
        -- apply Hle. now right.
Qed.

Lemma fold_max_spec (r : list Q) (x : Q) :
  let m := fold_left (fun m y => if Qle_bool y m then m else y) r x in
  In m (x :: r) /\ forall y, In y (x :: r) -> y <= m.
Proof.
  revert x; induction r as [|a r IH]; intros x; cbn [fold_left].
  - split; [now left|]. intros y [<-|[]]. lra.
  - destruct (Qle_bool a x) eqn:E.
    + apply Qle_bool_iff in E. destruct (IH x) as [Hin Hle]. split.
      * destruct Hin as [H|H]; [now left | right; now right].
      * intros y Hy. destruct Hy as [Hy|[Hy|Hy]].
        -- apply Hle. now left.
        -- subst y. apply Qle_trans with x; auto. apply Hle. now left.
        -- apply Hle. now right.
    + assert (Hax : x <= a).
      { destruct (Qlt_le_dec x a) as [H|H]; [lra|].
        apply Qle_bool_iff in H. congruence. }
      destruct (IH a) as [Hin Hle]. split.
      * right. exact Hin.
      * intros y Hy. destruct Hy as [Hy|[Hy|Hy]].
        -- subst y. apply Qle_trans with a; auto. apply Hle. now left.
        -- apply Hle. now left.
        -- apply Hle. now right.
Qed.

Lemma grid_sorted (m step : Q) (a n : nat) :
  0 < step ->
  StronglySorted Qlt
    (map (fun x => m + inject_Z (Z.of_nat x) * step) (seq a n)).
Proof.
  intros Hs. revert a; induction n as [|n IH]; intros a; simpl;
    constructor; auto.
  apply Forall_forall. intros y Hy. apply in_map_iff in Hy.
  destruct Hy as (x & <- & Hx). apply in_seq in Hx.
  assert (inject_Z (Z.of_nat a) < inject_Z (Z.of_nat x))
    by (rewrite <- Zlt_Qlt; lia).
  nra.
Qed.

Lemma grid_nth (m step : Q) (n i : nat) :
  (i < n)%nat ->
  nth i (map (fun x => m + inject_Z (Z.of_nat x) * step) (seq 0 n)) 0
  = m + inject_Z (Z.of_nat i) * step.
Proof.
  intros H.
  rewrite (nth_map_lt _ _ (fun x => m + inject_Z (Z.of_nat x) * step) _ _ O)
    by (now rewrite length_seq).
  now rewrite seq_nth.
Qed.

(** C8.  For at least two input time stamps and a positive output time
    step, [__init__] builds the output time axis without error.  The axis
    is not empty, strictly increasing, evenly spaced at the configured time
    step, starts at the earliest input time stamp, stays at or before the
    latest one, and holds the last multiple of the step that does not
    exceed the latest time stamp: one more step would pass it. *)
Theorem output_time_axis_uniform :
  forall (nctime : list Z) (par_time_step : Q),
  (2 <= length nctime)%nat ->
  0 < par_time_step ->
  let time := map Scale.num2date nctime in
  exists (ax : Scale.time_axis) (tmin tmax : Q),
    Scale.init_time_axis nctime par_time_step = Ok ax
    /\ Scale.time_step ax = par_time_step * 3600
    /\ In tmin time /\ In tmax time
    /\ (forall y, In y time -> tmin <= y <= tmax)
    /\ Scale.times_out_nc ax <> []
    /\ StronglySorted Qlt (Scale.times_out_nc ax)
    /\ (forall i, (S i < length (Scale.times_out_nc ax))%nat ->
          nth (S i) (Scale.times_out_nc ax) 0 - nth i (Scale.times_out_nc ax) 0
          == Scale.time_step ax)
    /\ nth 0 (Scale.times_out_nc ax) 0 == tmin
    /\ (forall x, In x (Scale.times_out_nc ax) -> tmin <= x <= tmax)
    /\ tmax < last (Scale.times_out_nc ax) 0 + Scale.time_step ax.
Proof.
  intros nctime ts Hlen Hts time.
  destruct nctime as [|h0 [|h1 rest]]; simpl in Hlen; try lia.
  unfold Scale.init_time_axis. fold time.
  assert (Et : time = Scale.num2date h0 :: Scale.num2date h1
                        :: map Scale.num2date rest) by reflexivity.
  rewrite Et. cbn [getitem nth_error bind].
  destruct (Qeq_bool (ts * 3600) 0) eqn:E0.
  { apply Qeq_bool_iff in E0. lra. }
  cbn [Scale.py_max Scale.py_min bind].
  set (tmax := fold_left (fun m y => if Qle_bool y m then m else y)
                 (Scale.num2date h1 :: map Scale.num2date rest)
                 (Scale.num2date h0)).
  set (tmin := fold_left (fun m y => if Qle_bool m y then m else y)
                 (Scale.num2date h1 :: map Scale.num2date rest)
                 (Scale.num2date h0)).
  destruct (fold_max_spec (Scale.num2date h1 :: map Scale.num2date rest)
              (Scale.num2date h0)) as [Hmax_in Hmax].
  destruct (fold_min_spec (Scale.num2date h1 :: map Scale.num2date rest)
              (Scale.num2date h0)) as [Hmin_in Hmin].
  fold tmax in Hmax_in, Hmax. fold tmin in Hmin_in, Hmin.
  rewrite <- Et in Hmax_in, Hmax, Hmin_in, Hmin.
  assert (Hmm : tmin <= tmax) by (apply Hmin, Hmax_in).
  set (q := (tmax - tmin) / 3600 / ts).
  assert (Hq : 0 <= q).
  { unfold q. apply Qle_shift_div_l; [lra|].
    apply Qle_shift_div_l; lra. }
  assert (Hqs : q * (ts * 3600) == tmax - tmin) by (unfold q; field; lra).
  pose proof (Qfloor_le q) as Hfl. pose proof (Qlt_floor q) as Hfu.
  assert (Hf0 : (0 <= Qfloor q)%Z).
  { change 0%Z with (Qfloor 0). now apply Qfloor_resp_le. }
  set (n := Z.to_nat (Qfloor q + 1)).
  assert (Hn : n = S (Z.to_nat (Qfloor q))) by (unfold n; lia).
  set (step := ts * 3600) in *.
  assert (Hstep : 0 < step) by (unfold step; lra).
  set (out := map (fun x => tmin + inject_Z (Z.of_nat x) * step) (seq 0 n)).
  assert (Hlen_out : length out = n)
    by (unfold out; now rewrite length_map, length_seq).
  assert (Hnth : forall i, (i < n)%nat ->
            nth i out 0 = tmin + inject_Z (Z.of_nat i) * step)
    by (intros; now apply grid_nth).
  eexists _, tmin, tmax.
  split; [reflexivity|]. cbn [Scale.time_step Scale.times_out_nc].
  fold q n out.
  split; [reflexivity|].
  split; [exact Hmin_in|]. split; [exact Hmax_in|].
  split; [intros y Hy; split; [now apply Hmin | now apply Hmax]|].
  split.
  { intros H. apply (f_equal (@length Q)) in H. rewrite Hlen_out in H.
    simpl in H. lia. }
  split; [now apply grid_sorted|].
  split.
  { intros i Hi. rewrite Hlen_out in Hi. rewrite !Hnth by lia.
    replace (Z.of_nat (S i)) with (Z.of_nat i + 1)%Z by lia.
    rewrite inject_Z_plus. ring. }
  split; [rewrite Hnth by lia; simpl; ring|].
  assert (Hin : forall x, In x out -> tmin <= x <= tmax).
  { intros x Hx. unfold out in Hx. apply in_map_iff in Hx.
    destruct Hx as (i & <- & Hi). apply in_seq in Hi.
    assert (0 <= inject_Z (Z.of_nat i))
      by (change 0 with (inject_Z 0); rewrite <- Zle_Qle; lia).
    assert (inject_Z (Z.of_nat i) <= inject_Z (Qfloor q))
      by (rewrite <- Zle_Qle; lia).
    split; nra. }
  split; [exact Hin|].
  assert (Hlast : last out 0 = tmin + inject_Z (Qfloor q) * step).
  { unfold out. rewrite Hn, seq_S, map_app. cbn [map].
    rewrite last_last. cbn [Nat.add]. now rewrite Z2Nat.id by lia. }
  rewrite Hlast. rewrite inject_Z_plus in Hfu.
  change (inject_Z 1) with 1 in Hfu.
  assert (q * step < (inject_Z (Qfloor q) + 1) * step)
    by (apply Qmult_lt_compat_r; assumption).
  lra.
Qed.

Lemma output_time_axis_uniform_witness :
  (2 <= length [0; 3; 6; 10]%Z)%nat
  /\ 0 < 3 # 2
  /\ exists ax : Scale.time_axis,
       Scale.init_time_axis [0; 3; 6; 10]%Z (3 # 2) = Ok ax
       /\ StronglySorted Qlt (Scale.times_out_nc ax).
Proof.
  split; [simpl; lia|]. split; [reflexivity|].
  destruct (output_time_axis_uniform [0; 3; 6; 10]%Z (3 # 2)
              ltac:(simpl; lia) ltac:(reflexivity))
    as (ax & tmin & tmax & H1 & _ & _ & _ & _ & _ & H2 & _).
  exists ax. exact (conj H1 H2).
Defined.

End TimeAxisFacts.

(** * ERAIscale: the kernels *)

Section KernelFacts.

Local Open Scope Q_scope.

Lemma clip_bounds (lo hi q : Q) :
  lo <= hi ->
  lo <= (if Qle_bool q lo then lo else if Qle_bool hi q then hi else q) <= hi.
Proof.
  intros H. destruct (Qle_bool q lo) eqn:E1; [lra|].
  destruct (Qle_bool hi q) eqn:E2; [lra|].
  assert (~ q <= lo) by (intros C; apply Qle_bool_iff in C; congruence).
  assert (~ hi <= q) by (intros C; apply Qle_bool_iff in C; congruence).
  lra.
Qed.

Lemma RH_cell_bounds (t : Scale.cell) (dewp : Q) :
  t <> None ->
  exists q, Scale.RH_cell t dewp = Some q /\ 1 # 10 <= q <= 999 # 10.
Proof.
  destruct t as [x|]; [intros _|congruence].
  unfold Scale.RH_cell, Scale.clip. simpl. eexists. split; [reflexivity|].
  apply clip_bounds. lra.
Qed.

Lemma broadcast2_Forall (A B C : Type) (f : A -> B -> C) (P : C -> Prop)
    (a : list A) (b : list B) (r : list C) :
  Scale.broadcast2 f a b = Ok r ->
  (forall x y, In x a -> In y b -> P (f x y)) -> Forall P r.
Proof.
  revert b r; induction a as [|x a IH]; intros [|y b] r H HP;
    simpl in H; try discriminate.
  - injection H as <-. constructor.
  - destruct (Scale.broadcast2 f a b) as [r'|] eqn:E; simpl in H;
      [|discriminate].
    injection H as <-. constructor.
    + apply HP; now left.
    + apply (IH b); auto. intros; apply HP; now right.
Qed.

Lemma mapM_id_Forall (A : Type) (P : A -> Prop) (l : list (result A))
    (r : list A) :
  mapM (fun c => c) l = Ok r ->
  Forall (fun c => forall x, c = Ok x -> P x) l -> Forall P r.
Proof.
  revert r; induction l as [|c l IH]; simpl; intros r H HP.
  - injection H as <-. constructor.
  - destruct c as [x|]; simpl in H; [|discriminate].
    destruct (mapM (fun c => c) l) as [r'|]; simpl in H; [|discriminate].
    injection H as <-. inversion HP; subst. constructor; auto.
Qed.

Lemma lookup_update (A : Type) (k : string) (f : A -> result A)
    (d d' : list (string * A)) :
  Scale.update k f d = Ok d' ->
  exists a a', lookup k d = Ok a /\ f a = Ok a' /\ lookup k d' = Ok a'.
Proof.
  revert d'; induction d as [|[k' x] d IH]; simpl; intros d' H;
    [discriminate|].
  destruct (String.eqb k k') eqn:E.
  - destruct (f x) as [x'|] eqn:F; simpl in H; [|discriminate].
    injection H as <-. exists x, x'. simpl. now rewrite E.
  - destruct (Scale.update k f d) as [r|] eqn:U; simpl in H; [|discriminate].
    injection H as <-. destruct (IH r eq_refl) as (a & a' & H1 & H2 & H3).
    exists a, a'. simpl. now rewrite E.
Qed.

Lemma lookup_app_other (A : Type) (k k' : string) (v a : A)
    (d : list (string * A)) :
  String.eqb k k' = false ->
  lookup k (d ++ [(k', v)]) = Ok a -> lookup k d = Ok a.
Proof.
  intros E. induction d as [|[k0 x] d IH]; simpl.
  - now rewrite E.
  - destruct (String.eqb k k0); auto.
Qed.

(** C7.  Whenever the kernel [RH_per_sur] completes, on an air
    temperature series without missing values, every value of the relative
    humidity it has written is a number within [0.1, 99.9], whatever the
    temperatures and the dew points are. *)
Theorem RH_per_sur_within_bounds :
  forall (series_interpolate : list Q -> list Q -> list Q -> list Q)
         (e : Scale.engine) (s s' : Scale.scaled),
  Scale.run_RH_per_sur series_interpolate e s = Ok s' ->
  (forall airt, lookup "AIRT_ERAI_C_sur" (Scale.rg s) = Ok airt ->
     Forall (Forall (fun c => c <> None)) airt) ->
  exists rh,
    lookup "RH_ERAI_per_sur" (Scale.rg s') = Ok rh
    /\ Forall (Forall (fun c => exists q, c = Some q
                                         /\ 1 # 10 <= q <= 999 # 10)) rh.
Proof.
  intros si e s s' H Hfin. unfold Scale.run_RH_per_sur in H.
  destruct (lookup "d2m" _) as [values|]; simpl in H; [|discriminate].
  destruct (mapM _ (seq 0 (Scale.nstation e))) as [dewp|]; simpl in H;
    [|discriminate].
  unfold Scale.createVariable in H.
  destruct (mem "RH_ERAI_per_sur" _); simpl in H; [discriminate|].
  destruct (lookup "AIRT_ERAI_C_sur" _) as [airt|] eqn:Ha; simpl in H;
    [|discriminate].
  apply lookup_app_other in Ha; [|reflexivity].
  specialize (Hfin airt Ha).
  destruct (Scale.broadcast2 _ airt dewp) as [RH0|] eqn:Hb; simpl in H;
    [|discriminate].
  destruct (mapM (fun c => c) RH0) as [RH|] eqn:Hm; simpl in H;
    [|discriminate].
  unfold Scale.set_all in H.
  destruct (negb _); [discriminate|].
  destruct (Scale.update _ _ _) as [rg'|] eqn:Hu; simpl in H; [|discriminate].
  injection H as <-. cbn [Scale.rg].
  destruct (lookup_update _ _ _ _ _ Hu) as (a0 & a' & _ & Hf & Hl).
  injection Hf as <-. exists RH. split; [exact Hl|].
  apply (mapM_id_Forall _ _ _ _ Hm).
  apply (broadcast2_Forall _ _ _ _ _ _ _ _ Hb).
  intros col d Hcol _ x Hx.
  apply (broadcast2_Forall _ _ _ _ _ _ _ _ Hx).
  intros t dp Ht _. apply RH_cell_bounds.
  rewrite Forall_forall in Hfin. specialize (Hfin col Hcol).
  rewrite Forall_forall in Hfin. now apply Hfin.
Qed.

Lemma RH_per_sur_within_bounds_witness :
  exists s' : Scale.scaled,
    Scale.run_RH_per_sur Scale.example_series_interpolate
      Scale.example_engine Scale.example_after_AIRT = Ok s'
    /\ (forall airt,
          lookup "AIRT_ERAI_C_sur" (Scale.rg Scale.example_after_AIRT)
          = Ok airt ->
          Forall (Forall (fun c => c <> None)) airt)
    /\ exists rh,
         lookup "RH_ERAI_per_sur" (Scale.rg s') = Ok rh
         /\ Forall (Forall (fun c => exists q, c = Some q
                                              /\ 1 # 10 <= q <= 999 # 10))
              rh.
Proof.
  assert (Hfin : forall airt,
            lookup "AIRT_ERAI_C_sur" (Scale.rg Scale.example_after_AIRT)
            = Ok airt ->
            Forall (Forall (fun c => c <> None)) airt).
  { intros airt H. vm_compute in H. injection H as <-.
    repeat constructor; discriminate. }
  destruct (Scale.run_RH_per_sur Scale.example_series_interpolate
              Scale.example_engine Scale.example_after_AIRT)
    as [s'|] eqn:E; [|vm_compute in E; discriminate].
  exists s'. split; [reflexivity|]. split; [exact Hfin|].
  exact (RH_per_sur_within_bounds Scale.example_series_interpolate
           Scale.example_engine Scale.example_after_AIRT s' E Hfin).
Defined.

(** C10, as stated, fails.  The kernel list of this run names something
    that is no attribute of the instance and the placeholder kernel
    [AIRT_redcapp]: the run completes without error, no variable is
    written to the scaled file, and the only lines printed are the name of
    the placeholder kernel and its message; nothing flags either name. *)
Lemma process_placeholder_success :
  Scale.process Scale.example_series_interpolate 2 Scale.example_irrational
    Scale.example_object_attribute Scale.example_engine
    ["NOT_A_KERNEL"; "AIRT_redcapp"]
  = Ok {| Scale.rg := [];
          Scale.stdout := ["AIRT_redcapp"; "AIRT_ERAI_redcapp"] |}.
Proof. reflexivity. Qed.

Lemma getattr_kernel (object_attribute : string -> option (result unit))
    (name : string) (k : Scale.kernel) :
  Scale.kernel_of name = Some k ->
  Scale.getattr object_attribute name = Some (Scale.Kernel k).
Proof. intros H. unfold Scale.getattr. now rewrite H. Qed.

Lemma hasattr_false (object_attribute : string -> option (result unit))
    (name : string) :
  Scale.hasattr object_attribute name = false ->
  Scale.getattr object_attribute name = None.
Proof.
  unfold Scale.hasattr.
  destruct (Scale.getattr object_attribute name); [discriminate | auto].
Qed.

Lemma run_kernels_skips_unknown
    (series_interpolate : list Q -> list Q -> list Q -> list Q)
    (reset_steps : nat)
    (irrational_kernel :
       Scale.kernel -> Scale.engine -> Scale.scaled -> result Scale.scaled)
    (object_attribute : string -> option (result unit))
    (e : Scale.engine) (kernels : list string) (s : Scale.scaled) :
  Scale.run_kernels series_interpolate reset_steps irrational_kernel
    object_attribute e kernels s
  = Scale.run_kernels series_interpolate reset_steps irrational_kernel
      object_attribute e (filter (Scale.hasattr object_attribute) kernels)
      s.
Proof.
  revert s; induction kernels as [|k r IH]; intros s; simpl; auto.
  unfold Scale.hasattr.
  destruct (Scale.getattr object_attribute k) as [a|] eqn:E; simpl.
  - rewrite E.
    destruct (Scale.call series_interpolate reset_steps irrational_kernel
                a e (Scale.print k s)); simpl; auto.
  - apply IH.
Qed.

(** C10, amended.  A name that is no attribute of the instance is skipped
    without error and without message: the run is the run of the list
    without such names.  [AIRT_redcapp] prints its placeholder message and
    returns normally without creating a variable.  So a run whose kernel
    list names only [AIRT_redcapp] and names that are no attribute
    completes successfully, leaves the variables of the scaled file as they
    were, and prints, for each [AIRT_redcapp], the kernel name and the
    message.  A name is only skipped when the instance has no such
    attribute: the name of a data attribute or of another method of the
    class is printed and called, which ends the run in an exception. *)
Theorem process_unimplemented_kernels_silent :
  forall (series_interpolate : list Q -> list Q -> list Q -> list Q)
         (reset_steps : nat)
         (irrational_kernel :
            Scale.kernel -> Scale.engine -> Scale.scaled ->
            result Scale.scaled)
         (object_attribute : string -> option (result unit))
         (e : Scale.engine) (kernels : list string),
  (forall k, In k kernels ->
     Scale.hasattr object_attribute k = false
     \/ Scale.kernel_of k = Some Scale.AIRT_redcapp) ->
  (forall s,
     Scale.run_kernels series_interpolate reset_steps irrational_kernel
       object_attribute e kernels s
     = Ok {| Scale.rg := Scale.rg s;
             Scale.stdout :=
               Scale.stdout s
               ++ flat_map (fun k => [k; "AIRT_ERAI_redcapp"])
                    (filter (Scale.hasattr object_attribute) kernels) |})
  /\ Scale.process series_interpolate reset_steps irrational_kernel
       object_attribute e kernels
     = Ok {| Scale.rg := [];
             Scale.stdout :=
               flat_map (fun k => [k; "AIRT_ERAI_redcapp"])
                 (filter (Scale.hasattr object_attribute) kernels) |}
  /\ (forall all_kernels s,
        Scale.run_kernels series_interpolate reset_steps irrational_kernel
          object_attribute e all_kernels s
        = Scale.run_kernels series_interpolate reset_steps irrational_kernel
            object_attribute e
            (filter (Scale.hasattr object_attribute) all_kernels) s)
  /\ (forall name rest s,
        In name
          ("__init__" :: "process" :: "getOutNCF" :: "makeOutDir"
           :: Scale.data_attributes) ->
        Scale.hasattr object_attribute name = true
        /\ exists ex,
             Scale.run_kernels series_interpolate reset_steps
               irrational_kernel object_attribute e (name :: rest) s
             = Raise ex).
Proof.
  intros si reset irr obj e kernels Hk.
  assert (G : forall s,
            Scale.run_kernels si reset irr obj e kernels s
            = Ok {| Scale.rg := Scale.rg s;
                    Scale.stdout :=
                      Scale.stdout s
                      ++ flat_map (fun k => [k; "AIRT_ERAI_redcapp"])
                           (filter (Scale.hasattr obj) kernels) |}).
  { induction kernels as [|k r IH]; intros s.
    - simpl. rewrite app_nil_r. now destruct s.
    - cbn [Scale.run_kernels filter].
      destruct (Hk k (or_introl eq_refl)) as [E|E].
      + rewrite E, (@hasattr_false obj k E).
        apply IH. intros; apply Hk; now right.
      + unfold Scale.hasattr at 1. rewrite (@getattr_kernel obj k _ E).
        cbn [Scale.call Scale.run_kernel Scale.run_AIRT_redcapp bind].
        rewrite IH by (intros; apply Hk; now right).
        unfold Scale.print. cbn [Scale.rg Scale.stdout flat_map].
        now rewrite <- !app_assoc. }
  split; [exact G|]. split; [|split].
  - unfold Scale.process. now rewrite G.
  - intros. apply run_kernels_skips_unknown.
  - intros name rest s Hin. unfold Scale.data_attributes in Hin.
    repeat (destruct Hin as [<-|Hin];
            [split; [reflexivity | eexists; reflexivity]|]).
    contradiction.
Qed.

Lemma process_unimplemented_kernels_silent_witness :
  (forall k, In k ["NOT_A_KERNEL"; "AIRT_redcapp"] ->
     Scale.hasattr Scale.example_object_attribute k = false
     \/ Scale.kernel_of k = Some Scale.AIRT_redcapp)
  /\ Scale.process Scale.example_series_interpolate 2
       Scale.example_irrational Scale.example_object_attribute
       Scale.example_engine ["NOT_A_KERNEL"; "AIRT_redcapp"]
     = Ok {| Scale.rg := [];
             Scale.stdout :=
               flat_map (fun k => [k; "AIRT_ERAI_redcapp"])
                 (filter (Scale.hasattr Scale.example_object_attribute)
                    ["NOT_A_KERNEL"; "AIRT_redcapp"]) |}.
Proof.
  assert (H : forall k, In k ["NOT_A_KERNEL"; "AIRT_redcapp"] ->
            Scale.hasattr Scale.example_object_attribute k = false
            \/ Scale.kernel_of k = Some Scale.AIRT_redcapp).
  { intros k [<-|[<-|[]]]; [left | right]; reflexivity. }
  split; [exact H|].
  exact (proj1 (proj2 (process_unimplemented_kernels_silent
                         Scale.example_series_interpolate 2
                         Scale.example_irrational
                         Scale.example_object_attribute
                         Scale.example_engine
                         ["NOT_A_KERNEL"; "AIRT_redcapp"] H))).
Defined.

End KernelFacts.

(** * RH_per_sur completes on well-shaped input *)

Section RHCompletes.

Local Open Scope Q_scope.

Lemma broadcast2_zip (A B C : Type) (f : A -> B -> C) (a : list A)
    (b : list B) :
  length a = length b ->
  Scale.broadcast2 f a b = Ok (Levels.zip_with f a b).
Proof.
  revert b; induction a as [|x a IH]; intros [|y b] H; simpl in *;
    try discriminate; auto.
  rewrite IH by lia. reflexivity.
Qed.

Lemma length_zip_with (A B C : Type) (f : A -> B -> C) (a : list A)
    (b : list B) :
  length a = length b -> length (Levels.zip_with f a b) = length a.
Proof.
  revert b; induction a as [|x a IH]; intros [|y b] H; simpl in *;
    try discriminate; auto.
Qed.

Lemma mapM_id_zip (A B C : Type) (g : A -> B -> result C) (h : A -> B -> C)
    (a : list A) (b : list B) :
  length a = length b ->
  (forall x y, In x a -> In y b -> g x y = Ok (h x y)) ->
  mapM (fun c => c) (Levels.zip_with g a b) = Ok (Levels.zip_with h a b).
Proof.
  revert b; induction a as [|x a IH]; intros [|y b] H Hg; simpl in *;
    try discriminate; auto.
  rewrite Hg by auto. simpl. rewrite IH; auto.
Qed.

Lemma Forall_zip_with (A B C : Type) (f : A -> B -> C) (P : C -> Prop)
    (a : list A) (b : list B) :
  (forall x y, In x a -> In y b -> P (f x y)) ->
  Forall P (Levels.zip_with f a b).
Proof.
  revert b; induction a as [|x a IH]; intros [|y b] H; simpl;
    constructor.
  - apply H; now left.
  - apply IH. intros; apply H; now right.
Qed.

Lemma lookup_app_l (A : Type) (k : string) (a : A)
    (d d' : list (string * A)) :
  lookup k d = Ok a -> lookup k (d ++ d') = Ok a.
Proof.
  induction d as [|[k0 x] d IH]; simpl; [discriminate|].
  destruct (String.eqb k k0); auto.
Qed.

Lemma update_app_new (A : Type) (k : string) (f : A -> result A) (a a' : A)
    (d : list (string * A)) :
  mem k (map fst d) = false -> f a = Ok a' ->
  Scale.update k f (d ++ [(k, a)]) = Ok (d ++ [(k, a')]).
Proof.
  intros Hm Hf. induction d as [|[k0 x] d IH]; simpl in *.
  - now rewrite String.eqb_refl, Hf.
  - apply orb_false_iff in Hm. destruct Hm as [E Hm].
    rewrite E, IH by assumption. reflexivity.
Qed.

(** [RH_per_sur] completes when the dew point has a column for every
    station, [series_interpolate] returns one value per output time, the
    variable is not in the file yet and the air temperature of the kernel
    [AIRT_C_sur] is there with the shape of the file. *)
Lemma RH_per_sur_completes
    (series_interpolate : list Q -> list Q -> list Q -> list Q)
    (e : Scale.engine) (s : Scale.scaled)
    (values : list (list Q)) (airt : list (list Scale.cell)) :
  lookup "d2m" (Scale.nc_vars (Scale.nc_sa e)) = Ok values ->
  length values = Scale.nstation e ->
  (forall time_out time_in value_in,
     length (series_interpolate time_out time_in value_in)
     = length time_out) ->
  Z.to_nat (Scale.nt (Scale.axis e)) = Scale.rows e ->
  mem "RH_ERAI_per_sur" (map fst (Scale.rg s)) = false ->
  lookup "AIRT_ERAI_C_sur" (Scale.rg s) = Ok airt ->
  length airt = Scale.nstation e ->
  Forall (fun col => length col = Scale.rows e) airt ->
  exists s', Scale.run_RH_per_sur series_interpolate e s = Ok s'.
Proof.
  intros Hd Hv Hsi Hnt Hnew Ha Hla Hshape.
  unfold Scale.run_RH_per_sur. rewrite Hd. cbn [bind].
  set (dewp_col := fun n =>
         series_interpolate (Scale.times_out_nc (Scale.axis e))
           (Scale.time_in_seconds (Scale.nc_sa e))
           (map (fun v => v - (27315 # 100)) (nth n values []))).
  rewrite (mapM_ok_map _ dewp_col).
  2:{ intros n Hn. apply in_seq in Hn.
      unfold Scale.interpolated_column.
      rewrite (getitem_nth values n []) by lia. cbn [bind].
      fold (dewp_col n). unfold dewp_col at 1. rewrite Hsi.
      fold (Scale.rows e). rewrite Hnt, Nat.eqb_refl. reflexivity. }
  cbn [bind]. unfold Scale.createVariable. rewrite Hnew. cbn [bind Scale.rg].
  rewrite (lookup_app_l _ _ _ _ _ Ha). cbn [bind].
  assert (Hld : length (map dewp_col (seq 0 (Scale.nstation e)))
                = Scale.nstation e) by now rewrite length_map, length_seq.
  rewrite broadcast2_zip by lia. cbn [bind].
  rewrite (mapM_id_zip _ _ _ _ (Levels.zip_with Scale.RH_cell)) by
    (try lia; intros col d Hc Hdin; apply broadcast2_zip;
     rewrite Forall_forall in Hshape; rewrite (Hshape col Hc);
     apply in_map_iff in Hdin; destruct Hdin as (n & <- & _);
     unfold dewp_col; now rewrite Hsi).
  cbn [bind]. unfold Scale.set_all.
  assert (Hcheck :
    Nat.eqb (length (Levels.zip_with (Levels.zip_with Scale.RH_cell) airt
                       (map dewp_col (seq 0 (Scale.nstation e)))))
      (Scale.nstation e)
    && forallb (fun col => Nat.eqb (length col) (Scale.rows e))
         (Levels.zip_with (Levels.zip_with Scale.RH_cell) airt
            (map dewp_col (seq 0 (Scale.nstation e)))) = true).
  { apply andb_true_iff. split.
    - rewrite length_zip_with by lia. rewrite Hla. apply Nat.eqb_refl.
    - apply forallb_forall. intros col Hcol.
      revert col Hcol. apply Forall_forall. apply Forall_zip_with.
      intros a d Hc Hdin. rewrite Forall_forall in Hshape.
      rewrite length_zip_with.
      + rewrite (Hshape a Hc). apply Nat.eqb_refl.
      + rewrite (Hshape a Hc). apply in_map_iff in Hdin.
        destruct Hdin as (n & <- & _). unfold dewp_col. now rewrite Hsi. }
  rewrite Hcheck. cbn [negb Scale.rg].
  rewrite update_app_new with (a' := Levels.zip_with
                                       (Levels.zip_with Scale.RH_cell) airt
                                       (map dewp_col
                                          (seq 0 (Scale.nstation e))));
    auto.
  cbn [bind]. eauto.
Qed.

End RHCompletes.

(** * ERAIscale: the kernels of accumulated quantities *)

Section AccumulatedFacts.

Local Open Scope Q_scope.

Lemma length_totals_from (reset i : nat) (prev : Q) (data : list Q) :
  length (Scale.totals_from reset i prev data) = length data.
Proof.
  revert i prev; induction data as [|v r IH]; intros i prev; simpl; auto.
Qed.


Lemma interp1d_eval_cons (x_lo x_hi : Q) (x' : list Q)
    (y_lo y_hi : Scale.cell) (y' : list Scale.cell) (x_new : Q) :
  Scale.interp1d_eval (x_lo :: x_hi :: x') (y_lo :: y_hi :: y') x_new
  = if Qle_bool x_new x_hi then
      Ok (Scale.lift2 Qplus
            (Scale.lift2 Qmult
               (Scale.cell_div (Scale.lift2 Qminus y_hi y_lo)
                  (Some (x_hi - x_lo)))
               (Some (x_new - x_lo)))
            y_lo)
    else Scale.interp1d_eval (x_hi :: x') (y_hi :: y') x_new.
Proof. reflexivity. Qed.

(** Linear interpolation on the segment that holds [x_new]. *)
Lemma interp1d_eval_segment (x y : list Q) (x_new : Q) (i : nat) :
  length y = length x ->
  (1 <= i < length x)%nat ->
  nth (i - 1) x 0 < nth i x 0 ->
  x_new <= nth i x 0 ->
  (forall j, (1 <= j < i)%nat -> nth j x 0 < x_new) ->
  Scale.interp1d_eval x (map Some y) x_new
  = Ok (Some ((nth i y 0 - nth (i - 1) y 0) / (nth i x 0 - nth (i - 1) x 0)
              * (x_new - nth (i - 1) x 0) + nth (i - 1) y 0)).
Proof.
  revert y i. induction x as [|x_lo x' IH]; intros y i Hlen Hi Hseg Hle Hgt;
    simpl in Hi; [lia|].
  destruct x' as [|x_hi x'']; simpl in Hi; [lia|].
  destruct y as [|y_lo [|y_hi y'']]; simpl in Hlen; try discriminate.
  cbn [map]. rewrite interp1d_eval_cons.
  destruct (Nat.eq_dec i 1) as [->|Hne].
  - cbn [nth Nat.sub] in *.
    apply Qle_bool_iff in Hle. rewrite Hle.
    unfold Scale.cell_div, Scale.lift2.
    destruct (Qeq_bool (x_hi - x_lo) 0) eqn:E; [|reflexivity].
    apply Qeq_bool_iff in E. lra.
  - assert (Hhi : x_hi < x_new) by (apply (Hgt 1%nat); lia).
    destruct (Qle_bool x_new x_hi) eqn:E.
    { apply Qle_bool_iff in E. lra. }
    destruct i as [|[|i]]; try lia.
    etransitivity; [apply (IH (y_hi :: y'') (S i))|].
    + simpl in *. lia.
    + simpl in *. lia.
    + cbn [nth Nat.sub] in *. now rewrite Nat.sub_0_r in *.
    + exact Hle.
    + intros j Hj. apply (Hgt (S j)). lia.
    + cbn [nth Nat.sub]. rewrite Nat.sub_0_r. reflexivity.
Qed.

Lemma inject_nat_le (a b : nat) :
  (a <= b)%nat -> inject_Z (Z.of_nat a) <= inject_Z (Z.of_nat b).
Proof. intros H. rewrite <- Zle_Qle. lia. Qed.

Lemma inject_nat_lt (a b : nat) :
  (a < b)%nat -> inject_Z (Z.of_nat a) < inject_Z (Z.of_nat b).
Proof. intros H. rewrite <- Zlt_Qlt. lia. Qed.

Lemma inject_nat_mul (a b : nat) :
  inject_Z (Z.of_nat (a * b))
  == inject_Z (Z.of_nat a) * inject_Z (Z.of_nat b).
Proof. now rewrite Nat2Z.inj_mul, inject_Z_mult. Qed.

Lemma inject_nat_add (a b : nat) :
  inject_Z (Z.of_nat (a + b))
  == inject_Z (Z.of_nat a) + inject_Z (Z.of_nat b).
Proof. now rewrite Nat2Z.inj_add, inject_Z_plus. Qed.

(** A regular input axis with [K] output steps per native interval. *)

Variables (reset : nat) (e : Scale.engine) (interval : Z) (values : list Q).
Variables (K n : nat).

Local Abbreviation xs := (Scale.time_in_seconds (Scale.nc_sf e)).
Local Abbreviation x0 := (nth 0 (Scale.time_in_seconds (Scale.nc_sf e)) 0).
Local Abbreviation dt := (Scale.time_step (Scale.axis e)).
Local Abbreviation DT := (inject_Z interval).
Local Abbreviation totals :=
  (Scale.cummulative2total reset values
     (map Scale.num2date (Scale.nc_time (Scale.nc_sf e)))).
Local Abbreviation ys := (map (fun d => d / inject_Z interval) totals).
Local Abbreviation N j := (inject_Z (Z.of_nat j)).
Local Abbreviation seg j :=
  (if Nat.eqb j 0 then 1 else (j - 1) / K + 1)%nat.
Local Abbreviation V j :=
  ((nth (seg j) ys 0 - nth (seg j - 1) ys 0)
   / (nth (seg j) xs 0 - nth (seg j - 1) xs 0)
   * (x0 + N j * dt - nth (seg j - 1) xs 0)
   + nth (seg j - 1) ys 0).

Hypothesis Hint : (0 < interval)%Z.
Hypothesis HK : (1 <= K)%nat.
Hypothesis HDT : DT == N K * dt.
Hypothesis Hreg : forall j, (j < length xs)%nat -> nth j xs 0 == x0 + N j * DT.
Hypothesis Hlen : length values = length xs.
Hypothesis Hgrid :
  Scale.times_out_nc (Scale.axis e)
  = map (fun j => x0 + N j * dt) (seq 0 n).
Hypothesis Hn : (n <= (length xs - 1) * K + 1)%nat.
Hypothesis H2 : (2 <= length xs)%nat.

Lemma DT_pos : 0 < DT.
Proof. change 0 with (inject_Z 0). now rewrite <- Zlt_Qlt. Qed.

Lemma dt_pos : 0 < dt.
Proof.
  pose proof DT_pos as H. pose proof (inject_nat_lt 0 K ltac:(lia)) as HKq.
  change (inject_Z (Z.of_nat 0)) with 0 in HKq.
  destruct (Qlt_le_dec 0 dt) as [|Hneg]; auto.
  exfalso. rewrite HDT in H. nra.
Qed.

Lemma seg_bounds (j : nat) :
  (j < n)%nat ->
  (1 <= seg j < length xs)%nat
  /\ ((seg j - 1) * K <= j <= seg j * K)%nat
  /\ (j <> 0%nat -> ((seg j - 1) * K < j)%nat).
Proof.
  intros Hj. destruct (Nat.eqb_spec j 0) as [->|Hne].
  - repeat split; try lia.
  - pose proof (Nat.div_mod_eq (j - 1) K) as E.
    pose proof (Nat.mod_upper_bound (j - 1) K ltac:(lia)) as U.
    assert ((j - 1) / K < length xs - 1)%nat
      by (apply Nat.Div0.div_lt_upper_bound; nia).
    repeat split; try lia; try nia.
Qed.

Lemma ys_nth (i : nat) :
  (i < length xs)%nat -> nth i ys 0 = nth i totals 0 / DT.
Proof.
  intros Hi. apply (nth_map_lt _ _ (fun d => d / DT)).
  unfold Scale.cummulative2total. rewrite length_totals_from. lia.
Qed.

Lemma rate_cells :
  map (fun d => Scale.cell_div (Some d) (Some DT)) totals = map Some ys.
Proof.
  rewrite map_map. apply map_ext. intros d. unfold Scale.cell_div.
  destruct (Qeq_bool DT 0) eqn:E; auto.
  apply Qeq_bool_iff in E. pose proof DT_pos. lra.
Qed.

Lemma eval_at (j : nat) :
  (j < n)%nat ->
  Scale.interp1d_eval xs (map Some ys) (x0 + N j * dt) = Ok (Some (V j)).
Proof.
  intros Hj. destruct (seg_bounds j Hj) as (Hi & Hb & Hpos).
  pose proof dt_pos as Hdt. pose proof DT_pos as HDp.
  apply interp1d_eval_segment.
  - rewrite length_map. unfold Scale.cummulative2total.
    rewrite length_totals_from. exact Hlen.
  - exact Hi.
  - rewrite (Hreg (seg j)), (Hreg (seg j - 1)) by lia.
    pose proof (inject_nat_lt (seg j - 1) (seg j) ltac:(lia)). nra.
  - rewrite (Hreg (seg j)) by lia. rewrite HDT.
    pose proof (inject_nat_le j (seg j * K) ltac:(lia)) as H.
    rewrite inject_nat_mul in H.
    assert (N j * dt <= N (seg j) * N K * dt)
      by (apply Qmult_le_compat_r; lra).
    lra.
  - intros j' Hj'. rewrite (Hreg j') by lia. rewrite HDT.
    assert (Hlt : (j' * K < j)%nat) by nia.
    pose proof (inject_nat_lt (j' * K) j Hlt) as H.
    rewrite inject_nat_mul in H.
    assert (N j' * N K * dt < N j * dt)
      by (apply Qmult_lt_compat_r; lra).
    lra.
Qed.

Lemma seg_of (i k : nat) :
  (1 <= i)%nat -> (1 <= k <= K)%nat -> seg ((i - 1) * K + k) = i.
Proof.
  intros Hi Hk.
  destruct (Nat.eqb_spec ((i - 1) * K + k) 0) as [E|_]; [lia|].
  set (m := (i - 1)%nat).
  replace (m * K + k - 1)%nat with ((k - 1) + m * K)%nat
    by (set (p := (m * K)%nat); lia).
  rewrite Nat.div_add by lia. rewrite Nat.div_small by lia. lia.
Qed.

(** The value written at the [k]-th output step of the native interval
    [i]. *)
Lemma value_at (i k : nat) :
  (1 <= i < length xs)%nat -> (1 <= k <= K)%nat ->
  V ((i - 1) * K + k) * dt
  == (nth (i - 1) totals 0
      + N k / N K * (nth i totals 0 - nth (i - 1) totals 0)) / N K.
Proof.
  intros Hi Hk. rewrite (seg_of i k) by lia.
  pose proof dt_pos as Hdt. pose proof DT_pos as HDp.
  pose proof (inject_nat_lt 0 K ltac:(lia)) as HKq.
  change (inject_Z (Z.of_nat 0)) with 0 in HKq.
  rewrite !ys_nth by lia.
  rewrite (Hreg i), (Hreg (i - 1)) by lia.
  rewrite inject_nat_add, inject_nat_mul.
  assert (E : N i == N (i - 1) + 1).
  { replace i with (S (i - 1)) at 1 by lia.
    rewrite Nat2Z.inj_succ. unfold Z.succ. now rewrite inject_Z_plus. }
  rewrite E, HDT. field. split; lra.
Qed.

Lemma head_match (T : Type) (l : list Q) (F : Q -> T) (G : T) :
  (1 <= length l)%nat ->
  match l with x :: _ => F x | [] => G end = F (nth 0 l 0).
Proof. destruct l; simpl; [lia | reflexivity]. Qed.

(** The column written for one station. *)
Lemma accumulated_column_regular :
  Scale.accumulated_column reset e interval values
  = Ok (map (fun j => Some (V j * dt)) (seq 0 n)).
Proof.
  unfold Scale.accumulated_column. cbv zeta. rewrite rate_cells.
  unfold Scale.interp1d.
  assert (Hl : length ys = length xs).
  { rewrite length_map. unfold Scale.cummulative2total.
    rewrite length_totals_from. exact Hlen. }
  rewrite length_map, Hl, Nat.eqb_refl. cbn [negb].
  rewrite Hgrid, mapM_map.
  rewrite (mapM_ok_map _ (fun j => Some (V j))).
  - cbn [bind]. rewrite map_map. reflexivity.
  - intros j Hj. apply in_seq in Hj.
    rewrite (head_match _ xs
               (fun x => if Levels.Qlt_bool (x0 + N j * dt) x
                         then Raise (ValueError
                           "A value in x_new is below the interpolation range.")
                         else Scale.interp1d_eval xs (map Some ys)
                                (x0 + N j * dt))) by lia.
    unfold Levels.Qlt_bool.
    assert (Hle : x0 <= x0 + N j * dt).
    { pose proof dt_pos. pose proof (inject_nat_le 0 j ltac:(lia)) as H0.
      change (inject_Z (Z.of_nat 0)) with 0 in H0. nra. }
    apply Qle_bool_iff in Hle. rewrite Hle. cbn [negb].
    apply eval_at. lia.
Qed.

Lemma sum_arithmetic (col : list Scale.cell) (base m : nat) (f : nat -> Q)
    (a b : Q) :
  (forall k, (1 <= k <= m)%nat ->
     nth (base + k) col None = Some (f k) /\ f k == a + b * N k) ->
  exists s,
    fold_left (fun acc k => Scale.lift2 Qplus acc (nth (base + k) col None))
      (seq 1 m) (Some 0) = Some s
    /\ s == N m * a + b * (N m * (N m + 1) / 2).
Proof.
  induction m as [|m IH]; intros H.
  - exists 0. split; [reflexivity|]. simpl. field.
  - destruct IH as (s & Hs & Es); [intros; apply H; lia|].
    destruct (H (S m) ltac:(lia)) as [Hc Ef].
    exists (s + f (S m)). rewrite seq_S, fold_left_app, Hs. cbn [fold_left].
    replace (1 + m)%nat with (S m) by lia. rewrite Hc. split; [reflexivity|].
    rewrite Es, Ef.
    assert (E : N (S m) == N m + 1).
    { rewrite Nat2Z.inj_succ. unfold Z.succ. now rewrite inject_Z_plus. }
    rewrite E. field.
Qed.

Lemma resum_regular (i : nat) :
  (1 <= i)%nat -> (i * K < n)%nat ->
  exists q,
    Scale.resum K (map (fun j => Some (V j * dt)) (seq 0 n)) i = Some q
    /\ q == ((N K - 1) * nth (i - 1) totals 0 + (N K + 1) * nth i totals 0)
            / (2 * N K).
Proof.
  intros Hi HiK.
  pose proof (inject_nat_lt 0 K ltac:(lia)) as HKq.
  change (inject_Z (Z.of_nat 0)) with 0 in HKq.
  assert (Hix : (i < length xs)%nat) by nia.
  destruct (sum_arithmetic (map (fun j => Some (V j * dt)) (seq 0 n))
              ((i - 1) * K) K (fun k => V ((i - 1) * K + k) * dt)
              (nth (i - 1) totals 0 / N K)
              ((nth i totals 0 - nth (i - 1) totals 0) / (N K * N K)))
    as (q & Hq & Eq).
  - intros k Hk. split.
    + rewrite (nth_map_lt _ _ (fun j => Some (V j * dt)) _ _ 0%nat)
        by (rewrite length_seq; nia).
      rewrite seq_nth by nia. reflexivity.
    + rewrite value_at by lia. field. lra.
  - exists q. split; [exact Hq|]. rewrite Eq. field. lra.
Qed.

End AccumulatedFacts.

Section AccumulatedClaims.

Local Open Scope Q_scope.

(** C9, as stated, fails.  In the example the precipitation accumulates
    to 0, 4 and 6 mm at 0, 2 and 4 h within one accumulation period, so the
    total of the native interval that ends at 2 h is 4 mm; with an output
    step of one hour the kernel [PREC_mm_sur] writes 1 and 2 mm for the two
    output steps of that interval, which sum to 3 mm. *)
Lemma PREC_mm_sur_resum_differs :
  exists (s : Scale.scaled) (col : list Scale.cell) (q : Q),
    Scale.run_PREC_mm_sur 3 Scale.example_engine
      {| Scale.rg := []; Scale.stdout := [] |} = Ok s
    /\ lookup "PREC_ERAI_mm_sur" (Scale.rg s) = Ok [col]
    /\ Scale.resum 2 col 1 = Some q
    /\ q == 3
    /\ nth 1 (Scale.cummulative2total 3
                (map (fun v => v * 1000) [0; 4 # 1000; 6 # 1000])
                (map Scale.num2date [0; 2; 4]%Z)) 0 == 4
    /\ ~ q == 4.
Proof.
  eexists _, _, _.
  split; [vm_compute; reflexivity|].
  split; [vm_compute; reflexivity|].
  split; [vm_compute; reflexivity|].
  split; [reflexivity|]. split; [reflexivity|].
  intros H. vm_compute in H. discriminate.
Qed.

End AccumulatedClaims.


(** * ERAIdownload: the time slices and the bounding box *)

Section DownloadFacts.

Local Open Scope Z_scope.

Lemma range_In (n i : Z) : In i (Download.range n) <-> 0 <= i < n.
Proof.
  unfold Download.range. rewrite in_map_iff. split.
  - intros (k & <- & Hk). apply in_seq in Hk. lia.
  - intros H. exists (Z.to_nat i). split; [lia|]. apply in_seq. lia.
Qed.

Lemma slices_bounds (date_beg date_end chunk_size : Z) :
  1 <= chunk_size -> date_beg <= date_end ->
  let q := Download.slices_of date_beg date_end chunk_size - 1 in
  0 <= q
  /\ chunk_size * q * Download.day <= date_end - date_beg
  /\ date_end - date_beg < chunk_size * (q + 1) * Download.day.
Proof.
  intros Hc Hd q. unfold q, Download.slices_of, Download.timedelta_days.
  clear q.
  assert (Hday : 0 < Download.day) by (unfold Download.day; lia).
  set (delta := date_end - date_beg).
  set (D := delta / Download.day).
  pose proof (Z.div_mod delta Download.day ltac:(lia)) as E1.
  pose proof (Z.mod_pos_bound delta Download.day Hday) as B1.
  fold D in E1.
  assert (HD : 0 <= D) by (apply Z.div_pos; unfold delta; lia).
  pose proof (Z.div_mod D chunk_size ltac:(lia)) as E2.
  pose proof (Z.mod_pos_bound D chunk_size ltac:(lia)) as B2.
  assert (Hq : 0 <= D / chunk_size) by (apply Z.div_pos; lia).
  replace (D / chunk_size + 1 - 1) with (D / chunk_size) by lia.
  set (q := D / chunk_size) in *.
  set (r1 := delta mod Download.day) in *.
  set (r2 := D mod chunk_size) in *.
  split; [exact Hq|]. split; nia.
Qed.

(** X1.  [ERAIdownload.retrieve] with a chunk size of at least one day
    and a period that does not end before it begins: the topography is
    downloaded once, then one pressure-level, one surface-analysis and one
    surface-forecast file for every time slice, in order.  The slices tile
    the period: the first begins at [date['beg']], every further one begins
    one day after the end of the one before, the last ends at
    [date['end']], and no slice ends before it begins or reaches
    [chunk_size] days after its beginning. *)
Theorem retrieve_slices_tile :
  forall (variables : list string) (date_beg date_end chunk_size : Z),
  1 <= chunk_size ->
  date_beg <= date_end ->
  let slices := Download.slices_of date_beg date_end chunk_size in
  let d := Download.date_i date_beg date_end chunk_size slices in
  Download.retrieve variables date_beg date_end chunk_size
  = Ok (Download.Topography
        :: flat_map
             (fun ind =>
                [Download.Slice Download.pl (Download.ERAIpl_param variables)
                   (fst (d ind)) (snd (d ind));
                 Download.Slice Download.sa (Download.ERAIsa_param variables)
                   (fst (d ind)) (snd (d ind));
                 Download.Slice Download.sf (Download.ERAIsf_param variables)
                   (fst (d ind)) (snd (d ind))])
             (Download.range slices))
  /\ 1 <= slices
  /\ fst (d 0) = date_beg
  /\ snd (d (slices - 1)) = date_end
  /\ (forall ind, 0 <= ind < slices - 1 ->
        fst (d (ind + 1)) = snd (d ind) + Download.day)
  /\ (forall ind, 0 <= ind < slices ->
        fst (d ind) <= snd (d ind)
        /\ snd (d ind) < fst (d ind) + Download.timedelta chunk_size).
Proof.
  intros variables date_beg date_end chunk_size Hc Hd slices d.
  destruct (slices_bounds date_beg date_end chunk_size Hc Hd)
    as (Hq & Hlo & Hhi).
  fold slices in Hq, Hlo, Hhi.
  assert (Hday : 0 < Download.day) by (unfold Download.day; lia).
  split.
  { unfold Download.retrieve. destruct (Z.eqb_spec chunk_size 0); [lia|].
    reflexivity. }
  split; [lia|].
  split.
  { unfold d, Download.date_i, Download.timedelta. simpl. lia. }
  split.
  { unfold d, Download.date_i. simpl. now rewrite Z.eqb_refl. }
  split.
  { intros ind Hind. unfold d, Download.date_i, Download.timedelta.
    cbn [fst snd].
    destruct (Z.eqb_spec ind (slices - 1)); [lia|]. lia. }
  intros ind Hind. unfold d, Download.date_i, Download.timedelta.
  cbn [fst snd].
  destruct (Z.eqb_spec ind (slices - 1)) as [->|Hne].
  - split; nia.
  - split; nia.
Qed.

Lemma retrieve_slices_tile_witness :
  1 <= 4 /\ 0 <= 10 * Download.day
  /\ Download.retrieve ["air_temperature"; "precipitation_amount"] 0
       (10 * Download.day) 4
     = Ok [Download.Topography;
           Download.Slice Download.pl "130.128/129.128" 0 (3 * Download.day);
           Download.Slice Download.sa "167.128" 0 (3 * Download.day);
           Download.Slice Download.sf "228.128" 0 (3 * Download.day);
           Download.Slice Download.pl "130.128/129.128" (4 * Download.day)
             (7 * Download.day);
           Download.Slice Download.sa "167.128" (4 * Download.day)
             (7 * Download.day);
           Download.Slice Download.sf "228.128" (4 * Download.day)
             (7 * Download.day);
           Download.Slice Download.pl "130.128/129.128" (8 * Download.day)
             (10 * Download.day);
           Download.Slice Download.sa "167.128" (8 * Download.day)
             (10 * Download.day);
           Download.Slice Download.sf "228.128" (8 * Download.day)
             (10 * Download.day)].
Proof.
  split; [lia|]. split; [unfold Download.day; lia|].
  exact (proj1 (retrieve_slices_tile
                  ["air_temperature"; "precipitation_amount"] 0
                  (10 * Download.day) 4 ltac:(lia)
                  ltac:(unfold Download.day; lia))).
Defined.

End DownloadFacts.

Section AreaFacts.

Local Open Scope Q_scope.

Lemma Qlt_bool_iff (x y : Q) : Levels.Qlt_bool x y = true <-> x < y.
Proof.
  unfold Levels.Qlt_bool. rewrite negb_true_iff. split.
  - intros H. apply Qnot_le_lt. intros C. apply Qle_bool_iff in C. congruence.
  - intros H. destruct (Qle_bool y x) eqn:E; auto.
    apply Qle_bool_iff in E. lra.
Qed.

Lemma Qlt_bool_false (x y : Q) : Levels.Qlt_bool x y = false <-> y <= x.
Proof.
  unfold Levels.Qlt_bool. rewrite negb_false_iff. apply Qle_bool_iff.
Qed.

(** X2.  The sanity check of [ERAIdownload.__init__] accepts a bounding
    box exactly when it spans at least 1.5 degrees from south to north and
    from west to east, and [self.area] then holds the four values as given.
    The exception for an invalid box is raised exactly when north is below
    south or east below west; the exception for a small area exactly when
    the box is oriented properly and spans less than 1.5 degrees in one of
    the two directions. *)
Theorem ERAIdownload_area_accepted :
  forall bbN bbS bbW bbE : Q,
  (forall area,
     Download.ERAIdownload_area bbN bbS bbW bbE = inr area
     <-> area = {| Download.north := bbN; Download.south := bbS;
                   Download.west := bbW; Download.east := bbE |}
         /\ 3 # 2 <= bbN - bbS /\ 3 # 2 <= bbE - bbW)
  /\ (Download.ERAIdownload_area bbN bbS bbW bbE
      = inl Download.Bounding_box_is_invalid
      <-> bbN < bbS \/ bbE < bbW)
  /\ (Download.ERAIdownload_area bbN bbS bbW bbE
      = inl Download.Download_area_is_too_small
      <-> bbS <= bbN /\ bbW <= bbE
          /\ (bbN - bbS < 3 # 2 \/ bbE - bbW < 3 # 2)).
Proof.
  intros bbN bbS bbW bbE. unfold Download.ERAIdownload_area. cbv zeta.
  destruct (Levels.Qlt_bool bbN bbS) eqn:E1;
    [apply Qlt_bool_iff in E1 | apply Qlt_bool_false in E1];
  (destruct (Levels.Qlt_bool bbE bbW) eqn:E2;
    [apply Qlt_bool_iff in E2 | apply Qlt_bool_false in E2]);
  cbn [orb].
  1-3: (split; [intros area; split; [discriminate | intros (_ & ? & ?); lra]|];
        split; [split; auto|];
        split; [discriminate | intros (? & ? & _); lra]).
  assert (A1 : Qabs (bbN - bbS) == bbN - bbS) by (apply Qabs_pos; lra).
  assert (A2 : Qabs (bbE - bbW) == bbE - bbW) by (apply Qabs_pos; lra).
  destruct (Levels.Qlt_bool (Qabs (bbN - bbS)) (3 # 2)) eqn:E3;
    [apply Qlt_bool_iff in E3 | apply Qlt_bool_false in E3];
  (destruct (Levels.Qlt_bool (Qabs (bbE - bbW)) (3 # 2)) eqn:E4;
    [apply Qlt_bool_iff in E4 | apply Qlt_bool_false in E4]);
  cbn [orb]; rewrite ?A1, ?A2 in *.
  1-3: (split; [intros area; split; [discriminate | intros (_ & ? & ?); lra]|];
        split; [split; [discriminate | intros [?|?]; lra]|];
        split; [intros _; repeat split; try lra; auto | reflexivity]).
  - split; [intros area; split; [intros H; injection H as <-; auto|
                                 intros (-> & _); reflexivity]|].
    split; [split; [discriminate | intros [?|?]; lra]|].
    split; [discriminate | intros (_ & _ & [?|?]); lra].
Qed.

End AreaFacts.


(** * ERAIgeneric: pressure levels and parameter strings *)

Section PressureLevelFacts.

Local Open Scope Q_scope.

Lemma last_cons_default (A : Type) (l : list A) (a b : A) :
  last (b :: l) a = last l b.
Proof.
  revert a b; induction l as [|x l IH]; intros a b; [reflexivity|].
  change (last (b :: x :: l) a) with (last (x :: l) a).
  rewrite !IH. reflexivity.
Qed.

(** In a list whose consecutive entries increase by at most [gap], a value
    between the first and the last entry lies between two consecutive
    entries, or on one. *)
Lemma chain_bracket (gap : Z) (p : Q) (l : list Z) (a : Z) :
  Forall (fun xy => (fst xy < snd xy <= fst xy + gap)%Z) (combine (a :: l) l) ->
  (0 <= gap)%Z ->
  inject_Z a <= p <= inject_Z (last l a) ->
  exists lo hi,
    In lo (a :: l) /\ In hi (a :: l)
    /\ inject_Z lo <= p <= inject_Z hi /\ (lo <= hi <= lo + gap)%Z.
Proof.
  intros Hc Hg. revert a Hc. induction l as [|b r IH]; intros a Hc Hp.
  - exists a, a. simpl in *. repeat split; auto; try lra; lia.
  - inversion Hc as [|? ? Hab Hc']; subst. cbn [fst snd] in Hab.
    destruct (Qlt_le_dec (inject_Z b) p) as [Hb|Hb].
    + destruct (IH b Hc') as (lo & hi & H1 & H2 & H3 & H4).
      * rewrite last_cons_default in Hp. lra.
      * exists lo, hi. repeat split; try (now right); tauto.
    + exists a, b. repeat split; try lra; try lia.
      * now left.
      * right; now left.
Qed.

Lemma selected_levels_In (exp : Q -> Q) (elevation : Generic.elevation_range)
    (l : Z) :
  In l (Generic.selected_levels exp elevation)
  <-> In l Generic.levs
      /\ Generic.getPressure exp (Generic.ele_max elevation) - 55
         <= inject_Z l
         <= Generic.getPressure exp (Generic.ele_min elevation) + 55.
Proof.
  unfold Generic.selected_levels. cbv zeta.
  rewrite compress_map_filter, filter_In, andb_true_iff, !Qle_bool_iff.
  reflexivity.
Qed.

(** X3.  [getPressureLevels]: every pressure [p] between the pressure at
    the highest and the pressure at the lowest elevation of the area, and
    within the range of the ERA-Interim levels (300 to 1000 hPa), lies
    between two of the levels selected for download that are at most
    50 hPa apart, one at or below [p] and one at or above.  The margin of
    55 hPa exceeds the widest gap of the table.  This holds whatever
    [math.exp] returns. *)
Theorem getPressureLevels_bracket :
  forall (exp : Q -> Q) (elevation : Generic.elevation_range) (p : Q),
  Generic.getPressure exp (Generic.ele_max elevation) <= p
  <= Generic.getPressure exp (Generic.ele_min elevation) ->
  300 <= p <= 1000 ->
  exists lo hi : Z,
    In lo (Generic.selected_levels exp elevation)
    /\ In hi (Generic.selected_levels exp elevation)
    /\ inject_Z lo <= p <= inject_Z hi
    /\ (lo <= hi <= lo + 50)%Z.
Proof.
  intros exp elevation p Hp Hr.
  destruct (chain_bracket 50 p (tl Generic.levs) 300)
    as (lo & hi & H1 & H2 & H3 & H4).
  - unfold Generic.levs. cbn [tl combine].
    repeat (constructor; [cbn [fst snd]; lia|]). constructor.
  - lia.
  - exact Hr.
  - change (300%Z :: tl Generic.levs) with Generic.levs in H1, H2.
    exists lo, hi.
    assert (Hlh : inject_Z hi <= inject_Z lo + 50).
    { change 50 with (inject_Z 50). rewrite <- inject_Z_plus.
      rewrite <- Zle_Qle. lia. }
    assert (Hlh' : inject_Z lo <= inject_Z hi) by (rewrite <- Zle_Qle; lia).
    repeat split; try tauto; try lia; apply selected_levels_In; split; auto;
      lra.
Qed.

Lemma getPressureLevels_bracket_witness :
  let exp := fun x : Q => 1 + x + x * x / 2 in
  let elevation := {| Generic.ele_min := 0; Generic.ele_max := 1000 |} in
  Generic.getPressure exp (Generic.ele_max elevation) <= 950
  <= Generic.getPressure exp (Generic.ele_min elevation)
  /\ 300 <= 950 <= 1000
  /\ exists lo hi : Z,
       In lo (Generic.selected_levels exp elevation)
       /\ In hi (Generic.selected_levels exp elevation)
       /\ inject_Z lo <= 950 <= inject_Z hi
       /\ (lo <= hi <= lo + 50)%Z.
Proof.
  intros exp elevation.
  assert (H1 : Generic.getPressure exp (Generic.ele_max elevation) <= 950
               <= Generic.getPressure exp (Generic.ele_min elevation)).
  { split; vm_compute; discriminate. }
  assert (H2 : 300 <= 950 <= 1000) by (split; discriminate).
  split; [exact H1|]. split; [exact H2|].
  exact (getPressureLevels_bracket exp elevation 950 H1 H2).
Defined.

End PressureLevelFacts.

Section ParamFacts.

Lemma string_append_assoc (a b c : string) :
  String.append (String.append a b) c = String.append a (String.append b c).
Proof. induction a as [|x a IH]; simpl; congruence. Qed.

Lemma string_append_nil_r (a : string) : String.append a "" = a.
Proof. induction a as [|x a IH]; simpl; congruence. Qed.

Lemma string_append_nonempty (a b : string) :
  b <> "" -> String.append a b <> "".
Proof. destruct a; simpl; [auto|discriminate]. Qed.

Lemma rstrip_app_keep (c : Ascii.ascii) (a b : string) :
  b <> "" -> rstrip c b = b ->
  rstrip c (String.append a b) = String.append a b.
Proof.
  intros Hb E. induction a as [|x a IH]; [exact E|].
  cbn [String.append rstrip]. rewrite IH.
  pose proof (string_append_nonempty a b Hb).
  destruct (String.append a b); [congruence|reflexivity].
Qed.

Lemma rstrip_app_char (c : Ascii.ascii) (s : string) :
  rstrip c (String.append s (String.String c "")) = rstrip c s.
Proof.
  induction s as [|x s IH].
  - simpl. now rewrite Ascii.eqb_refl.
  - cbn [String.append rstrip]. now rewrite IH.
Qed.

(** The codes of the names of [variables] that are keys of [dpar]. *)
Local Abbreviation codes_of dpar variables :=
  (flat_map (fun var : string =>
               match dict_get var dpar with
               | Some code => [code]
               | None => []
               end) variables).

Local Abbreviation slashed codes :=
  (fold_right (fun code acc : string =>
                 String.append code (String.append "/" acc)) "" codes).

Lemma TranslateCF2ERA_fold (dpar : list (string * string))
    (variables : list string) (acc : string) :
  fold_left
    (fun param var =>
       match dict_get var dpar with
       | Some code => String.append param (String.append code "/")
       | None => param
       end) variables acc
  = String.append acc (slashed (codes_of dpar variables)).
Proof.
  revert acc; induction variables as [|v vs IH]; intros acc; simpl.
  - now rewrite string_append_nil_r.
  - rewrite IH. destruct (dict_get v dpar) as [code|]; simpl; auto.
    now rewrite !string_append_assoc.
Qed.

Lemma slashed_concat (codes : list string) :
  codes <> [] ->
  slashed codes = String.append (String.concat "/" codes) "/".
Proof.
  induction codes as [|c r IH]; [congruence|]. intros _.
  destruct r as [|c' r]; [reflexivity|].
  change (String.concat "/" (c :: c' :: r))
    with (String.append c (String.append "/" (String.concat "/" (c' :: r)))).
  cbn [fold_right] in *. rewrite IH by discriminate.
  now rewrite !string_append_assoc.
Qed.

Lemma concat_keeps_end (codes : list string) :
  codes <> [] ->
  Forall (fun code => code <> "" /\ rstrip "/"%char code = code) codes ->
  String.concat "/" codes <> ""
  /\ rstrip "/"%char (String.concat "/" codes) = String.concat "/" codes.
Proof.
  induction codes as [|c r IH]; [congruence|]. intros _ H.
  inversion H as [|? ? [Hc1 Hc2] Hr]; subst.
  destruct r as [|c' r]; [simpl; auto|].
  change (String.concat "/" (c :: c' :: r))
    with (String.append c (String.append "/" (String.concat "/" (c' :: r)))).
  destruct (IH ltac:(discriminate) Hr) as [H1 H2].
  rewrite <- string_append_assoc. split.
  - now apply string_append_nonempty.
  - now apply rstrip_app_keep.
Qed.

Lemma dict_get_In (A : Type) (k : string) (a : A) (d : list (string * A)) :
  dict_get k d = Some a -> In (k, a) d.
Proof.
  induction d as [|[k' a'] d IH]; simpl; [discriminate|].
  destruct (String.eqb_spec k k') as [->|_]; auto.
  intros H; injection H as ->. now left.
Qed.

Lemma TranslateCF2ERA_join (variables : list string)
    (dpar : list (string * string)) :
  (forall k code,
     In (k, code) dpar -> code <> "" /\ rstrip "/"%char code = code) ->
  Generic.TranslateCF2ERA variables dpar
  = String.concat "/" (codes_of dpar variables).
Proof.
  intros Hd. unfold Generic.TranslateCF2ERA. cbv zeta.
  rewrite TranslateCF2ERA_fold. cbn [String.append].
  destruct (codes_of dpar variables) as [|c r] eqn:E; [reflexivity|].
  rewrite slashed_concat by discriminate.
  rewrite rstrip_app_char.
  apply concat_keeps_end; [discriminate|].
  rewrite <- E. apply Forall_forall. intros code Hin.
  apply in_flat_map in Hin. destruct Hin as (var & _ & Hin).
  destruct (dict_get var dpar) as [code'|] eqn:G; [|destruct Hin].
  destruct Hin as [<-|[]]. apply (Hd var). now apply dict_get_In.
Qed.

Lemma dpar_pl_codes (k code : string) :
  In (k, code) Download.dpar_pl ->
  code <> "" /\ rstrip "/"%char code = code.
Proof.
  intros [E|[E|[E|[]]]]; injection E as <- <-; split;
    [discriminate | reflexivity | discriminate | reflexivity
    | discriminate | reflexivity].
Qed.

(** X4.  [TranslateCF2ERA]: when no code of [dpar] is empty or ends in a
    slash, as in the three request classes, [self.param] is the codes of
    the variables that are keys of [dpar], in the order of the variables,
    joined by slashes.  A name that is not a key leaves no trace: the
    result is that of the list without such names. *)
Theorem TranslateCF2ERA_joins_known_codes :
  forall (variables : list string) (dpar : list (string * string)),
  (forall k code,
     In (k, code) dpar -> code <> "" /\ rstrip "/"%char code = code) ->
  Generic.TranslateCF2ERA variables dpar
  = String.concat "/"
      (flat_map (fun var => match dict_get var dpar with
                            | Some code => [code]
                            | None => []
                            end) variables)
  /\ Generic.TranslateCF2ERA variables dpar
     = Generic.TranslateCF2ERA
         (filter (fun var => match dict_get var dpar with
                             | Some _ => true
                             | None => false
                             end) variables) dpar.
Proof.
  intros variables dpar Hd. split; [now apply TranslateCF2ERA_join|].
  rewrite !TranslateCF2ERA_join by assumption. f_equal.
  induction variables as [|v vs IH]; [reflexivity|]. simpl.
  destruct (dict_get v dpar) as [code|] eqn:E; simpl; [|exact IH].
  rewrite E. simpl. now rewrite IH.
Qed.

Lemma TranslateCF2ERA_joins_known_codes_witness :
  (forall k code,
     In (k, code) Download.dpar_pl ->
     code <> "" /\ rstrip "/"%char code = code)
  /\ Generic.TranslateCF2ERA ["wind_speed"; "sea_ice"; "air_temperature"]
       Download.dpar_pl
     = "131.128/132.128/130.128".
Proof.
  split; [exact dpar_pl_codes|].
  exact (proj1 (TranslateCF2ERA_joins_known_codes
                  ["wind_speed"; "sea_ice"; "air_temperature"]
                  Download.dpar_pl dpar_pl_codes)).
Defined.

Lemma concat_app_last (codes : list string) (x : string) :
  codes <> [] ->
  String.concat "/" (codes ++ [x])
  = String.append (String.concat "/" codes) (String.append "/" x).
Proof.
  induction codes as [|c r IH]; [congruence|]. intros _.
  destruct r as [|c' r]; [reflexivity|].
  change (String.concat "/" ((c :: c' :: r) ++ [x]))
    with (String.append c
            (String.append "/" (String.concat "/" ((c' :: r) ++ [x])))).
  change (String.concat "/" (c :: c' :: r))
    with (String.append c (String.append "/" (String.concat "/" (c' :: r)))).
  rewrite IH by discriminate. now rewrite !string_append_assoc.
Qed.

(** X5.  [ERAIpl.__init__]: the parameter string of a pressure-level
    request is the codes of the known variables followed by the code of the
    geopotential, 129.128, joined by slashes; when no variable is known it
    is the code of the geopotential after a leading slash. *)
Theorem ERAIpl_param_ends_with_geopotential :
  forall variables : list string,
  let codes :=
    flat_map (fun var => match dict_get var Download.dpar_pl with
                         | Some code => [code]
                         | None => []
                         end) variables in
  Download.ERAIpl_param variables
  = match codes with
    | [] => "/129.128"
    | _ :: _ => String.concat "/" (codes ++ ["129.128"])
    end.
Proof.
  intros variables codes. unfold Download.ERAIpl_param.
  rewrite (TranslateCF2ERA_join variables Download.dpar_pl dpar_pl_codes).
  fold codes. destruct codes as [|c r] eqn:E; [reflexivity|].
  now rewrite concat_app_last by discriminate.
Qed.

End ParamFacts.

Section TranslateFacts.

(** X6.  [TranslateCF2short] lists, in the order of [self.variables],
    the short names of every variable that is a key of [dpar]: a short name
    is returned exactly when it belongs to the entry of one of the
    variables, and a variable that is not a key is dropped without
    error. *)
Theorem TranslateCF2short_known_names :
  forall (variables : list string) (dpar : list (string * list string)),
  Translate.TranslateCF2short variables dpar
  = flat_map (fun var => match dict_get var dpar with
                         | Some sublist => sublist
                         | None => []
                         end) variables
  /\ (forall short,
        In short (Translate.TranslateCF2short variables dpar)
        <-> exists var sublist,
              In var variables /\ dict_get var dpar = Some sublist
              /\ In short sublist).
Proof.
  intros variables dpar.
  assert (E : Translate.TranslateCF2short variables dpar
              = flat_map (fun var => match dict_get var dpar with
                                     | Some sublist => sublist
                                     | None => []
                                     end) variables).
  { unfold Translate.TranslateCF2short. cbv zeta.
    induction variables as [|v vs IH]; [reflexivity|]. simpl.
    destruct (dict_get v dpar) as [l|]; simpl; [|exact IH].
    now rewrite IH. }
  split; [exact E|]. intros short. rewrite E, in_flat_map. split.
  - intros (var & Hv & Hin).
    destruct (dict_get var dpar) as [l|] eqn:G; [|destruct Hin].
    now exists var, l.
  - intros (var & l & Hv & G & Hin). exists var. rewrite G. auto.
Qed.

End TranslateFacts.


(** * ERA2station and ERAinterp2D: the selection of time steps and of
      variables *)

Section SelectionFacts.

Import Interpolate.

Variables grid_row station_row : Type.
Variable regrid : grid_row -> station_row.
Variable variables_skip : string -> bool.
Variable ncf_in : dataset grid_row.

Lemma compress_none (A : Type) (p : Z -> bool) (time : list Z)
    (xs : list A) :
  Forall (fun t => p t = false) time -> compress (map p time) xs = [].
Proof.
  intros H. revert xs. induction H as [|t time Ht _ IH]; intros [|x xs];
    simpl; auto.
  rewrite Ht. apply IH.
Qed.

Lemma ERA2station_nothing_selected (variables : option (list string))
    (date : option (Z * Z)) (cs : nat) :
  1 <= cs ->
  Forall (fun t => in_range date t = false) (nctime ncf_in) ->
  ERA2station regrid variables_skip cs ncf_in variables date
  = Ok (netCDF_empty station_row variables_skip ncf_in).
Proof.
  intros Hcs H. unfold ERA2station.
  destruct (Nat.eqb_spec cs 0); [lia|].
  unfold tmask_of. rewrite (compress_none _ _ _ _ H).
  unfold niter_of. simpl length.
  rewrite Nat.Div0.div_0_l, Nat.Div0.mod_0_l. reflexivity.
Qed.

End SelectionFacts.

(** X7.  [ERA2station] with [cs >= 1]: when no time step of the file
    lies in the date range, no chunk is processed and the call returns
    without error, leaving the station file as [netCDF_empty] created it,
    with no time step; [ERAinterp2D] and its error for an empty selection
    are not reached.  This is so for every range whose end is not after its
    beginning, as the [dummy_date] that [process] passes for the topography
    file. *)
Theorem ERA2station_empty_range :
  forall (grid_row station_row : Type) (regrid : grid_row -> station_row)
         (variables_skip : string -> bool)
         (ncf_in : Interpolate.dataset grid_row)
         (variables : option (list string)) (cs : nat),
  1 <= cs ->
  (forall date,
     Forall (fun t => Interpolate.in_range date t = false)
       (Interpolate.nctime ncf_in) ->
     Interpolate.ERA2station regrid variables_skip cs ncf_in variables date
     = Ok (Interpolate.netCDF_empty station_row variables_skip ncf_in))
  /\ (forall dbeg dend : Z,
        (dend <= dbeg)%Z ->
        Interpolate.ERA2station regrid variables_skip cs ncf_in variables
          (Some (dbeg, dend))
        = Ok (Interpolate.netCDF_empty station_row variables_skip ncf_in)).
Proof.
  intros grid_row station_row regrid variables_skip ncf_in variables cs Hcs.
  split.
  - intros date H. now apply ERA2station_nothing_selected.
  - intros dbeg dend H. apply ERA2station_nothing_selected; auto.
    apply Forall_forall. intros t _. unfold Interpolate.in_range.
    apply andb_false_iff. lia.
Qed.

Lemma ERA2station_empty_range_witness :
  1 <= 3
  /\ Interpolate.ERA2station Interpolate.example_regrid
       Interpolate.example_skip 3 Interpolate.example_dataset None
       (Some (19, 19)%Z)
     = Ok {| Interpolate.out_time := [];
             Interpolate.out_vars := [("t2m", []); ("d2m", [])] |}.
Proof.
  split; [lia|].
  exact (proj2 (ERA2station_empty_range Z Z Interpolate.example_regrid
                  Interpolate.example_skip Interpolate.example_dataset None
                  3 ltac:(lia)) 19%Z 19%Z ltac:(lia)).
Defined.

Lemma map_fst_filter (A : Type) (p : string -> bool)
    (l : list (string * A)) :
  map (fun kv => fst kv) (filter (fun kv => p (fst kv)) l)
  = filter p (map fst l).
Proof.
  induction l as [|[k v] l IH]; simpl; auto.
  destruct (p k); simpl; now rewrite IH.
Qed.

(** X8.  For a well-formed dataset and [cs >= 1], [ERA2station] completes
    and the time axis of the station file is strictly increasing and holds
    exactly the time stamps of the input that lie in the range: from
    [date['beg']] on and strictly before [date['end']], or before the year
    3000 when no range is given.  The variables are those of the input
    that [variables_skip] does not skip, in the order of the input, each
    with one row per time stamp. *)
Theorem ERA2station_selected_times :
  forall (grid_row station_row : Type) (regrid : grid_row -> station_row)
         (variables_skip : string -> bool)
         (ncf_in : Interpolate.dataset grid_row)
         (variables : option (list string)) (date : option (Z * Z))
         (cs : nat),
  1 <= cs ->
  Interpolate.well_formed ncf_in ->
  exists s : Interpolate.station_file station_row,
    Interpolate.ERA2station regrid variables_skip cs ncf_in variables date
    = Ok s
    /\ StronglySorted Z.lt (Interpolate.out_time s)
    /\ (forall t,
          In t (Interpolate.out_time s)
          <-> In t (Interpolate.nctime ncf_in)
              /\ match date with
                 | Some (dbeg, dend) => (dbeg <= t < dend)%Z
                 | None => (t < Interpolate.datetime_3000)%Z
                 end)
    /\ map fst (Interpolate.out_vars s)
       = filter (fun var => negb (variables_skip var))
           (map fst (Interpolate.ncvars ncf_in))
    /\ Forall (fun kv => length (snd kv) = length (Interpolate.out_time s))
         (Interpolate.out_vars s).
Proof.
  intros grid_row station_row regrid variables_skip ncf_in variables date cs
    Hcs Hwf.
  exists (Interpolate.whole_range regrid variables_skip ncf_in date).
  split; [now apply ERA2station_whole_range|].
  destruct Hwf as (Hs & _ & Hrect).
  unfold Interpolate.whole_range;
    cbn [Interpolate.out_time Interpolate.out_vars].
  rewrite time_in_filter.
  split; [now apply StronglySorted_filter|].
  split.
  { intros t. rewrite filter_In. unfold Interpolate.in_range.
    destruct date as [[dbeg dend]|].
    - rewrite andb_true_iff. split; intros [H1 H2]; split; auto; lia.
    - split; intros [H1 H2]; split; auto; lia. }
  split.
  { rewrite map_map. cbn [fst].
    apply (map_fst_filter _ (fun var => negb (variables_skip var))). }
  apply Forall_forall. intros kv' Hin. apply in_map_iff in Hin.
  destruct Hin as (kv & <- & Hin). apply filter_In in Hin. cbn [snd].
  rewrite Forall_forall in Hrect. rewrite !length_map.
  rewrite <- (time_in_filter _ ncf_in date).
  apply length_restricted. apply Hrect, Hin.
Qed.

Lemma ERA2station_selected_times_witness :
  1 <= 3
  /\ Interpolate.well_formed Interpolate.example_dataset
  /\ exists s : Interpolate.station_file Z,
       Interpolate.ERA2station Interpolate.example_regrid
         Interpolate.example_skip 3 Interpolate.example_dataset None
         (Some (13, 25)%Z) = Ok s
       /\ (forall t,
             In t (Interpolate.out_time s)
             <-> In t (Interpolate.nctime Interpolate.example_dataset)
                 /\ (13 <= t < 25)%Z).
Proof.
  split; [lia|]. split; [exact example_dataset_well_formed|].
  destruct (ERA2station_selected_times Z Z Interpolate.example_regrid
              Interpolate.example_skip Interpolate.example_dataset None
              (Some (13, 25)%Z) 3 ltac:(lia) example_dataset_well_formed)
    as (s & H1 & _ & H2 & _).
  exists s. exact (conj H1 H2).
Defined.

Section RequestedVariables.

Import Interpolate.

Variables grid_row station_row : Type.
Variable regrid : grid_row -> station_row.
Variable ncf_in : dataset grid_row.
Variable mask : list bool.

Hypothesis Hwf : well_formed ncf_in.
Hypothesis Hlen : length mask = length (nctime ncf_in).

Local Abbreviation read :=
  (fun var : string => rows <- lookup var (ncvars ncf_in) ;;
                       bool_index rows mask).

Lemma lookup_In (A : Type) (k : string) (d : list (string * A)) :
  In k (map fst d) -> exists a, lookup k d = Ok a /\ In (k, a) d.
Proof.
  induction d as [|[k' a'] d IH]; simpl; [tauto|].
  destruct (String.eqb_spec k k') as [->|Hne].
  - intros _. exists a'. auto.
  - intros [E|H]; [congruence|].
    destruct (IH H) as (a & H1 & H2). eauto.
Qed.

Lemma lookup_not_In (A : Type) (k : string) (d : list (string * A)) :
  ~ In k (map fst d) -> lookup k d = Raise (KeyError k).
Proof.
  induction d as [|[k' a'] d IH]; simpl; auto.
  intros H. destruct (String.eqb_spec k k') as [->|Hne]; [tauto|].
  apply IH. tauto.
Qed.

Lemma read_present (var : string) :
  In var (map fst (ncvars ncf_in)) ->
  exists rows, read var = Ok rows /\ length rows = mask_sum mask.
Proof.
  intros H. destruct (lookup_In _ _ _ H) as (rows & E & Hin).
  destruct Hwf as (_ & _ & Hrect). rewrite Forall_forall in Hrect.
  specialize (Hrect _ Hin). cbn [snd] in Hrect.
  exists (compress mask rows). rewrite E. cbn [bind]. unfold bool_index.
  rewrite Hrect, Hlen, Nat.eqb_refl. split; auto.
  symmetry. apply mask_sum_compress. congruence.
Qed.

Lemma mapM_read_present (vs : list string) :
  Forall (fun var => In var (map fst (ncvars ncf_in))) vs ->
  exists sfield,
    mapM read vs = Ok sfield /\ length sfield = length vs
    /\ Forall (fun rows => length rows = mask_sum mask) sfield.
Proof.
  induction 1 as [|v vs Hv _ (sfield & E & L & F)].
  - exists []. simpl. auto.
  - destruct (read_present v Hv) as (rows & Er & Lr).
    exists (rows :: sfield). cbn [mapM]. rewrite Er. cbn [bind].
    rewrite E. cbn [bind]. simpl. auto.
Qed.

Lemma mapM_read_missing (l1 l2 : list string) (v : string) :
  Forall (fun var => In var (map fst (ncvars ncf_in))) l1 ->
  ~ In v (map fst (ncvars ncf_in)) ->
  mapM read (l1 ++ v :: l2) = Raise (KeyError v).
Proof.
  induction 1 as [|x l1 Hx _ IH]; intros Hv.
  - cbn [app mapM]. rewrite (lookup_not_In _ _ _ Hv). reflexivity.
  - destruct (read_present x Hx) as (rows & Er & _).
    cbn [app mapM]. rewrite Er. cbn [bind]. rewrite (IH Hv). reflexivity.
Qed.

End RequestedVariables.

(** X9.  [ERAinterp2D] called with a list of variables, on a well-formed
    dataset and a mask that selects at least one time step: when every
    requested name is a data variable of the file, the result holds the
    requested variables in the requested order, one field per variable
    with one row per selected time step; otherwise the call raises
    [KeyError] for the first requested name that is no variable of the
    file (the names of the coordinate variables, which the file has, set
    aside). *)
Theorem ERAinterp2D_requested_variables :
  forall (grid_row station_row : Type) (regrid : grid_row -> station_row)
         (ncf_in : Interpolate.dataset grid_row) (mask : list bool)
         (variables : list string),
  Interpolate.well_formed ncf_in ->
  length mask = length (Interpolate.nctime ncf_in) ->
  mask_sum mask <> 0 ->
  (Forall (fun var => In var (map fst (Interpolate.ncvars ncf_in)))
     variables ->
   exists dfield : list (list station_row),
     Interpolate.ERAinterp2D regrid ncf_in mask (Some variables)
     = Ok (dfield, variables)
     /\ length dfield = length variables
     /\ Forall (fun rows => length rows = mask_sum mask) dfield)
  /\ (forall l1 v l2,
        variables = l1 ++ v :: l2 ->
        Forall (fun var => In var (map fst (Interpolate.ncvars ncf_in))) l1 ->
        ~ In v ["time"; "latitude"; "longitude"; "level"] ->
        ~ In v (map fst (Interpolate.ncvars ncf_in)) ->
        Interpolate.ERAinterp2D regrid ncf_in mask (Some variables)
        = Raise (KeyError v)).
Proof.
  intros grid_row station_row regrid ncf_in mask variables Hwf Hlen Hsum.
  unfold Interpolate.ERAinterp2D.
  destruct (Nat.eqb_spec (mask_sum mask) 0) as [E|_]; [contradiction|].
  unfold set_eq_int. rewrite andb_false_r. split.
  - intros Hall.
    destruct (mapM_read_present _ ncf_in mask Hwf Hlen variables Hall)
      as (sfield & E & L & F).
    exists (map (map regrid) sfield). rewrite E. cbn [bind].
    split; [reflexivity|]. split; [now rewrite length_map|].
    apply Forall_forall. intros rows Hin. apply in_map_iff in Hin.
    destruct Hin as (r & <- & Hin). rewrite length_map.
    rewrite Forall_forall in F. now apply F.
  - intros l1 v l2 -> Hl1 _ Hv.
    now rewrite (mapM_read_missing _ ncf_in mask Hwf Hlen l1 l2 v Hl1 Hv).
Qed.

Lemma ERAinterp2D_requested_variables_witness :
  Interpolate.well_formed Interpolate.example_dataset
  /\ length [false; true; true; false; false; false; false]
     = length (Interpolate.nctime Interpolate.example_dataset)
  /\ mask_sum [false; true; true; false; false; false; false] <> 0
  /\ Interpolate.ERAinterp2D Interpolate.example_regrid
       Interpolate.example_dataset
       [false; true; true; false; false; false; false]
       (Some ["d2m"; "v10"; "t2m"])
     = Raise (KeyError "v10").
Proof.
  split; [exact example_dataset_well_formed|]. split; [reflexivity|].
  split; [discriminate|].
  refine (proj2 (ERAinterp2D_requested_variables Z Z
                   Interpolate.example_regrid Interpolate.example_dataset
                   [false; true; true; false; false; false; false]
                   ["d2m"; "v10"; "t2m"] example_dataset_well_formed
                   eq_refl ltac:(discriminate))
            ["d2m"] "v10" ["t2m"] eq_refl _ _ _).
  - constructor; [right; left; reflexivity | constructor].
  - simpl. intros [H|[H|[H|[H|[]]]]]; discriminate.
  - simpl. intros [H|[H|[]]]; discriminate.
Defined.


(** * levels2elevation: every station height *)

Section StationValue.

Local Open Scope Q_scope.

Variables (nl : nat) (h : Q) (zn data : list (list Q)) (t : nat).
Hypothesis Hzn : Levels.rectangular nl zn.
Hypothesis Hdata : Levels.rectangular nl data.
Hypothesis Hlen : length data = length zn.
Hypothesis Ht : (t < length zn)%nat.
Hypothesis Hnl : (0 < nl)%nat.

Local Abbreviation zrow := (nth t zn []).
Local Abbreviation xrow := (nth t data []).
Local Abbreviation d := (Levels.dele_row h (nth t zn [])).
Local Abbreviation above :=
  (Levels.above_level (Levels.dele_row h (nth t zn []))).
Local Abbreviation below :=
  (Levels.below_level nl (Levels.dele_row h (nth t zn []))).

Lemma zrow_length : length zrow = nl.
Proof using Hzn Ht.
  unfold Levels.rectangular in Hzn. rewrite Forall_forall in Hzn.
  apply Hzn, nth_In, Ht.
Qed.

Lemma d_length : length d = nl.
Proof using Hzn Ht.
  unfold Levels.dele_row, Levels.ele_row. rewrite !length_map.
  apply zrow_length.
Qed.

Lemma above_lt : (above < nl)%nat.
Proof using Hzn Ht Hnl.
  clear Hdata Hlen. rewrite <- d_length. apply above_level_lt.
  pose proof d_length. destruct d; simpl in *; [lia|discriminate].
Qed.

Lemma below_lt : (below < nl)%nat.
Proof using Hzn Ht Hnl. apply below_level_lt; [apply d_length | exact Hnl]. Qed.

Lemma below_cases : below = above \/ below = S above.
Proof using Type.
  clear. unfold Levels.below_level.
  destruct (Nat.ltb above (nl - 1)); simpl; lia.
Qed.

(** The value written at time step [t]. *)
Lemma station_value :
  exists out,
    Levels.levels2elevation_station nl h zn data = Ok out
    /\ length out = length zn
    /\ nth_error out t = Some (Levels.interp_row nl h zrow xrow).
Proof.
  eexists. split; [apply levels2elevation_station_rows; assumption|].
  split.
  - now rewrite length_map, length_combine, length_seq, Nat.min_id.
  - now rewrite station_rows_nth by assumption.
Qed.

(** The value of one time step: not a number when both distances are 0,
    the weighted mean of the two levels otherwise. *)
Lemma interp_row_cases :
  let A := Qabs (nth below d 0) in
  let B := Qabs (nth above d 0) in
  (A + B == 0 /\ Levels.interp_row nl h zrow xrow = None)
  \/ (0 < A + B
      /\ Levels.interp_row nl h zrow xrow
         = Some (nth above xrow 0 * (A / (A + B))
                 + nth below xrow 0 * (B / (A + B)))).
Proof using Type.
  clear. intros A B.
  unfold Levels.interp_row, Levels.weight_above, Levels.weight_below.
  cbv zeta. fold A B. unfold Levels.np_div.
  destruct (Qeq_bool (A + B) 0) eqn:E.
  - left. apply Qeq_bool_iff in E. split; [exact E | reflexivity].
  - right. split; [|reflexivity].
    pose proof (Qabs_nonneg (nth below d 0)).
    pose proof (Qabs_nonneg (nth above d 0)).
    fold A in H. fold B in H0.
    destruct (Qeq_dec (A + B) 0) as [C|C].
    + apply Qeq_bool_iff in C. congruence.
    + lra.
Qed.

End StationValue.


Section LevelsEdges.

Local Open Scope Q_scope.

(** X10.  [levels2elevation] never extrapolates: at every time step the
    value written for a station is not a number, or it lies between the
    values of the variable at two levels of that time step, which are one
    level or two adjacent ones.  No assumption on the heights is
    made. *)
Theorem levels2elevation_never_extrapolates :
  forall (nl : nat) (h : Q) (zn data : list (list Q)) (t : nat),
  Levels.rectangular nl zn ->
  Levels.rectangular nl data ->
  length data = length zn ->
  (t < length zn)%nat ->
  (0 < nl)%nat ->
  let x := nth t data [] in
  exists (out : list (option Q)) (i j : nat),
    Levels.levels2elevation_station nl h zn data = Ok out
    /\ (i < nl)%nat /\ (j < nl)%nat /\ (j = i \/ j = S i)
    /\ (nth_error out t = Some None
        \/ exists v, nth_error out t = Some (Some v)
                     /\ ((nth i x 0 <= v <= nth j x 0)
                         \/ (nth j x 0 <= v <= nth i x 0))).
Proof.
  intros nl h zn data t Hzn Hdata Hlen Ht Hnl x.
  destruct (station_value nl h zn data t Hzn Hdata Hlen Ht Hnl)
    as (out & Hout & _ & Hv).
  exists out, (Levels.above_level (Levels.dele_row h (nth t zn []))),
    (Levels.below_level nl (Levels.dele_row h (nth t zn []))).
  split; [exact Hout|].
  split; [now apply above_lt|].
  split; [now apply below_lt|].
  split; [apply below_cases|].
  rewrite Hv.
  destruct (interp_row_cases nl h zn data t) as [[_ E]|[Hpos E]];
    rewrite E; [now left|right].
  eexists. split; [reflexivity|].
  set (A := Qabs (nth (Levels.below_level nl (Levels.dele_row h (nth t zn [])))
                    (Levels.dele_row h (nth t zn [])) 0)) in *.
  set (B := Qabs (nth (Levels.above_level (Levels.dele_row h (nth t zn [])))
                    (Levels.dele_row h (nth t zn [])) 0)) in *.
  assert (HA : 0 <= A) by apply Qabs_nonneg.
  assert (HB : 0 <= B) by apply Qabs_nonneg.
  destruct (convex_weights A B HA HB Hpos) as (Hsum & Hna & Hnb).
  apply convex_between; assumption.
Qed.


(** A station above every level: the level taken as the level above is
    the last one, the lowest. *)
Lemma above_level_highest (h : Q) (zrow : list Q) :
  (0 < length zrow)%nat ->
  Levels.decreasing (Levels.ele_row zrow) ->
  Forall (fun e => e < h) (Levels.ele_row zrow) ->
  Levels.above_level (Levels.dele_row h zrow) = (length zrow - 1)%nat.
Proof.
  intros Hnl Hdec Hall.
  assert (Hlen : length (Levels.ele_row zrow) = length zrow)
    by (unfold Levels.ele_row; now rewrite length_map).
  rewrite Forall_forall in Hall.
  assert (Hneg : forall j, (j < length zrow)%nat ->
                           nth j (Levels.ele_row zrow) 0 < h)
    by (intros j Hj; apply Hall, nth_In; lia).
  unfold Levels.above_level.
  rewrite (argmin_val_first_min _ (length zrow - 1)); auto.
  - unfold Levels.dele_row, Levels.ele_row. rewrite !length_map. lia.
  - intros j Hj. rewrite !key_nth by lia.
    pose proof (Hneg j ltac:(lia)).
    pose proof (Hneg (length zrow - 1)%nat ltac:(lia)).
    pose proof (decreasing_nth _ j (length zrow - 1) Hdec ltac:(lia)).
    rewrite !level_key_neg by lra. lra.
  - intros j Hj. unfold Levels.dele_row, Levels.ele_row in Hj.
    rewrite !length_map in Hj. lia.
Qed.

(** X11.  At a time step at which the station is above every level
    (heights decreasing along the level axis), [levels2elevation] takes the
    last level, which is the lowest one, both as the level above and as the
    level below, and writes the value of that lowest level. *)
Theorem levels2elevation_above_highest :
  forall (nl : nat) (h : Q) (zn data : list (list Q)) (t : nat),
  Levels.rectangular nl zn ->
  Levels.rectangular nl data ->
  length data = length zn ->
  (t < length zn)%nat ->
  (0 < nl)%nat ->
  let ele := Levels.ele_row (nth t zn []) in
  let x := nth t data [] in
  Levels.decreasing ele ->
  Forall (fun e => e < h) ele ->
  exists (out : list (option Q)) (v : Q),
    Levels.levels2elevation_station nl h zn data = Ok out
    /\ nth_error out t = Some (Some v)
    /\ v == nth (nl - 1) x 0.
Proof.
  intros nl h zn data t Hzn Hdata Hlen Ht Hnl ele x Hdec Hall.
  pose proof (zrow_length nl zn t Hzn Ht) as Hrow.
  destruct (station_value nl h zn data t Hzn Hdata Hlen Ht Hnl)
    as (out & Hout & _ & Hv).
  assert (Ha : Levels.above_level (Levels.dele_row h (nth t zn []))
               = (nl - 1)%nat).
  { rewrite <- Hrow. apply above_level_highest; auto. lia. }
  assert (Hb : Levels.below_level nl (Levels.dele_row h (nth t zn []))
               = (nl - 1)%nat).
  { unfold Levels.below_level. rewrite Ha, Nat.ltb_irrefl. simpl. lia. }
  destruct (interp_row_cases nl h zn data t) as [[E0 _]|[Hpos E]];
    rewrite Ha, Hb in *.
  - exfalso. rewrite dele_nth in E0 by lia. fold ele in E0.
    rewrite Forall_forall in Hall.
    pose proof (Hall (nth (nl - 1) ele 0)
                  ltac:(apply nth_In; unfold ele, Levels.ele_row;
                        rewrite length_map; lia)).
    rewrite Qabs_neg in E0 by lra. lra.
  - eexists out, _. split; [exact Hout|]. split; [rewrite Hv, E; reflexivity|].
    fold x. field. lra.
Qed.

(** X12.  A station exactly at the height of a level [k] that is not the
    last one (heights decreasing along the level axis, no level more than
    100000 m below the station) gets exactly the value of level [k]. *)
Theorem levels2elevation_at_level :
  forall (nl : nat) (h : Q) (zn data : list (list Q)) (t k : nat),
  Levels.rectangular nl zn ->
  Levels.rectangular nl data ->
  length data = length zn ->
  (t < length zn)%nat ->
  let ele := Levels.ele_row (nth t zn []) in
  let x := nth t data [] in
  Levels.decreasing ele ->
  (S k < nl)%nat ->
  nth k ele 0 == h ->
  Forall (fun e => h - e <= 100000) ele ->
  exists (out : list (option Q)) (v : Q),
    Levels.levels2elevation_station nl h zn data = Ok out
    /\ nth_error out t = Some (Some v)
    /\ v == nth k x 0.
Proof.
  intros nl h zn data t k Hzn Hdata Hlen Ht ele x Hdec Hk Hh Hspan.
  assert (Hnl : (0 < nl)%nat) by lia.
  pose proof (zrow_length nl zn t Hzn Ht) as Hrow.
  assert (Hel : length ele = nl)
    by (unfold ele, Levels.ele_row; now rewrite length_map).
  destruct (station_value nl h zn data t Hzn Hdata Hlen Ht Hnl)
    as (out & Hout & _ & Hv).
  assert (Ha : Levels.above_level (Levels.dele_row h (nth t zn [])) = k).
  { unfold Levels.above_level.
    rewrite (argmin_val_first_min _ k); auto.
    - unfold Levels.dele_row, Levels.ele_row. rewrite !length_map. lia.
    - intros j Hj. rewrite !key_nth by lia. fold ele.
      pose proof (decreasing_nth _ j k Hdec ltac:(lia)).
      rewrite !level_key_nonneg by lra. lra.
    - intros j Hj. unfold Levels.dele_row, Levels.ele_row in Hj.
      rewrite !length_map in Hj. rewrite !key_nth by lia. fold ele.
      pose proof (decreasing_nth _ k j Hdec ltac:(lia)).
      rewrite Forall_forall in Hspan.
      specialize (Hspan (nth j ele 0) ltac:(apply nth_In; lia)).
      rewrite level_key_nonneg by lra. rewrite level_key_neg by lra. lra. }
  assert (Hb : Levels.below_level nl (Levels.dele_row h (nth t zn [])) = S k).
  { unfold Levels.below_level. rewrite Ha.
    destruct (Nat.ltb_spec k (nl - 1)); simpl; lia. }
  pose proof (decreasing_nth _ k (S k) Hdec ltac:(lia)) as Hlow.
  assert (HB : Qabs (nth k (Levels.dele_row h (nth t zn [])) 0) == 0).
  { rewrite dele_nth by lia. fold ele. rewrite Qabs_pos; lra. }
  assert (HA : 0 < Qabs (nth (S k) (Levels.dele_row h (nth t zn [])) 0)).
  { rewrite dele_nth by lia. fold ele. rewrite Qabs_neg; lra. }
  destruct (interp_row_cases nl h zn data t) as [[E0 _]|[Hpos E]];
    rewrite Ha, Hb in *.
  - exfalso. lra.
  - eexists out, _. split; [exact Hout|]. split; [rewrite Hv, E; reflexivity|].
    fold x. rewrite HB. field. lra.
Qed.

Lemma Qabs_zero (x : Q) : Qabs x == 0 -> x == 0.
Proof. apply Qabs_case; intros; lra. Qed.

(** X13.  With heights that decrease along the level axis, the value
    written at a time step is not a number exactly when the station is at
    the height of the last level: the division 0 / 0 of the weights occurs
    there and nowhere else. *)
Theorem levels2elevation_nan_only_at_lowest_level :
  forall (nl : nat) (h : Q) (zn data : list (list Q)) (t : nat),
  Levels.rectangular nl zn ->
  Levels.rectangular nl data ->
  length data = length zn ->
  (t < length zn)%nat ->
  (0 < nl)%nat ->
  let ele := Levels.ele_row (nth t zn []) in
  Levels.decreasing ele ->
  exists out : list (option Q),
    Levels.levels2elevation_station nl h zn data = Ok out
    /\ (nth_error out t = Some None <-> nth (nl - 1) ele 0 == h).
Proof.
  intros nl h zn data t Hzn Hdata Hlen Ht Hnl ele Hdec.
  pose proof (zrow_length nl zn t Hzn Ht) as Hrow.
  assert (Hel : length ele = nl)
    by (unfold ele, Levels.ele_row; now rewrite length_map).
  destruct (station_value nl h zn data t Hzn Hdata Hlen Ht Hnl)
    as (out & Hout & _ & Hv).
  exists out. split; [exact Hout|]. split.
  - intros Hnone. rewrite Hv in Hnone. injection Hnone as Hnone.
    pose proof (above_lt nl h zn t Hzn Ht Hnl) as Hal.
    destruct (interp_row_cases nl h zn data t) as [[E0 _]|[_ E]];
      [|congruence].
    pose proof (Qabs_nonneg
                  (nth (Levels.below_level nl
                          (Levels.dele_row h (nth t zn [])))
                     (Levels.dele_row h (nth t zn [])) 0)) as HA.
    pose proof (Qabs_nonneg
                  (nth (Levels.above_level (Levels.dele_row h (nth t zn [])))
                     (Levels.dele_row h (nth t zn [])) 0)) as HB.
    set (a := Levels.above_level (Levels.dele_row h (nth t zn []))) in *.
    assert (Eb : Qabs (nth a (Levels.dele_row h (nth t zn [])) 0) == 0)
      by lra.
    assert (Ea : Qabs (nth (Levels.below_level nl
                              (Levels.dele_row h (nth t zn [])))
                         (Levels.dele_row h (nth t zn [])) 0) == 0)
      by lra.
    unfold Levels.below_level in Ea. fold a in Ea.
    destruct (Nat.ltb a (nl - 1)) eqn:Hlt;
      [apply Nat.ltb_lt in Hlt | apply Nat.ltb_ge in Hlt].
    + exfalso. cbn [Levels.bool_to_nat] in Ea.
      rewrite dele_nth in Ea, Eb by lia. fold ele in Ea, Eb.
      pose proof (decreasing_nth _ a (a + 1) Hdec ltac:(lia)) as Hd.
      apply Qabs_zero in Ea. apply Qabs_zero in Eb.
      lra.
    + replace (nl - 1)%nat with a by lia.
      rewrite dele_nth in Eb by lia. fold ele in Eb.
      apply Qabs_zero in Eb. lra.
  - intros Hh.
    destruct (levels2elevation_station_at_lowest nl h zn data t Hzn Hdata
                Hlen Ht Hnl Hh) as (out' & Hout' & Hn).
    + intros j Hj. apply decreasing_nth; auto. unfold ele in Hel |- *. lia.
    + rewrite Hout in Hout'. injection Hout' as <-. exact Hn.
Qed.

End LevelsEdges.

Section LevelsWitnesses.

Local Open Scope Q_scope.

Lemma example_row_decreasing :
  Levels.decreasing (Levels.ele_row (nth 1 Levels.example_zn [])).
Proof. repeat constructor; reflexivity. Defined.

Lemma levels2elevation_never_extrapolates_witness :
  Levels.rectangular 3 Levels.example_zn
  /\ Levels.rectangular 3 Levels.example_t
  /\ length Levels.example_t = length Levels.example_zn
  /\ (1 < length Levels.example_zn)%nat
  /\ (0 < 3)%nat
  /\ exists (out : list (option Q)) (i j : nat),
       Levels.levels2elevation_station 3 150 Levels.example_zn
         Levels.example_t = Ok out
       /\ (i < 3)%nat /\ (j < 3)%nat /\ (j = i \/ j = S i)
       /\ (nth_error out 1 = Some None
           \/ exists v, nth_error out 1 = Some (Some v)
                        /\ ((nth i (nth 1 Levels.example_t []) 0 <= v
                             <= nth j (nth 1 Levels.example_t []) 0)
                            \/ (nth j (nth 1 Levels.example_t []) 0 <= v
                                <= nth i (nth 1 Levels.example_t []) 0))).
Proof.
  repeat (split; [first [ exact example_zn_rectangular
                        | exact example_t_rectangular
                        | reflexivity | simpl; lia ] |]).
  exact (levels2elevation_never_extrapolates 3 150 Levels.example_zn
           Levels.example_t 1 example_zn_rectangular example_t_rectangular
           eq_refl ltac:(simpl; lia) ltac:(lia)).
Defined.

Lemma levels2elevation_above_highest_witness :
  Levels.rectangular 3 Levels.example_zn
  /\ Levels.rectangular 3 Levels.example_t
  /\ length Levels.example_t = length Levels.example_zn
  /\ (1 < length Levels.example_zn)%nat
  /\ (0 < 3)%nat
  /\ Levels.decreasing (Levels.ele_row (nth 1 Levels.example_zn []))
  /\ Forall (fun e => e < 400) (Levels.ele_row (nth 1 Levels.example_zn []))
  /\ exists (out : list (option Q)) (v : Q),
       Levels.levels2elevation_station 3 400 Levels.example_zn
         Levels.example_t = Ok out
       /\ nth_error out 1 = Some (Some v)
       /\ v == 281.
Proof.
  assert (Hall : Forall (fun e => e < 400)
                   (Levels.ele_row (nth 1 Levels.example_zn []))).
  { repeat constructor; reflexivity. }
  repeat (split; [first [ exact example_zn_rectangular
                        | exact example_t_rectangular
                        | exact example_row_decreasing
                        | exact Hall
                        | reflexivity | simpl; lia ] |]).
  exact (levels2elevation_above_highest 3 400 Levels.example_zn
           Levels.example_t 1 example_zn_rectangular example_t_rectangular
           eq_refl ltac:(simpl; lia) ltac:(lia) example_row_decreasing Hall).
Defined.

Lemma levels2elevation_at_level_witness :
  Levels.rectangular 3 Levels.example_zn
  /\ Levels.rectangular 3 Levels.example_t
  /\ length Levels.example_t = length Levels.example_zn
  /\ (1 < length Levels.example_zn)%nat
  /\ Levels.decreasing (Levels.ele_row (nth 1 Levels.example_zn []))
  /\ (2 < 3)%nat
  /\ nth 1 (Levels.ele_row (nth 1 Levels.example_zn [])) 0 == 210
  /\ Forall (fun e => 210 - e <= 100000)
       (Levels.ele_row (nth 1 Levels.example_zn []))
  /\ exists (out : list (option Q)) (v : Q),
       Levels.levels2elevation_station 3 210 Levels.example_zn
         Levels.example_t = Ok out
       /\ nth_error out 1 = Some (Some v)
       /\ v == 276.
Proof.
  assert (Hspan : Forall (fun e => 210 - e <= 100000)
                    (Levels.ele_row (nth 1 Levels.example_zn []))).
  { repeat constructor; discriminate. }
  assert (Hh : nth 1 (Levels.ele_row (nth 1 Levels.example_zn [])) 0 == 210)
    by reflexivity.
  repeat (split; [first [ exact example_zn_rectangular
                        | exact example_t_rectangular
                        | exact example_row_decreasing
                        | exact Hspan | exact Hh
                        | reflexivity | simpl; lia ] |]).
  exact (levels2elevation_at_level 3 210 Levels.example_zn
           Levels.example_t 1 1 example_zn_rectangular example_t_rectangular
           eq_refl ltac:(simpl; lia) example_row_decreasing ltac:(lia) Hh
           Hspan).
Defined.

Lemma levels2elevation_nan_only_at_lowest_level_witness :
  Levels.rectangular 3 Levels.example_zn
  /\ Levels.rectangular 3 Levels.example_t
  /\ length Levels.example_t = length Levels.example_zn
  /\ (1 < length Levels.example_zn)%nat
  /\ (0 < 3)%nat
  /\ Levels.decreasing (Levels.ele_row (nth 1 Levels.example_zn []))
  /\ exists out : list (option Q),
       Levels.levels2elevation_station 3 110 Levels.example_zn
         Levels.example_t = Ok out
       /\ (nth_error out 1 = Some None
           <-> nth (3 - 1) (Levels.ele_row (nth 1 Levels.example_zn [])) 0
               == 110).
Proof.
  repeat (split; [first [ exact example_zn_rectangular
                        | exact example_t_rectangular
                        | exact example_row_decreasing
                        | reflexivity | simpl; lia ] |]).
  exact (levels2elevation_nan_only_at_lowest_level 3 110 Levels.example_zn
           Levels.example_t 1 example_zn_rectangular example_t_rectangular
           eq_refl ltac:(simpl; lia) ltac:(lia) example_row_decreasing).
Defined.

End LevelsWitnesses.

(** * levels2elevation: the loop over the stations *)

Section LevelsFile.

Local Open Scope Q_scope.

Lemma mapM_raise_head (A B : Type) (f : A -> result B) (a : A) (l : list A)
    (e : exn) :
  f a = Raise e -> mapM f (a :: l) = Raise e.
Proof. intros H. simpl. now rewrite H. Qed.

Lemma station_slice_ok (nt nl ns n : nat) (a : list (list (list Q))) :
  shaped nt nl ns a -> (n < ns)%nat ->
  Levels.station_slice n a
  = Ok (map (map (fun lev => nth n lev 0)) a).
Proof.
  intros [_ H] Hn. unfold Levels.station_slice.
  apply mapM_ok_map. intros step Hstep.
  rewrite Forall_forall in H. destruct (H step Hstep) as [_ Hlev].
  apply mapM_ok_map. intros lev Hin.
  rewrite Forall_forall in Hlev. apply getitem_nth.
  rewrite (Hlev lev Hin). exact Hn.
Qed.

Lemma station_slice_shape (nt nl ns n : nat) (a : list (list (list Q))) :
  shaped nt nl ns a ->
  Levels.rectangular nl (map (map (fun lev => nth n lev 0)) a)
  /\ length (map (map (fun lev => nth n lev 0)) a) = nt.
Proof.
  intros [Hl H]. split; [|now rewrite length_map].
  unfold Levels.rectangular. apply Forall_forall. intros row Hrow.
  apply in_map_iff in Hrow. destruct Hrow as (step & <- & Hstep).
  rewrite Forall_forall in H. rewrite length_map. apply (H step Hstep).
Qed.

Lemma repeat_rectangular (nl nt : nat) (level : list Q) :
  length level = nl -> Levels.rectangular nl (repeat level nt).
Proof.
  intros H. unfold Levels.rectangular. apply Forall_forall.
  intros row Hrow. apply repeat_spec in Hrow. now subst.
Qed.

Variable ncf : Levels.pl_file.
Hypothesis Hshape : well_shaped ncf.

Local Abbreviation nt := (length (Levels.time ncf)).
Local Abbreviation nl := (length (Levels.level ncf)).
Local Abbreviation ns := (length (Levels.height ncf)).
Local Abbreviation varlist := (map fst (Levels.plvars ncf) ++ ["air_pressure"]).

(** The data of one variable at station [n], as the loop reads it. *)
Local Abbreviation read n :=
  (fun var : string =>
     if String.eqb var "air_pressure"
     then Ok (repeat (Levels.level ncf) (length (Levels.time ncf)))
     else a <- lookup var (Levels.plvars ncf) ;; Levels.station_slice n a).

Lemma read_ok (n : nat) (var : string) :
  (n < ns)%nat -> In var varlist ->
  exists data,
    read n var = Ok data /\ Levels.rectangular nl data /\ length data = nt.
Proof.
  intros Hn Hvar. destruct Hshape as [_ Hvars].
  destruct (String.eqb var "air_pressure") eqn:E.
  - eexists. split; [reflexivity|]. split.
    + now apply repeat_rectangular.
    + apply repeat_length.
  - apply in_app_or in Hvar. destruct Hvar as [Hvar|[<-|[]]].
    2:{ rewrite String.eqb_refl in E. discriminate. }
    destruct (lookup_In _ _ _ Hvar) as (a & El & Hin).
    rewrite Forall_forall in Hvars. specialize (Hvars _ Hin).
    cbn [snd] in Hvars. rewrite El. cbn [bind].
    rewrite (station_slice_ok nt nl ns n a Hvars Hn).
    eexists. split; [reflexivity|].
    now apply (station_slice_shape nt nl ns n a).
Qed.

End LevelsFile.

Section LevelsFileClaims.

Local Open Scope Q_scope.

(** The body of the loop over stations of [levels2elevation], for the
    station [n] at height [h]. *)
Lemma levels2elevation_body (ncf : Levels.pl_file) (n : nat) (h : Q) :
  well_shaped ncf ->
  (0 < length (Levels.level ncf))%nat ->
  (n < length (Levels.height ncf))%nat ->
  let nl := length (Levels.level ncf) in
  let zn := map (map (fun lev => nth n lev 0)) (Levels.z ncf) in
  let read := fun var : string =>
    if String.eqb var "air_pressure"
    then Ok (repeat (Levels.level ncf) (length (Levels.time ncf)))
    else a <- lookup var (Levels.plvars ncf) ;; Levels.station_slice n a in
  let series := fun var : string =>
    match data <- read var ;; Levels.levels2elevation_station nl h zn data with
    | Ok s => s
    | Raise _ => []
    end in
  (zn' <- Levels.station_slice n (Levels.z ncf) ;;
   br <- Levels.station_brackets nl h zn' ;;
   mapM (fun var =>
           data <- read var ;;
           ipol <- Levels.interpolate br data ;;
           Ok (var, ipol))
     (map fst (Levels.plvars ncf) ++ ["air_pressure"]))
  = Ok (map (fun var => (var, series var))
          (map fst (Levels.plvars ncf) ++ ["air_pressure"]))
  /\ Levels.station_slice n (Levels.z ncf) = Ok zn
  /\ forall var,
       In var (map fst (Levels.plvars ncf) ++ ["air_pressure"]) ->
       exists data,
         read var = Ok data
         /\ Levels.levels2elevation_station nl h zn data = Ok (series var)
         /\ length (series var) = length (Levels.time ncf).
Proof.
  intros Hshape Hnl Hn nl zn read series.
  pose proof Hshape as [Hz _].
  pose proof (station_slice_ok _ _ _ n _ Hz Hn) as Hslice.
  destruct (station_slice_shape _ _ _ n _ Hz) as [Hrect Hlen].
  fold zn in Hslice, Hrect, Hlen. fold nl in Hrect.
  assert (Hvar : forall var,
            In var (map fst (Levels.plvars ncf) ++ ["air_pressure"]) ->
            exists data,
              read var = Ok data
              /\ Levels.levels2elevation_station nl h zn data
                 = Ok (series var)
              /\ length (series var) = length (Levels.time ncf)).
  { intros var Hin.
    destruct (read_ok ncf Hshape n var Hn Hin) as (data & Er & Hd & Hl).
    change (read var = Ok data) in Er.
    exists data. split; [exact Er|].
    pose proof (levels2elevation_station_rows nl h zn Hnl Hrect data Hd
                  ltac:(congruence)) as Hrows.
    unfold series. rewrite Er. cbn [bind]. rewrite Hrows.
    split; [reflexivity|].
    now rewrite length_map, length_combine, length_seq, Nat.min_id. }
  split; [|split; [exact Hslice | exact Hvar]].
  rewrite Hslice. cbn [bind].
  rewrite (station_brackets_rows nl h zn Hnl Hrect). cbn [bind].
  rewrite (levels2elevation_station_loop nl h zn _ read _
             (station_brackets_rows nl h zn Hnl Hrect)).
  apply mapM_ok_map. intros var Hin.
  destruct (Hvar var Hin) as (data & Er & Es & _).
  rewrite Er. cbn [bind]. rewrite Es. reflexivity.
Qed.

(** X14.  On a file whose arrays have the shape of its axes and whose
    level axis is not empty, [levels2elevation] completes.  It yields one
    entry per station, each with the variables of the file in order
    followed by [air_pressure], each series with one value per time step;
    and every series is the one that [levels2elevation_station] computes
    from the geopotential and the data of that station. *)
Theorem levels2elevation_completes :
  forall ncf : Levels.pl_file,
  well_shaped ncf ->
  (0 < length (Levels.level ncf))%nat ->
  exists out : list (list (string * list (option Q))),
    Levels.levels2elevation ncf = Ok out
    /\ length out = length (Levels.height ncf)
    /\ forall n station,
         nth_error out n = Some station ->
         map fst station = map fst (Levels.plvars ncf) ++ ["air_pressure"]
         /\ forall var series,
              In (var, series) station ->
              length series = length (Levels.time ncf)
              /\ exists zn data,
                   Levels.station_slice n (Levels.z ncf) = Ok zn
                   /\ (if String.eqb var "air_pressure"
                       then Ok (repeat (Levels.level ncf)
                                  (length (Levels.time ncf)))
                       else a <- lookup var (Levels.plvars ncf) ;;
                            Levels.station_slice n a) = Ok data
                   /\ Levels.levels2elevation_station
                        (length (Levels.level ncf))
                        (nth n (Levels.height ncf) 0) zn data = Ok series.
Proof.
  intros ncf Hshape Hnl.
  set (varlist := map fst (Levels.plvars ncf) ++ ["air_pressure"]).
  set (G := fun nh : nat * Q =>
         map (fun var : string =>
                (var,
                 match
                   data <- (if String.eqb var "air_pressure"
                            then Ok (repeat (Levels.level ncf)
                                       (length (Levels.time ncf)))
                            else a <- lookup var (Levels.plvars ncf) ;;
                                 Levels.station_slice (fst nh) a) ;;
                   Levels.levels2elevation_station
                     (length (Levels.level ncf)) (snd nh)
                     (map (map (fun lev => nth (fst nh) lev 0))
                        (Levels.z ncf)) data
                 with
                 | Ok s => s
                 | Raise _ => []
                 end)) varlist).
  assert (Hin : forall nh,
            In nh (combine (seq 0 (length (Levels.height ncf)))
                     (Levels.height ncf)) ->
            (fst nh < length (Levels.height ncf))%nat
            /\ snd nh = nth (fst nh) (Levels.height ncf) 0).
  { intros [n h] H. apply In_combine_seq in H. destruct H as [_ H].
    rewrite Nat.sub_0_r in H. cbn [fst snd]. split.
    - apply nth_error_Some. congruence.
    - symmetry. now apply nth_error_nth. }
  exists (map G (combine (seq 0 (length (Levels.height ncf)))
                   (Levels.height ncf))).
  split.
  { unfold Levels.levels2elevation. cbv zeta. apply mapM_ok_map.
    intros nh Hnh. destruct (Hin nh Hnh) as [Hn _].
    apply (levels2elevation_body ncf (fst nh) (snd nh) Hshape Hnl Hn). }
  split; [now rewrite length_map, length_combine, length_seq, Nat.min_id|].
  intros n station Hst.
  assert (Hn : (n < length (Levels.height ncf))%nat).
  { assert (H : nth_error
                  (map G (combine (seq 0 (length (Levels.height ncf)))
                            (Levels.height ncf))) n <> None) by congruence.
    apply nth_error_Some in H.
    now rewrite length_map, length_combine, length_seq, Nat.min_id in H. }
  pose proof (nth_error_nth' (Levels.height ncf) 0 Hn) as Eh.
  apply nth_error_combine_seq in Eh.
  rewrite (map_nth_error G _ _ Eh) in Hst. injection Hst as <-.
  destruct (levels2elevation_body ncf n (nth n (Levels.height ncf) 0)
              Hshape Hnl Hn) as (_ & Hslice & Hvar).
  split.
  { unfold G. rewrite map_map. cbn [fst]. apply map_id. }
  intros var series Hvs. unfold G in Hvs. apply in_map_iff in Hvs.
  destruct Hvs as (var' & E & Hvs). injection E as -> <-.
  destruct (Hvar var Hvs) as (data & Er & Es & Hl).
  split; [exact Hl|]. eexists _, data.
  split; [exact Hslice|]. split; [exact Er | exact Es].
Qed.

Lemma example_pl_file_well_shaped : well_shaped Levels.example_pl_file.
Proof.
  unfold well_shaped, shaped. simpl.
  repeat split; repeat constructor.
Defined.

Lemma levels2elevation_completes_witness :
  well_shaped Levels.example_pl_file
  /\ (0 < length (Levels.level Levels.example_pl_file))%nat
  /\ exists out : list (list (string * list (option Q))),
       Levels.levels2elevation Levels.example_pl_file = Ok out
       /\ length out = length (Levels.height Levels.example_pl_file).
Proof.
  split; [exact example_pl_file_well_shaped|]. split; [simpl; lia|].
  destruct (levels2elevation_completes Levels.example_pl_file
              example_pl_file_well_shaped ltac:(simpl; lia))
    as (out & H1 & H2 & _).
  exists out. exact (conj H1 H2).
Defined.

(** X15.  With an empty level axis, at least one station and at least one
    time step, [levels2elevation] fails with the [ValueError] of
    [np.argmin] on an empty row. *)
Theorem levels2elevation_empty_level_axis :
  forall ncf : Levels.pl_file,
  well_shaped ncf ->
  Levels.level ncf = [] ->
  Levels.height ncf <> [] ->
  Levels.time ncf <> [] ->
  Levels.levels2elevation ncf
  = Raise (ValueError "attempt to get argmin of an empty sequence").
Proof.
  intros ncf Hshape Hlev Hh Ht.
  pose proof Hshape as [Hz _]. rewrite Hlev in Hz. simpl length in Hz.
  unfold Levels.levels2elevation. cbv zeta.
  destruct (Levels.height ncf) as [|h0 hs] eqn:Eh; [congruence|].
  cbn [length seq combine]. apply mapM_raise_head. cbn [fst snd].
  rewrite (station_slice_ok _ _ _ 0 _ Hz) by (simpl; lia). cbn [bind].
  destruct Hz as [Hlen Hz].
  destruct (Levels.z ncf) as [|step zs];
    [destruct (Levels.time ncf); [congruence|discriminate]|].
  inversion Hz as [|? ? [Hstep _] _]; subst.
  destruct step; [|discriminate]. rewrite Hlev. reflexivity.
Qed.

Lemma levels2elevation_empty_level_axis_witness :
  let ncf := {| Levels.height := [150]; Levels.time := [0; 6]%Z;
                Levels.level := []; Levels.z := [[]; []];
                Levels.plvars := [("t", [[]; []])] |} in
  well_shaped ncf
  /\ Levels.level ncf = []
  /\ Levels.height ncf <> []
  /\ Levels.time ncf <> []
  /\ Levels.levels2elevation ncf
     = Raise (ValueError "attempt to get argmin of an empty sequence").
Proof.
  intros ncf.
  assert (H1 : well_shaped ncf).
  { unfold well_shaped, shaped. simpl. repeat split; repeat constructor. }
  assert (H2 : Levels.height ncf <> []) by discriminate.
  assert (H3 : Levels.time ncf <> []) by discriminate.
  split; [exact H1|]. split; [reflexivity|]. split; [exact H2|].
  split; [exact H3|].
  exact (levels2elevation_empty_level_axis ncf H1 eq_refl H2 H3).
Defined.

End LevelsFileClaims.


(** * ERAIscale.__init__: when the time axis cannot be built *)

Section TimeAxisErrors.

Local Open Scope Q_scope.

(** X16.  The time axis of [ERAIscale.__init__] needs two time steps and
    a time step that is not zero: with fewer than two time steps the read
    of [time[1]] raises [IndexError]; with a zero [par.time_step] the
    division raises [ZeroDivisionError]; otherwise the axis is built, with
    [self.time_step] the time step in seconds and [self.nt] output
    times. *)
Theorem init_time_axis_errors :
  forall (nctime : list Z) (par_time_step : Q),
  ((length nctime < 2)%nat ->
   Scale.init_time_axis nctime par_time_step = Raise IndexError)
  /\ ((2 <= length nctime)%nat -> par_time_step == 0 ->
      Scale.init_time_axis nctime par_time_step = Raise ZeroDivisionError)
  /\ ((2 <= length nctime)%nat -> ~ par_time_step == 0 ->
      exists ax,
        Scale.init_time_axis nctime par_time_step = Ok ax
        /\ Scale.time_step ax = par_time_step * 3600
        /\ length (Scale.times_out_nc ax) = Z.to_nat (Scale.nt ax)).
Proof.
  intros nctime ts. unfold Scale.init_time_axis.
  destruct nctime as [|h0 [|h1 rest]]; simpl length.
  - split; [reflexivity|]. split; intros; lia.
  - split; [reflexivity|]. split; intros; lia.
  - split; [intros; lia|]. cbn [map getitem nth_error bind].
    destruct (Qeq_bool (ts * 3600) 0) eqn:E.
    + apply Qeq_bool_iff in E. split; [reflexivity|].
      intros _ H. exfalso. apply H. lra.
    + split.
      * intros _ H. exfalso.
        assert (C : ts * 3600 == 0) by lra.
        apply Qeq_bool_iff in C. congruence.
      * intros _ _. cbn [Scale.py_max Scale.py_min bind].
        eexists. split; [reflexivity|].
        cbn [Scale.time_step Scale.times_out_nc Scale.nt].
        split; [reflexivity|]. now rewrite length_map, length_seq.
Qed.

End TimeAxisErrors.

(** * ERAIscale: what a kernel does to the scaled file *)

Section KernelFrame.

Local Open Scope Q_scope.

Variable e : Scale.engine.

Lemma set_nth_app (A : Type) (done rest : list A) (x y : A) :
  Scale.set_nth (length done) y (done ++ x :: rest)
  = Ok (done ++ y :: rest).
Proof.
  induction done as [|a done IH]; simpl; [reflexivity|].
  now rewrite IH.
Qed.

Lemma createVariable_ok (vn : string) (s s1 : Scale.scaled) :
  Scale.createVariable e vn s = Ok s1 ->
  mem vn (map fst (Scale.rg s)) = false
  /\ s1 = {| Scale.rg :=
               Scale.rg s
               ++ [(vn, repeat (repeat None (Scale.rows e))
                          (Scale.nstation e))];
             Scale.stdout := Scale.stdout s |}.
Proof.
  unfold Scale.createVariable.
  destruct (mem vn (map fst (Scale.rg s))); [discriminate|].
  intros H; injection H as <-. auto.
Qed.

(** The loop over the stations, from station [length done] on. *)
Lemma for_stations_from (vn : string)
    (column : nat -> result (list Scale.cell))
    (rg0 : list (string * list (list Scale.cell))) (out : list string) :
  mem vn (map fst rg0) = false ->
  forall (k : nat) (done rest : list (list Scale.cell)) (s' : Scale.scaled),
  length rest = k ->
  Scale.for_stations e vn column (seq (length done) k)
    {| Scale.rg := rg0 ++ [(vn, done ++ rest)]; Scale.stdout := out |}
  = Ok s' ->
  exists cols,
    Scale.rg s' = rg0 ++ [(vn, done ++ cols)]
    /\ Scale.stdout s' = out
    /\ Forall2 (fun n col => column n = Ok col /\ length col = Scale.rows e)
         (seq (length done) k) cols.
Proof.
  intros Hnew. induction k as [|k IH]; intros done rest s' Hrest H.
  - destruct rest; [|discriminate]. simpl in H. injection H as <-.
    exists []. cbn [Scale.rg Scale.stdout]. repeat split; constructor.
  - destruct rest as [|x rest]; [discriminate|]. injection Hrest as Hrest.
    cbn [seq Scale.for_stations] in H.
    destruct (column (length done)) as [col|] eqn:Ec; [|discriminate].
    cbn [bind] in H. unfold Scale.set_column in H. cbn [Scale.rg] in H.
    destruct (Nat.eqb_spec (length col) (Scale.rows e)) as [Hc|];
      [|discriminate]. cbn [negb] in H.
    rewrite (update_app_new _ vn _ _ (done ++ col :: rest) rg0 Hnew
               (set_nth_app _ done rest x col)) in H.
    cbn [bind Scale.stdout] in H.
    replace (done ++ col :: rest) with ((done ++ [col]) ++ rest) in H
      by (now rewrite <- app_assoc).
    replace (S (length done)) with (length (done ++ [col])) in H
      by (rewrite length_app; simpl; lia).
    destruct (IH _ _ _ Hrest H) as (cols & H1 & H2 & H3).
    exists (col :: cols). rewrite <- app_assoc in H1. split; [exact H1|].
    split; [exact H2|]. constructor; [auto|].
    replace (S (length done)) with (length (done ++ [col]))
      by (rewrite length_app; simpl; lia).
    exact H3.
Qed.

(** A kernel that creates [vn] and fills it station by station. *)
Lemma stations_kernel (vn : string)
    (column : nat -> result (list Scale.cell)) (s s1 s' : Scale.scaled) :
  Scale.createVariable e vn s = Ok s1 ->
  Scale.for_stations e vn column (seq 0 (Scale.nstation e)) s1 = Ok s' ->
  mem vn (map fst (Scale.rg s)) = false
  /\ exists cols,
       Scale.rg s' = Scale.rg s ++ [(vn, cols)]
       /\ Scale.stdout s' = Scale.stdout s
       /\ Forall2 (fun n col => column n = Ok col
                                /\ length col = Scale.rows e)
            (seq 0 (Scale.nstation e)) cols.
Proof.
  intros Hc Hf. apply createVariable_ok in Hc. destruct Hc as [Hnew ->].
  split; [exact Hnew|].
  apply (for_stations_from vn column (Scale.rg s) (Scale.stdout s) Hnew
           (Scale.nstation e) [] _ s' (repeat_length _ _) Hf).
Qed.

Lemma Forall2_length_r (A B : Type) (R : A -> B -> Prop) (l : list A)
    (l' : list B) :
  Forall2 R l l' -> length l' = length l.
Proof. induction 1; simpl; congruence. Qed.

Lemma Forall2_Forall_r (A B : Type) (R : A -> B -> Prop) (P : B -> Prop)
    (l : list A) (l' : list B) :
  Forall2 R l l' -> (forall a b, R a b -> P b) -> Forall P l'.
Proof. induction 1; intros H'; constructor; eauto. Qed.

End KernelFrame.

Section KernelOutcome.

Local Open Scope Q_scope.

Variable si : list Q -> list Q -> list Q -> list Q.
Variable reset : nat.
Variable irr :
  Scale.kernel -> Scale.engine -> Scale.scaled -> result Scale.scaled.
Variable e : Scale.engine.

Local Abbreviation appended vn s s' :=
  (mem vn (map fst (Scale.rg s)) = false
   /\ exists cols,
        Scale.rg s' = Scale.rg s ++ [(vn, cols)]
        /\ length cols = Scale.nstation e
        /\ Forall (fun col : list Scale.cell => length col = Scale.rows e)
             cols
        /\ Scale.stdout s' = Scale.stdout s).

Lemma stations_kernel_appended (vn : string)
    (column : nat -> result (list Scale.cell)) (s s1 s' : Scale.scaled) :
  Scale.createVariable e vn s = Ok s1 ->
  Scale.for_stations e vn column (seq 0 (Scale.nstation e)) s1 = Ok s' ->
  appended vn s s'.
Proof.
  intros Hc Hf.
  destruct (stations_kernel e vn column s s1 s' Hc Hf)
    as (Hnew & cols & H1 & H2 & H3).
  split; [exact Hnew|]. exists cols. split; [exact H1|].
  split; [rewrite (Forall2_length_r _ _ _ _ _ H3); apply length_seq|].
  split; [|exact H2].
  apply (Forall2_Forall_r _ _ _ _ _ _ H3). intros n col [_ H]. exact H.
Qed.

Lemma run_RH_per_sur_outcome (s s' : Scale.scaled) :
  Scale.run_RH_per_sur si e s = Ok s' ->
  mem "RH_ERAI_per_sur" (map fst (Scale.rg s)) = false
  /\ exists airt rh,
       lookup "AIRT_ERAI_C_sur" (Scale.rg s) = Ok airt
       /\ Scale.rg s' = Scale.rg s ++ [("RH_ERAI_per_sur", rh)]
       /\ length rh = Scale.nstation e
       /\ Forall (fun col => length col = Scale.rows e) rh
       /\ Scale.stdout s' = Scale.stdout s
       /\ (Forall (Forall (fun c => c <> None)) airt ->
           Forall (Forall (fun c => exists q, c = Some q
                                              /\ 1 # 10 <= q <= 999 # 10))
             rh).
Proof.
  intros H. unfold Scale.run_RH_per_sur in H.
  destruct (lookup "d2m" _) as [values|]; simpl in H; [|discriminate].
  destruct (mapM _ (seq 0 (Scale.nstation e))) as [dewp|]; simpl in H;
    [|discriminate].
  destruct (Scale.createVariable e "RH_ERAI_per_sur" s) as [s1|] eqn:Hc;
    [|discriminate].
  apply createVariable_ok in Hc. destruct Hc as [Hnew ->].
  cbn [bind Scale.rg] in H.
  destruct (lookup "AIRT_ERAI_C_sur" _) as [airt|] eqn:Ha; simpl in H;
    [|discriminate].
  apply lookup_app_other in Ha; [|reflexivity].
  destruct (Scale.broadcast2 _ airt dewp) as [RH0|] eqn:Hb; simpl in H;
    [|discriminate].
  destruct (mapM (fun c => c) RH0) as [RH|] eqn:Hm; simpl in H;
    [|discriminate].
  unfold Scale.set_all in H.
  destruct (Nat.eqb (length RH) (Scale.nstation e)
            && forallb (fun col => Nat.eqb (length col) (Scale.rows e)) RH)
    eqn:Hshape; [|discriminate].
  cbn [negb Scale.rg Scale.stdout] in H.
  match type of H with
  | context [Scale.update ?k ?f ?d] =>
      assert (U : Scale.update k f d = Ok (Scale.rg s ++ [(k, RH)]))
        by (apply update_app_new; [exact Hnew | reflexivity]);
      rewrite U in H
  end.
  cbn [bind] in H. injection H as <-. cbn [Scale.rg Scale.stdout].
  apply andb_true_iff in Hshape. destruct Hshape as [Hl Hf].
  split; [exact Hnew|]. exists airt, RH. split; [exact Ha|].
  split; [reflexivity|]. split; [now apply Nat.eqb_eq|].
  split.
  { apply Forall_forall. intros col Hcol.
    rewrite forallb_forall in Hf. apply Nat.eqb_eq. now apply Hf. }
  split; [reflexivity|].
  intros Hfin.
  apply (mapM_id_Forall _ _ _ _ Hm).
  apply (broadcast2_Forall _ _ _ _ _ _ _ _ Hb).
  intros col d Hcol _ x Hx.
  apply (broadcast2_Forall _ _ _ _ _ _ _ _ Hx).
  intros t dp Ht _. apply RH_cell_bounds.
  rewrite Forall_forall in Hfin. specialize (Hfin col Hcol).
  rewrite Forall_forall in Hfin. now apply Hfin.
Qed.

Lemma run_AIRT_C_sur_outcome (s s' : Scale.scaled) :
  Scale.run_AIRT_C_sur si e s = Ok s' ->
  exists cols,
    Scale.rg s' = Scale.rg s ++ [("AIRT_ERAI_C_sur", cols)]
    /\ Forall (Forall (fun c : Scale.cell => c <> None)) cols.
Proof.
  intros H. unfold Scale.run_AIRT_C_sur in H.
  destruct (Scale.createVariable e "AIRT_ERAI_C_sur" s) as [s1|] eqn:Hc;
    [|discriminate].
  cbn [bind] in H.
  destruct (lookup "t2m" _) as [values|]; [|discriminate]. cbn [bind] in H.
  destruct (stations_kernel e _ _ s s1 s' Hc H)
    as (_ & cols & H1 & _ & H3).
  exists cols. split; [exact H1|].
  apply (Forall2_Forall_r _ _ _ _ _ _ H3). intros n col [Hcol _].
  destruct (Scale.interpolated_column si e (Scale.nc_sa e) values _ n)
    as [c|]; [|discriminate].
  cbn [bind] in Hcol. injection Hcol as <-.
  apply Forall_forall. intros x Hx. apply in_map_iff in Hx.
  destruct Hx as (q & <- & _). discriminate.
Qed.

Lemma run_kernel_appends (k : Scale.kernel) (vn : string)
    (s s' : Scale.scaled) :
  kernel_variable k = Some vn ->
  Scale.run_kernel si reset irr k e s = Ok s' ->
  appended vn s s'.
Proof.
  intros Hk H.
  destruct k; simpl in Hk; try discriminate; injection Hk as <-;
    cbn [Scale.run_kernel] in H.
  - (* PRESS_Pa_pl *)
    unfold Scale.run_PRESS_Pa_pl in H.
    destruct (Scale.createVariable e _ s) as [s1|] eqn:Hc; [|discriminate].
    cbn [bind] in H.
    destruct (lookup "air_pressure" _) as [values|]; [|discriminate].
    cbn [bind] in H. exact (stations_kernel_appended _ _ _ _ _ Hc H).
  - (* AIRT_C_pl *)
    unfold Scale.run_AIRT_C_pl in H.
    destruct (Scale.createVariable e _ s) as [s1|] eqn:Hc; [|discriminate].
    cbn [bind] in H.
    destruct (lookup "t" _) as [values|]; [|discriminate].
    cbn [bind] in H. exact (stations_kernel_appended _ _ _ _ _ Hc H).
  - (* AIRT_C_sur *)
    unfold Scale.run_AIRT_C_sur in H.
    destruct (Scale.createVariable e _ s) as [s1|] eqn:Hc; [|discriminate].
    cbn [bind] in H.
    destruct (lookup "t2m" _) as [values|]; [|discriminate].
    cbn [bind] in H. exact (stations_kernel_appended _ _ _ _ _ Hc H).
  - (* PREC_mm_sur *)
    unfold Scale.run_PREC_mm_sur, Scale.accumulated_kernel in H.
    destruct (Scale.createVariable e _ s) as [s1|] eqn:Hc; [|discriminate].
    cbn [bind] in H.
    destruct (lookup "tp" _) as [values|]; [|discriminate]. cbn [bind] in H.
    destruct (getitem _ 1) as [t1|]; [|discriminate]. cbn [bind] in H.
    destruct (getitem _ 0) as [t0|]; [|discriminate]. cbn [bind] in H.
    exact (stations_kernel_appended _ _ _ _ _ Hc H).
  - (* RH_per_sur *)
    destruct (run_RH_per_sur_outcome s s' H)
      as (Hnew & airt & rh & _ & H1 & H2 & H3 & H4 & _).
    split; [exact Hnew|]. exists rh. auto.
  - (* SW_Wm2_sur *)
    unfold Scale.run_SW_Wm2_sur, Scale.accumulated_kernel in H.
    destruct (Scale.createVariable e _ s) as [s1|] eqn:Hc; [|discriminate].
    cbn [bind] in H.
    destruct (lookup "ssrd" _) as [values|]; [|discriminate].
    cbn [bind] in H.
    destruct (getitem _ 1) as [t1|]; [|discriminate]. cbn [bind] in H.
    destruct (getitem _ 0) as [t0|]; [|discriminate]. cbn [bind] in H.
    exact (stations_kernel_appended _ _ _ _ _ Hc H).
  - (* LW_Wm2_sur *)
    unfold Scale.run_LW_Wm2_sur, Scale.accumulated_kernel in H.
    destruct (Scale.createVariable e _ s) as [s1|] eqn:Hc; [|discriminate].
    cbn [bind] in H.
    destruct (lookup "strd" _) as [values|]; [|discriminate].
    cbn [bind] in H.
    destruct (getitem _ 1) as [t1|]; [|discriminate]. cbn [bind] in H.
    destruct (getitem _ 0) as [t0|]; [|discriminate]. cbn [bind] in H.
    exact (stations_kernel_appended _ _ _ _ _ Hc H).
Qed.

End KernelOutcome.

(** * The kernels of accumulated quantities, run on a regular axis *)

Section AccumulatedRun.

Local Open Scope Q_scope.

Variable e : Scale.engine.

(** The loop over the stations completes when every column does. *)
Lemma for_stations_ok (vn : string)
    (column : nat -> result (list Scale.cell))
    (g : nat -> list Scale.cell)
    (rg0 : list (string * list (list Scale.cell))) (out : list string) :
  mem vn (map fst rg0) = false ->
  forall (k : nat) (done rest : list (list Scale.cell)),
  length rest = k ->
  (forall n, (length done <= n < length done + k)%nat ->
     column n = Ok (g n) /\ length (g n) = Scale.rows e) ->
  Scale.for_stations e vn column (seq (length done) k)
    {| Scale.rg := rg0 ++ [(vn, done ++ rest)]; Scale.stdout := out |}
  = Ok {| Scale.rg := rg0 ++ [(vn, done ++ map g (seq (length done) k))];
          Scale.stdout := out |}.
Proof.
  intros Hnew. induction k as [|k IH]; intros done rest Hrest Hcol.
  - destruct rest; [|discriminate]. reflexivity.
  - destruct rest as [|x rest]; [discriminate|]. injection Hrest as Hrest.
    cbn [seq Scale.for_stations map].
    destruct (Hcol (length done) ltac:(lia)) as [Ec Hl].
    rewrite Ec. cbn [bind]. unfold Scale.set_column. cbn [Scale.rg].
    rewrite Hl, Nat.eqb_refl. cbn [negb].
    rewrite (@update_app_new _ vn _ _ (done ++ g (length done) :: rest)
               rg0 Hnew (@set_nth_app _ done rest x (g (length done)))).
    cbn [bind Scale.stdout].
    replace (done ++ g (length done) :: rest)
      with ((done ++ [g (length done)]) ++ rest)
      by (now rewrite <- app_assoc).
    replace (S (length done)) with (length (done ++ [g (length done)]))
      by (rewrite length_app; simpl; lia).
    rewrite (IH _ _ Hrest).
    + now rewrite <- app_assoc.
    + intros n Hn. apply Hcol. rewrite length_app in Hn. simpl in Hn. lia.
Qed.

Lemma Qfloor_inject_minus (a b : Z) :
  Qfloor (inject_Z a - inject_Z b) = (a - b)%Z.
Proof.
  assert (E : inject_Z a - inject_Z b == inject_Z (a - b)).
  { unfold Z.sub. rewrite inject_Z_plus, inject_Z_opp. reflexivity. }
  rewrite E. apply Qfloor_Z.
Qed.

Lemma getitem_map_nth (A B : Type) (f : A -> B) (l : list A) (i : nat)
    (d : A) :
  (i < length l)%nat -> getitem (map f l) i = Ok (f (nth i l d)).
Proof.
  intros H. unfold getitem.
  rewrite nth_error_map, (nth_error_nth' l d H). reflexivity.
Qed.

End AccumulatedRun.

Section AccumulatedKernelClaim.

Local Open Scope Q_scope.

(** C9, amended.  The kernels of accumulated quantities ([PREC_mm_sur],
    [SW_Wm2_sur], [LW_Wm2_sur]) on a surface-forecast file with one column
    per station, one value per time stamp and a regular time axis whose
    spacing [step] is shorter than one day: the divisor of the kernel,
    [(time[1]-time[0]).seconds], is the spacing only then.  With an output
    axis that starts at the first input time and has [K >= 1] steps per
    native interval, and a scaled file that does not hold the variable
    yet, the kernel completes and appends its variable, and re-summing the
    column of any station over the native interval [i] gives
    [((K - 1) * total (i - 1) + (K + 1) * total i) / (2 * K)], where
    [total] are the per-interval totals of the station.  This is the total
    of the interval when the output step equals the native interval
    ([K = 1]) or when the interval before has the same total. *)
Theorem accumulated_kernel_resum :
  forall (reset_steps : nat) (vn var : string) (conv : Q -> Q)
         (e : Scale.engine) (s : Scale.scaled) (values : list (list Q))
         (h0 step : Z) (m K n : nat),
  let time_in := Scale.nc_time (Scale.nc_sf e) in
  let dt := Scale.time_step (Scale.axis e) in
  let total st :=
    Scale.cummulative2total reset_steps (map conv (nth st values []))
      (map Scale.num2date time_in) in
  mem vn (map fst (Scale.rg s)) = false ->
  lookup var (Scale.nc_vars (Scale.nc_sf e)) = Ok values ->
  length values = Scale.nstation e ->
  Forall (fun col => length col = m) values ->
  time_in = map (fun j => (h0 + Z.of_nat j * step)%Z) (seq 0 m) ->
  (2 <= m)%nat ->
  (0 < step < 24)%Z ->
  (1 <= K)%nat ->
  inject_Z (step * 3600) == inject_Z (Z.of_nat K) * dt ->
  Scale.times_out_nc (Scale.axis e)
  = map (fun j => inject_Z (h0 * 3600) + inject_Z (Z.of_nat j) * dt)
      (seq 0 n) ->
  (n <= (m - 1) * K + 1)%nat ->
  exists (s' : Scale.scaled) (cols : list (list Scale.cell)),
    Scale.accumulated_kernel reset_steps vn var conv e s = Ok s'
    /\ Scale.rg s' = Scale.rg s ++ [(vn, cols)]
    /\ length cols = Scale.nstation e
    /\ forall st i,
         (st < Scale.nstation e)%nat -> (1 <= i)%nat -> (i * K < n)%nat ->
         exists q,
           Scale.resum K (nth st cols []) i = Some q
           /\ q == ((inject_Z (Z.of_nat K) - 1) * nth (i - 1) (total st) 0
                    + (inject_Z (Z.of_nat K) + 1) * nth i (total st) 0)
                   / (2 * inject_Z (Z.of_nat K))
           /\ (K = 1%nat -> q == nth i (total st) 0)
           /\ (nth (i - 1) (total st) 0 == nth i (total st) 0 ->
               q == nth i (total st) 0).
Proof.
  intros reset vn var conv e s values h0 step m K n time_in dt total
    Hnew Hvar Hns Hrect Htime Hm Hstep HK HDT Hgrid Hn.
  set (xs := Scale.time_in_seconds (Scale.nc_sf e)).
  assert (Hxs : xs = map (fun j => inject_Z ((h0 + Z.of_nat j * step) * 3600))
                       (seq 0 m)).
  { unfold xs, Scale.time_in_seconds. fold time_in.
    rewrite Htime, map_map. reflexivity. }
  assert (Hlx : length xs = m) by (now rewrite Hxs, length_map, length_seq).
  assert (Hnth : forall j, (j < m)%nat ->
            nth j xs 0 = inject_Z ((h0 + Z.of_nat j * step) * 3600)).
  { intros j Hj. rewrite Hxs.
    rewrite (@nth_map_lt _ _
               (fun j => inject_Z ((h0 + Z.of_nat j * step) * 3600))
               (seq 0 m) j 0%nat 0) by (now rewrite length_seq).
    now rewrite seq_nth. }
  assert (Hx0 : nth 0 xs 0 = inject_Z (h0 * 3600)).
  { rewrite Hnth by lia. f_equal. lia. }
  set (interval := (step * 3600)%Z).
  assert (Hint : (0 < interval)%Z) by (unfold interval; lia).
  assert (Hreg : forall j, (j < length xs)%nat ->
            nth j xs 0
            == nth 0 xs 0 + inject_Z (Z.of_nat j) * inject_Z interval).
  { intros j Hj. rewrite Hx0, Hnth by lia. unfold interval.
    rewrite <- inject_Z_mult, <- inject_Z_plus.
    apply inject_Z_injective. lia. }
  assert (Hgrid' : Scale.times_out_nc (Scale.axis e)
                   = map (fun j => nth 0 xs 0 + inject_Z (Z.of_nat j) * dt)
                       (seq 0 n)) by (now rewrite Hx0).
  assert (Hrows : Scale.rows e = n).
  { unfold Scale.rows. now rewrite Hgrid, length_map, length_seq. }
  (* the interval of the kernel is the spacing of the axis *)
  assert (Ht1 : getitem (map Scale.num2date time_in) 1
                = Ok (Scale.num2date (h0 + Z.of_nat 1 * step))).
  { rewrite Htime, map_map.
    rewrite (@getitem_map_nth _ _ _ (seq 0 m) 1 0%nat)
      by (rewrite length_seq; lia).
    now rewrite seq_nth by lia. }
  assert (Ht0 : getitem (map Scale.num2date time_in) 0
                = Ok (Scale.num2date (h0 + Z.of_nat 0 * step))).
  { rewrite Htime, map_map.
    rewrite (@getitem_map_nth _ _ _ (seq 0 m) 0 0%nat)
      by (rewrite length_seq; lia).
    now rewrite seq_nth by lia. }
  assert (Hsec : Scale.timedelta_seconds
                   (Scale.num2date (h0 + Z.of_nat 1 * step)
                    - Scale.num2date (h0 + Z.of_nat 0 * step))
                 = interval).
  { unfold Scale.timedelta_seconds, Scale.num2date.
    rewrite Qfloor_inject_minus. unfold interval.
    replace ((h0 + Z.of_nat 1 * step) * 3600
             - (h0 + Z.of_nat 0 * step) * 3600)%Z
      with (step * 3600)%Z by lia.
    apply Z.mod_small. lia. }
  (* every station *)
  set (column := fun st : nat =>
         col <- getitem (map (map conv) values) st ;;
         Scale.accumulated_column reset e interval col).
  set (g := fun st : nat =>
         match column st with Ok c => c | Raise _ => [] end).
  assert (Hcol : forall st, (st < Scale.nstation e)%nat ->
            length (map conv (nth st values [])) = length xs
            /\ column st
               = Scale.accumulated_column reset e interval
                   (map conv (nth st values []))).
  { intros st Hst. split.
    - rewrite length_map, Hlx. rewrite Forall_forall in Hrect.
      apply Hrect, nth_In. lia.
    - unfold column.
      rewrite (@getitem_map_nth _ _ (map conv) values st []) by lia.
      reflexivity. }
  assert (Hg : forall st, (st < Scale.nstation e)%nat ->
            column st = Ok (g st) /\ length (g st) = Scale.rows e).
  { intros st Hst. destruct (Hcol st Hst) as [Hl Ec]. unfold g.
    rewrite Ec.
    rewrite (@accumulated_column_regular reset e interval
               (map conv (nth st values [])) K n Hint HK HDT Hreg Hl
               Hgrid' ltac:(fold xs; lia) ltac:(fold xs; lia)).
    split; [reflexivity|]. now rewrite length_map, length_seq, Hrows. }
  exists {| Scale.rg :=
              Scale.rg s ++ [(vn, map g (seq 0 (Scale.nstation e)))];
            Scale.stdout := Scale.stdout s |},
         (map g (seq 0 (Scale.nstation e))).
  split.
  { unfold Scale.accumulated_kernel, Scale.createVariable.
    rewrite Hnew. cbn [bind]. fold time_in. rewrite Hvar. cbn [bind].
    rewrite Ht1. cbn [bind]. rewrite Ht0. cbn [bind]. rewrite Hsec.
    fold column.
    apply (@for_stations_ok e vn column g (Scale.rg s) (Scale.stdout s)
             Hnew (Scale.nstation e) [] _ (repeat_length _ _)).
    intros st Hst. apply Hg. simpl in Hst. lia. }
  split; [reflexivity|].
  split; [now rewrite length_map, length_seq|].
  intros st i Hst Hi HiK.
  rewrite (@nth_map_lt _ _ g (seq 0 (Scale.nstation e)) st 0%nat [])
    by (now rewrite length_seq).
  rewrite seq_nth by lia. cbn [Nat.add].
  destruct (Hcol st Hst) as [Hl Ec].
  assert (Eg : g st
               = match Scale.accumulated_column reset e interval
                         (map conv (nth st values [])) with
                 | Ok c => c
                 | Raise _ => []
                 end) by (unfold g; now rewrite Ec).
  rewrite (@accumulated_column_regular reset e interval
             (map conv (nth st values [])) K n Hint HK HDT Hreg Hl
             Hgrid' ltac:(fold xs; lia) ltac:(fold xs; lia)) in Eg.
  rewrite Eg.
  destruct (@resum_regular reset e interval
              (map conv (nth st values []))
              K n Hint HK HDT Hreg Hl ltac:(fold xs; lia)
              ltac:(fold xs; lia) i Hi HiK) as (q & Hq & Eq).
  pose proof (@inject_nat_lt 0 K ltac:(lia)) as HKq.
  change (inject_Z (Z.of_nat 0)) with 0 in HKq.
  exists q. split; [exact Hq|]. split; [exact Eq|]. split.
  - intros ->. rewrite Eq. change (inject_Z (Z.of_nat 1)) with 1.
    unfold total, time_in. field.
  - intros E. unfold total, time_in in E. rewrite Eq, E.
    unfold total, time_in. field. lra.
Qed.

End AccumulatedKernelClaim.

Lemma accumulated_kernel_resum_witness :
  (0 < 2 < 24)%Z
  /\ (1 <= 2)%nat
  /\ exists (s' : Scale.scaled) (cols : list (list Scale.cell)),
       Scale.run_PREC_mm_sur 3 Scale.example_engine
         {| Scale.rg := []; Scale.stdout := [] |} = Ok s'
       /\ Scale.rg s' = [] ++ [("PREC_ERAI_mm_sur", cols)]
       /\ exists q,
            Scale.resum 2 (nth 0 cols []) 1 = Some q
            /\ (q == (1 * 0 + 3 * 4) / 4)%Q.
Proof.
  split; [lia|]. split; [lia|].
  destruct (@accumulated_kernel_resum 3 "PREC_ERAI_mm_sur" "tp"
              (fun v => (v * 1000)%Q) Scale.example_engine
              {| Scale.rg := []; Scale.stdout := [] |}
              [[0; 4 # 1000; 6 # 1000]%Q] 0%Z 2%Z 3 2 5)
    as (s' & cols & Hs & Hrg & _ & Hr).
  - reflexivity.
  - reflexivity.
  - reflexivity.
  - repeat constructor.
  - reflexivity.
  - lia.
  - lia.
  - lia.
  - reflexivity.
  - vm_compute. reflexivity.
  - simpl. lia.
  - exists s', cols. split; [exact Hs|]. split; [exact Hrg|].
    destruct (Hr 0%nat 1%nat ltac:(simpl; lia) ltac:(lia) ltac:(lia))
      as (q & Hq & Eq & _).
    exists q. split; [exact Hq|]. rewrite Eq. reflexivity.
Defined.

Section ProcessFacts.

Local Open Scope Q_scope.

Variable si : list Q -> list Q -> list Q -> list Q.
Variable reset : nat.
Variable irr :
  Scale.kernel -> Scale.engine -> Scale.scaled -> result Scale.scaled.
Variable obj : string -> option (result unit).
Variable e : Scale.engine.

Local Abbreviation names s := (map fst (Scale.rg s)).
Local Abbreviation run := (Scale.run_kernels si reset irr obj e).

Lemma run_kernels_app (l1 l2 : list string) (s : Scale.scaled) :
  run (l1 ++ l2) s = (s1 <- run l1 s ;; run l2 s1).
Proof.
  revert s; induction l1 as [|name l1 IH]; intros s; [reflexivity|].
  cbn [app Scale.run_kernels].
  destruct (Scale.getattr obj name) as [a|]; [|apply IH].
  destruct (Scale.call si reset irr a e (Scale.print name s));
    cbn [bind]; [apply IH | reflexivity].
Qed.

(** An attribute that is no kernel leaves the variables as they are. *)
Lemma call_other (name : string) (a : Scale.attribute)
    (s s' : Scale.scaled) :
  Scale.kernel_of name = None ->
  Scale.getattr obj name = Some a ->
  Scale.call si reset irr a e s = Ok s' ->
  s' = s.
Proof.
  intros Hk Ha H. unfold Scale.getattr in Ha. rewrite Hk in Ha.
  assert (E : exists called, a = Scale.Other called).
  { repeat match type of Ha with
           | (if ?c then _ else _) = _ => destruct c
           | match ?c with Some _ => _ | None => _ end = _ => destruct c
           end; try discriminate;
      injection Ha as <-; eexists; reflexivity. }
  destruct E as [called ->]. cbn [Scale.call] in H.
  destruct called; cbn [bind] in H; [|discriminate]. now injection H.
Qed.

Lemma mem_app_new (x vn : string) (l : list string) :
  mem x (l ++ [vn]) = mem x l || String.eqb x vn.
Proof.
  unfold mem. rewrite existsb_app. simpl. now rewrite orb_false_r.
Qed.

Lemma lookup_app_new (A : Type) (k : string) (c : A)
    (d : list (string * A)) :
  mem k (map fst d) = false -> lookup k (d ++ [(k, c)]) = Ok c.
Proof.
  induction d as [|[k0 x] d IH]; simpl.
  - now rewrite String.eqb_refl.
  - intros H. apply orb_false_iff in H. destruct H as [E H].
    rewrite E. now apply IH.
Qed.

Lemma lookup_mem (A : Type) (k : string) (a : A) (d : list (string * A)) :
  lookup k d = Ok a -> mem k (map fst d) = true.
Proof.
  induction d as [|[k0 x] d IH]; simpl; [discriminate|].
  destruct (String.eqb k k0); auto.
Qed.

(** One kernel of the model: it appends its variable, or it is the
    placeholder, which leaves the variables as they are. *)
Lemma modelled_step (k : Scale.kernel) (s s' : Scale.scaled) :
  modelled k = true ->
  Scale.run_kernel si reset irr k e s = Ok s' ->
  (exists vn cols,
     kernel_variable k = Some vn
     /\ mem vn (names s) = false
     /\ Scale.rg s' = Scale.rg s ++ [(vn, cols)])
  \/ (k = Scale.AIRT_redcapp /\ Scale.rg s' = Scale.rg s).
Proof.
  intros Hm H.
  destruct (kernel_variable k) as [vn|] eqn:Hk.
  - left. destruct (run_kernel_appends si reset irr e k vn s s' Hk H)
      as (Hnew & cols & H1 & _).
    exists vn, cols. auto.
  - right. destruct k; try discriminate. split; [reflexivity|].
    cbn in H. injection H as <-. reflexivity.
Qed.

Lemma run_kernels_names (kernels : list string) (s s' : Scale.scaled) :
  modelled_kernels kernels ->
  run kernels s = Ok s' ->
  (forall x, mem x (names s) = true -> mem x (names s') = true)
  /\ (forall x, mem x (names s') = true ->
        mem x (names s) = true
        \/ exists name k,
             In name kernels /\ Scale.kernel_of name = Some k
             /\ kernel_variable k = Some x).
Proof.
  revert s. induction kernels as [|name r IH]; intros s Hmod H.
  - simpl in H. injection H as <-. auto.
  - cbn [Scale.run_kernels] in H.
    assert (Hr : modelled_kernels r)
      by (intros n k Hn; apply Hmod; now right).
    assert (Hskip : forall s0 : Scale.scaled,
              Scale.rg s0 = Scale.rg s ->
              run r s0 = Ok s' ->
              (forall x, mem x (names s) = true -> mem x (names s') = true)
              /\ (forall x, mem x (names s') = true ->
                    mem x (names s) = true
                    \/ exists name0 k,
                         In name0 (name :: r)
                         /\ Scale.kernel_of name0 = Some k
                         /\ kernel_variable k = Some x)).
    { intros s0 E0 H0. destruct (IH s0 Hr H0) as [H1 H2].
      rewrite E0 in H1, H2. split; [exact H1|].
      intros x Hx. destruct (H2 x Hx) as [?|(n & k & Hn & ?)]; auto.
      right. exists n, k. split; [now right | auto]. }
    destruct (Scale.kernel_of name) as [k|] eqn:Ek.
    2:{ destruct (Scale.getattr obj name) as [a|] eqn:Ea;
          [|now apply (Hskip s)].
        destruct (Scale.call si reset irr a e (Scale.print name s))
          as [s1|] eqn:E1; [|discriminate].
        cbn [bind] in H. apply (@call_other name a _ _ Ek Ea) in E1.
        subst s1.
        now apply (Hskip (Scale.print name s)). }
    clear Hskip. rewrite (@getattr_kernel obj name k Ek) in H.
    cbn [Scale.call] in H.
    destruct (Scale.run_kernel si reset irr k e (Scale.print name s))
      as [s1|] eqn:E1; [|discriminate].
    cbn [bind] in H. destruct (IH s1 Hr H) as [H1 H2].
    pose proof (Hmod name k (or_introl eq_refl) Ek) as Hk.
    destruct (modelled_step k _ s1 Hk E1)
      as [(vn & cols & Hv & Hnew & Hrg)|[-> Hrg]];
      cbn [Scale.print Scale.rg] in *.
    + split.
      * intros x Hx. apply H1. rewrite Hrg, map_app. cbn [map fst].
        rewrite mem_app_new. now rewrite Hx.
      * intros x Hx. destruct (H2 x Hx) as [Hx1|(n & k' & Hn & ?)].
        -- rewrite Hrg, map_app in Hx1. cbn [map fst] in Hx1.
           rewrite mem_app_new in Hx1. apply orb_true_iff in Hx1.
           destruct Hx1 as [?|Hx1]; auto.
           apply String.eqb_eq in Hx1. subst x. right.
           exists name, k. split; [now left | auto].
        -- right. exists n, k'. split; [now right | auto].
    + rewrite Hrg in *. split; [exact H1|].
      intros x Hx. destruct (H2 x Hx) as [?|(n & k' & Hn & ?)]; auto.
      right. exists n, k'. split; [now right | auto].
Qed.

Lemma kernel_of_AIRT_C_sur (name : string) :
  Scale.kernel_of name = Some Scale.AIRT_C_sur -> name = "AIRT_C_sur".
Proof.
  unfold Scale.kernel_of.
  repeat match goal with
         | |- context [String.eqb name ?k] =>
             destruct (String.eqb_spec name k); [try discriminate; auto|]
         end.
  discriminate.
Qed.

End ProcessFacts.

Section ProcessClaims.

Local Open Scope Q_scope.

(** X17.  A kernel that completes appends exactly one variable to the
    scaled file: its own, which was not there before, with one column per
    station and one cell per output time.  The variables written before
    and the printed lines are left as they were.  (For the seven kernels of
    the model that compute a variable.) *)
Theorem kernel_appends_its_variable :
  forall (series_interpolate : list Q -> list Q -> list Q -> list Q)
         (reset_steps : nat)
         (irrational_kernel :
            Scale.kernel -> Scale.engine -> Scale.scaled ->
            result Scale.scaled)
         (e : Scale.engine) (k : Scale.kernel) (vn : string)
         (s s' : Scale.scaled),
  kernel_variable k = Some vn ->
  Scale.run_kernel series_interpolate reset_steps irrational_kernel k e s
  = Ok s' ->
  mem vn (map fst (Scale.rg s)) = false
  /\ exists cols,
       Scale.rg s' = Scale.rg s ++ [(vn, cols)]
       /\ length cols = Scale.nstation e
       /\ Forall (fun col => length col = Scale.rows e) cols
       /\ Scale.stdout s' = Scale.stdout s.
Proof.
  intros si reset irr e k vn s s' Hk H.
  exact (run_kernel_appends si reset irr e k vn s s' Hk H).
Qed.

Lemma kernel_appends_its_variable_witness :
  exists s' : Scale.scaled,
    kernel_variable Scale.AIRT_C_sur = Some "AIRT_ERAI_C_sur"
    /\ Scale.run_kernel Scale.example_series_interpolate 2
         Scale.example_irrational Scale.AIRT_C_sur Scale.example_engine
         {| Scale.rg := []; Scale.stdout := [] |} = Ok s'
    /\ exists cols,
         Scale.rg s' = [] ++ [("AIRT_ERAI_C_sur", cols)]
         /\ length cols = Scale.nstation Scale.example_engine.
Proof.
  destruct (Scale.run_kernel Scale.example_series_interpolate 2
              Scale.example_irrational Scale.AIRT_C_sur Scale.example_engine
              {| Scale.rg := []; Scale.stdout := [] |})
    as [s'|] eqn:E; [|vm_compute in E; discriminate].
  exists s'. split; [reflexivity|]. split; [reflexivity|].
  destruct (kernel_appends_its_variable Scale.example_series_interpolate 2
              Scale.example_irrational Scale.example_engine Scale.AIRT_C_sur
              "AIRT_ERAI_C_sur" {| Scale.rg := []; Scale.stdout := [] |} s'
              eq_refl E) as (_ & cols & H1 & H2 & _).
  exists cols. exact (conj H1 H2).
Defined.

(** X18.  A kernel list that names a computing kernel twice cannot
    complete: the second run finds its variable in the file, and creating
    it again fails.  (For lists that name no kernel outside the
    model.) *)
Theorem process_fails_on_repeated_kernel :
  forall (series_interpolate : list Q -> list Q -> list Q -> list Q)
         (reset_steps : nat)
         (irrational_kernel :
            Scale.kernel -> Scale.engine -> Scale.scaled ->
            result Scale.scaled)
         (object_attribute : string -> option (result unit))
         (e : Scale.engine) (kernels l1 l2 l3 : list string)
         (name vn : string) (k : Scale.kernel),
  modelled_kernels kernels ->
  Scale.kernel_of name = Some k ->
  kernel_variable k = Some vn ->
  kernels = l1 ++ name :: l2 ++ name :: l3 ->
  forall s',
    Scale.process series_interpolate reset_steps irrational_kernel
      object_attribute e kernels
    <> Ok s'.
Proof.
  intros si reset irr obj e kernels l1 l2 l3 name vn k Hmod Hname Hk -> s' H.
  unfold Scale.process in H.
  rewrite run_kernels_app in H.
  destruct (Scale.run_kernels si reset irr obj e l1 _) as [s1|];
    [|discriminate].
  cbn [bind Scale.run_kernels] in H.
  rewrite (@getattr_kernel obj name k Hname) in H. cbn [Scale.call] in H.
  destruct (Scale.run_kernel si reset irr k e (Scale.print name s1))
    as [s2|] eqn:E2; [|discriminate].
  cbn [bind] in H. rewrite run_kernels_app in H.
  destruct (Scale.run_kernels si reset irr obj e l2 s2) as [s3|] eqn:E3;
    [|discriminate].
  cbn [bind Scale.run_kernels] in H.
  rewrite (@getattr_kernel obj name k Hname) in H. cbn [Scale.call] in H.
  destruct (Scale.run_kernel si reset irr k e (Scale.print name s3))
    as [s4|] eqn:E4; [|discriminate].
  destruct (run_kernel_appends si reset irr e k vn _ s2 Hk E2)
    as (_ & cols & Hrg & _).
  destruct (run_kernel_appends si reset irr e k vn _ s4 Hk E4)
    as (Hnew & _).
  cbn [Scale.print Scale.rg] in Hnew.
  assert (Hmod2 : modelled_kernels l2).
  { intros n k' Hn. apply Hmod. apply in_or_app. right. right.
    apply in_or_app. now left. }
  destruct (run_kernels_names si reset irr obj e l2 s2 s3 Hmod2 E3)
    as [Hgrow _].
  rewrite Hgrow in Hnew; [discriminate|].
  rewrite Hrg, map_app. cbn [map fst]. rewrite mem_app_new.
  now rewrite String.eqb_refl, orb_true_r.
Qed.

(** X19.  [RH_per_sur] needs the variable of [AIRT_C_sur]: a run whose
    kernel list names [RH_per_sur] with no [AIRT_C_sur] before it does not
    complete.  (For lists that name no kernel outside the model.) *)
Theorem process_RH_needs_AIRT :
  forall (series_interpolate : list Q -> list Q -> list Q -> list Q)
         (reset_steps : nat)
         (irrational_kernel :
            Scale.kernel -> Scale.engine -> Scale.scaled ->
            result Scale.scaled)
         (object_attribute : string -> option (result unit))
         (e : Scale.engine) (kernels l1 l2 : list string),
  modelled_kernels kernels ->
  kernels = l1 ++ "RH_per_sur" :: l2 ->
  ~ In "AIRT_C_sur" l1 ->
  forall s',
    Scale.process series_interpolate reset_steps irrational_kernel
      object_attribute e kernels
    <> Ok s'.
Proof.
  intros si reset irr obj e kernels l1 l2 Hmod -> Hno s' H.
  unfold Scale.process in H. rewrite run_kernels_app in H.
  destruct (Scale.run_kernels si reset irr obj e l1 _) as [s1|] eqn:E1;
    [|discriminate].
  cbn [bind Scale.run_kernels] in H.
  change (Scale.getattr obj "RH_per_sur")
    with (Some (Scale.Kernel Scale.RH_per_sur)) in H.
  cbn [Scale.call Scale.run_kernel] in H.
  destruct (Scale.run_RH_per_sur si e (Scale.print "RH_per_sur" s1))
    as [s2|] eqn:E2; [|discriminate].
  destruct (run_RH_per_sur_outcome si e _ s2 E2)
    as (_ & airt & rh & Ha & _).
  cbn [Scale.print Scale.rg] in Ha. apply lookup_mem in Ha.
  assert (Hmod1 : modelled_kernels l1).
  { intros n k' Hn. apply Hmod. apply in_or_app. now left. }
  destruct (run_kernels_names si reset irr obj e l1 _ s1 Hmod1 E1)
    as [_ Horigin].
  destruct (Horigin _ Ha) as [C|(name & k & Hin & Hname & Hk)].
  - discriminate.
  - assert (k = Scale.AIRT_C_sur)
      by (destruct k; simpl in Hk; congruence).
    subst k. apply kernel_of_AIRT_C_sur in Hname. subst name. tauto.
Qed.

Lemma example_kernels_modelled (kernels : list string) :
  forallb (fun name => match Scale.kernel_of name with
                       | Some k => modelled k
                       | None => true
                       end) kernels = true ->
  modelled_kernels kernels.
Proof.
  intros H name k Hin Hk. rewrite forallb_forall in H.
  specialize (H name Hin). now rewrite Hk in H.
Defined.

Lemma process_fails_on_repeated_kernel_witness :
  modelled_kernels ["AIRT_C_sur"; "RH_per_sur"; "AIRT_C_sur"]
  /\ Scale.kernel_of "AIRT_C_sur" = Some Scale.AIRT_C_sur
  /\ kernel_variable Scale.AIRT_C_sur = Some "AIRT_ERAI_C_sur"
  /\ forall s',
       Scale.process Scale.example_series_interpolate 2
         Scale.example_irrational
         Scale.example_object_attribute Scale.example_engine
         ["AIRT_C_sur"; "RH_per_sur"; "AIRT_C_sur"]
       <> Ok s'.
Proof.
  pose proof (example_kernels_modelled
                ["AIRT_C_sur"; "RH_per_sur"; "AIRT_C_sur"] eq_refl) as Hmod.
  split; [exact Hmod|].
  split; [reflexivity|]. split; [reflexivity|].
  exact (process_fails_on_repeated_kernel Scale.example_series_interpolate 2
           Scale.example_irrational
           Scale.example_object_attribute Scale.example_engine
           ["AIRT_C_sur"; "RH_per_sur"; "AIRT_C_sur"] [] ["RH_per_sur"] []
           "AIRT_C_sur" "AIRT_ERAI_C_sur" Scale.AIRT_C_sur
           Hmod eq_refl eq_refl eq_refl).
Defined.

Lemma process_RH_needs_AIRT_witness :
  modelled_kernels ["PRESS_Pa_pl"; "RH_per_sur"; "AIRT_C_sur"]
  /\ ~ In "AIRT_C_sur" ["PRESS_Pa_pl"]
  /\ forall s',
       Scale.process Scale.example_series_interpolate 2
         Scale.example_irrational
         Scale.example_object_attribute Scale.example_engine
         ["PRESS_Pa_pl"; "RH_per_sur"; "AIRT_C_sur"]
       <> Ok s'.
Proof.
  assert (Hno : ~ In "AIRT_C_sur" ["PRESS_Pa_pl"]).
  { intros [H|[]]. discriminate. }
  pose proof (example_kernels_modelled
                ["PRESS_Pa_pl"; "RH_per_sur"; "AIRT_C_sur"] eq_refl) as Hmod.
  split; [exact Hmod|].
  split; [exact Hno|].
  exact (process_RH_needs_AIRT Scale.example_series_interpolate 2
           Scale.example_irrational
           Scale.example_object_attribute Scale.example_engine
           ["PRESS_Pa_pl"; "RH_per_sur"; "AIRT_C_sur"] ["PRESS_Pa_pl"]
           ["AIRT_C_sur"] Hmod eq_refl Hno).
Defined.

End ProcessClaims.

Section ProcessBounds.

Local Open Scope Q_scope.

Variable si : list Q -> list Q -> list Q -> list Q.
Variable reset : nat.
Variable irr :
  Scale.kernel -> Scale.engine -> Scale.scaled -> result Scale.scaled.
Variable obj : string -> option (result unit).
Variable e : Scale.engine.

(** The two facts kept along a run: the air temperature of [AIRT_C_sur]
    has no missing value, the relative humidity is within its bounds. *)
Local Abbreviation kept s :=
  ((forall airt, lookup "AIRT_ERAI_C_sur" (Scale.rg s) = Ok airt ->
      Forall (Forall (fun c : Scale.cell => c <> None)) airt)
   /\ (forall rh, lookup "RH_ERAI_per_sur" (Scale.rg s) = Ok rh ->
         Forall (Forall (fun c : Scale.cell =>
                           exists q, c = Some q /\ 1 # 10 <= q <= 999 # 10))
           rh)).

Lemma kept_other (vn : string) (cols : list (list Scale.cell))
    (s s' : Scale.scaled) :
  String.eqb "AIRT_ERAI_C_sur" vn = false ->
  String.eqb "RH_ERAI_per_sur" vn = false ->
  Scale.rg s' = Scale.rg s ++ [(vn, cols)] ->
  kept s -> kept s'.
Proof.
  intros E1 E2 Hrg [Ha Hr]. rewrite Hrg. split.
  - intros airt H. apply Ha. now apply lookup_app_other in H.
  - intros rh H. apply Hr. now apply lookup_app_other in H.
Qed.

Local Ltac appended_by H :=
  match type of H with
  | Scale.run_kernel _ _ _ ?k _ ?s = Ok ?s' =>
      let vn := eval cbv in (kernel_variable k) in
      match vn with
      | Some ?v =>
          let Hnew := fresh "Hnew" in
          let cols := fresh "cols" in
          let Hrg := fresh "Hrg" in
          destruct (run_kernel_appends si reset irr e k v s s' eq_refl H)
            as (Hnew & cols & Hrg & _)
      end
  end.

Lemma kept_step (k : Scale.kernel) (s s' : Scale.scaled) :
  modelled k = true ->
  Scale.run_kernel si reset irr k e s = Ok s' ->
  kept s -> kept s'.
Proof.
  intros Hm H Hs.
  destruct k; try discriminate Hm.
  - appended_by H.
    eapply kept_other; [ | | exact Hrg | exact Hs]; reflexivity.
  - appended_by H.
    eapply kept_other; [ | | exact Hrg | exact Hs]; reflexivity.
  - (* AIRT_C_sur *)
    appended_by H. clear cols Hrg. cbn [Scale.run_kernel] in H.
    destruct (run_AIRT_C_sur_outcome si e s s' H) as (cols & Hrg & Hcols).
    destruct Hs as [Ha Hr]. rewrite Hrg. split.
    + intros airt Hl. rewrite (lookup_app_new _ _ cols _ Hnew) in Hl.
      injection Hl as <-. exact Hcols.
    + intros rh Hl. apply Hr.
      now apply lookup_app_other in Hl.
  - (* AIRT_redcapp *)
    cbn in H. injection H as <-. exact Hs.
  - appended_by H.
    eapply kept_other; [ | | exact Hrg | exact Hs]; reflexivity.
  - (* RH_per_sur *)
    cbn [Scale.run_kernel] in H.
    destruct (run_RH_per_sur_outcome si e s s' H)
      as (Hnew & airt & rh & Hl & Hrg & _ & _ & _ & Hb).
    destruct Hs as [Ha Hr]. rewrite Hrg. split.
    + intros airt' Hl'. apply Ha. now apply lookup_app_other in Hl'.
    + intros rh' Hl'. rewrite (lookup_app_new _ _ rh _ Hnew) in Hl'.
      injection Hl' as <-. apply Hb, (Ha airt Hl).
  - appended_by H.
    eapply kept_other; [ | | exact Hrg | exact Hs]; reflexivity.
  - appended_by H.
    eapply kept_other; [ | | exact Hrg | exact Hs]; reflexivity.
Qed.

Lemma kept_run (kernels : list string) (s s' : Scale.scaled) :
  modelled_kernels kernels ->
  Scale.run_kernels si reset irr obj e kernels s = Ok s' ->
  kept s -> kept s'.
Proof.
  revert s. induction kernels as [|name r IH]; intros s Hmod H Hs.
  - simpl in H. now injection H as <-.
  - cbn [Scale.run_kernels] in H.
    assert (Hr : modelled_kernels r)
      by (intros n k Hn; apply Hmod; now right).
    destruct (Scale.kernel_of name) as [k|] eqn:Ek.
    2:{ destruct (Scale.getattr obj name) as [a|] eqn:Ea;
          [|now apply (IH s)].
        destruct (Scale.call si reset irr a e (Scale.print name s))
          as [s1|] eqn:E1; [|discriminate].
        cbn [bind] in H.
        apply (@call_other si reset irr obj e name a _ _ Ek Ea) in E1.
        subst s1. now apply (IH (Scale.print name s)). }
    rewrite (@getattr_kernel obj name k Ek) in H. cbn [Scale.call] in H.
    destruct (Scale.run_kernel si reset irr k e (Scale.print name s))
      as [s1|] eqn:E1; [|discriminate].
    cbn [bind] in H. apply (IH s1 Hr H).
    apply (kept_step k (Scale.print name s) s1); auto.
    apply (Hmod name k); [now left | exact Ek].
Qed.

End ProcessBounds.

Section ProcessBoundsClaims.

Local Open Scope Q_scope.

(** X20.  Whenever a run of [process] completes, on a kernel list that
    names no kernel outside the model, the air temperature
    [AIRT_ERAI_C_sur], if written, has no missing value, and every relative
    humidity written is a number within [0.1, 99.9].  The bound of
    [RH_per_sur] holds for the file as [process] leaves it, whatever
    numbers the station files hold. *)
Theorem process_RH_within_bounds :
  forall (series_interpolate : list Q -> list Q -> list Q -> list Q)
         (reset_steps : nat)
         (irrational_kernel :
            Scale.kernel -> Scale.engine -> Scale.scaled ->
            result Scale.scaled)
         (object_attribute : string -> option (result unit))
         (e : Scale.engine) (kernels : list string) (s' : Scale.scaled),
  modelled_kernels kernels ->
  Scale.process series_interpolate reset_steps irrational_kernel
      object_attribute e kernels
  = Ok s' ->
  (forall airt,
     lookup "AIRT_ERAI_C_sur" (Scale.rg s') = Ok airt ->
     Forall (Forall (fun c => c <> None)) airt)
  /\ (forall rh,
        lookup "RH_ERAI_per_sur" (Scale.rg s') = Ok rh ->
        Forall (Forall (fun c => exists q, c = Some q
                                           /\ 1 # 10 <= q <= 999 # 10)) rh).
Proof.
  intros si reset irr obj e kernels s' Hmod H.
  apply (kept_run si reset irr obj e kernels _ s' Hmod H).
  split; intros x Hx; discriminate.
Qed.

Lemma process_RH_within_bounds_witness :
  exists s' : Scale.scaled,
    modelled_kernels ["AIRT_C_sur"; "AIRT_redcapp"; "RH_per_sur"]
    /\ Scale.process Scale.example_series_interpolate 2
         Scale.example_irrational
         Scale.example_object_attribute Scale.example_engine
         ["AIRT_C_sur"; "AIRT_redcapp"; "RH_per_sur"] = Ok s'
    /\ exists rh,
         lookup "RH_ERAI_per_sur" (Scale.rg s') = Ok rh
         /\ Forall (Forall (fun c => exists q, c = Some q
                                              /\ 1 # 10 <= q <= 999 # 10))
              rh.
Proof.
  destruct (Scale.process Scale.example_series_interpolate 2
              Scale.example_irrational
         Scale.example_object_attribute Scale.example_engine
              ["AIRT_C_sur"; "AIRT_redcapp"; "RH_per_sur"])
    as [s'|] eqn:E; [|vm_compute in E; discriminate].
  pose proof (example_kernels_modelled
                ["AIRT_C_sur"; "AIRT_redcapp"; "RH_per_sur"] eq_refl) as Hmod.
  exists s'. split; [exact Hmod|].
  split; [reflexivity|].
  destruct (lookup "RH_ERAI_per_sur" (Scale.rg s')) as [rh|] eqn:El.
  - exists rh. split; [reflexivity|].
    exact (proj2 (process_RH_within_bounds Scale.example_series_interpolate 2
                    Scale.example_irrational
           Scale.example_object_attribute Scale.example_engine
                    ["AIRT_C_sur"; "AIRT_redcapp"; "RH_per_sur"] s'
                    Hmod E) rh El).
  - exfalso. vm_compute in E. injection E as <-. vm_compute in El.
    discriminate.
Defined.

End ProcessBoundsClaims.

(** * netCDF_merge: where the merged files go *)

Section StringFacts.

Lemma length_append (a b : string) :
  String.length (String.append a b) = String.length a + String.length b.
Proof. induction a as [|x a IH]; simpl; congruence. Qed.

Lemma substring_skip (p t : string) (a m : nat) :
  String.substring (String.length p + a) m (String.append p t)
  = String.substring a m t.
Proof. induction p as [|x p IH]; simpl; auto. Qed.

Lemma substring_keep (p t : string) (m : nat) :
  String.substring 0 (String.length p + m) (String.append p t)
  = String.append p (String.substring 0 m t).
Proof. induction p as [|x p IH]; simpl; [reflexivity|]. now rewrite IH. Qed.

Lemma substring_all (t : string) :
  String.substring 0 (String.length t) t = t.
Proof. induction t as [|x t IH]; simpl; congruence. Qed.

Lemma substring_prefix (t u : string) :
  String.substring 0 (String.length t) (String.append t u) = t.
Proof. induction t as [|x t IH]; simpl; [now destruct u|congruence]. Qed.

(** An index that counts from the end, within the last part of a
    string. *)
Lemma clip_index_end (p t : string) (k : Z) :
  (0 < k <= Z.of_nat (String.length t))%Z ->
  Merge.clip_index (String.length (String.append p t)) (- k)
  = String.length p + (String.length t - Z.to_nat k).
Proof.
  intros H. unfold Merge.clip_index. rewrite length_append.
  destruct (Z.ltb_spec (- k) 0); lia.
Qed.

Lemma str_slice_end (p t : string) (i j : Z) :
  (0 < j <= i)%Z -> (i <= Z.of_nat (String.length t))%Z ->
  Merge.str_slice (String.append p t) (- i) (- j)
  = String.substring (String.length t - Z.to_nat i) (Z.to_nat i - Z.to_nat j)
      t.
Proof.
  intros Hj Hi. unfold Merge.str_slice.
  rewrite !clip_index_end by lia.
  replace (String.length p + (String.length t - Z.to_nat j)
           - (String.length p + (String.length t - Z.to_nat i)))
    with (Z.to_nat i - Z.to_nat j) by lia.
  apply substring_skip.
Qed.

Lemma str_slice_front (p t : string) (j : Z) :
  (0 < j <= Z.of_nat (String.length t))%Z ->
  Merge.str_slice (String.append p t) 0 (- j)
  = String.append p
      (String.substring 0 (String.length t - Z.to_nat j) t).
Proof.
  intros Hj. unfold Merge.str_slice.
  rewrite clip_index_end by lia.
  change (Merge.clip_index (String.length (String.append p t)) 0) with 0.
  rewrite Nat.sub_0_r. apply substring_keep.
Qed.

Lemma endswith_app (c a : Ascii.ascii) (p : string) :
  Merge.endswith c (String.append p (String.String a ""))
  = Ascii.eqb a c.
Proof.
  induction p as [|x p IH]; [reflexivity|].
  cbn [String.append Merge.endswith]. rewrite IH.
  destruct (String.append p (String.String a "")) eqn:E; [|reflexivity].
  destruct p; discriminate.
Qed.

End StringFacts.

Section MergeFacts.

Variable sorted_glob : string -> list string.
Variable directory : string.

(** The directory with its separator: [path.join(directory, '')]. *)
Local Abbreviation prefix := (Merge.path_join directory "").

(** The files of one type, as [files_list.sort()] leaves them. *)
Local Abbreviation files ft :=
  (sorted_glob (Merge.path_join directory ft)).

(** The name of the merged file of one type. *)
Local Abbreviation merged head fl :=
  (String.append (Merge.path_join directory "")
     (String.append "e/"
        (String.append head
           (String.append (Merge.str_slice (hd "" fl) (-23) (-15))
              (String.append "_"
                 (String.append (Merge.str_slice (last fl "") (-11) (-3))
                    ".nc")))))).

(** What is done for one type. *)
Local Abbreviation merge head fl :=
  ([Merge.Ncrcat fl (merged head fl);
    Merge.Print "The Merged File below is saved:";
    Merge.Print (merged head fl)] ++ map Merge.Remove fl).

Lemma path_join_relative (ft : string) :
  Merge.startswith "/"%char ft = false ->
  Merge.path_join directory ft = String.append prefix ft.
Proof.
  intros H. unfold Merge.path_join. rewrite H. cbn [Merge.startswith].
  destruct (String.eqb directory "" || Merge.endswith "/"%char directory).
  - now rewrite string_append_nil_r.
  - rewrite string_append_assoc. reflexivity.
Qed.

Lemma merged_name_some (head : string) (fl : list string) :
  fl <> [] ->
  Merge.merged_name head fl
  = Some (String.append head
            (String.append (Merge.str_slice (hd "" fl) (-23) (-15))
               (String.append "_"
                  (String.append (Merge.str_slice (last fl "") (-11) (-3))
                     ".nc")))).
Proof.
  intros H. unfold Merge.merged_name. cbv zeta.
  destruct fl as [|f r]; [congruence|]. cbn [nth_error hd].
  assert (E : nth_error (f :: r) (length (f :: r) - 1)
              = Some (last (f :: r) "")).
  { clear H. revert f. induction r as [|g r IH]; intros f; [reflexivity|].
    specialize (IH g). cbn [length] in *.
    replace (S (S (length r)) - 1) with (S (S (length r) - 1)) by lia.
    exact IH. }
  now rewrite E.
Qed.

Lemma merged_path (head rest : string) :
  Merge.startswith "/"%char head = false -> head <> "" ->
  Merge.path_join (String.append prefix "e") (String.append head rest)
  = String.append prefix (String.append "e/" (String.append head rest)).
Proof.
  intros Hs Hne. unfold Merge.path_join at 1.
  assert (E1 : Merge.startswith "/"%char (String.append head rest) = false)
    by (destruct head; [congruence | exact Hs]).
  rewrite E1.
  assert (E2 : String.eqb (String.append prefix "e") "" = false).
  { destruct (String.eqb_spec (String.append prefix "e") "") as [C|]; auto.
    destruct prefix; discriminate. }
  rewrite E2, endswith_app. cbn [orb Ascii.eqb Bool.eqb].
  now rewrite string_append_assoc.
Qed.

(** One type with files: the type is recognised, the files are merged
    into the file named after the first and the last one, and removed. *)
Lemma merge_step_files (st : Merge.state) (kind : string) :
  In kind ["sa"; "sf"; "pl"] ->
  let ft := String.append "erai_" (String.append kind "_*.nc") in
  let head := String.append "erai_" (String.append kind "_all_") in
  files ft <> [] ->
  Merge.merge_step sorted_glob directory st ft
  = {| Merge.merged_file := Some (merged head (files ft));
       Merge.log := Merge.log st ++ merge head (files ft);
       Merge.raised := None |}.
Proof.
  intros Hk ft head Hfl. unfold Merge.merge_step. cbv zeta.
  assert (Hft : Merge.startswith "/"%char ft = false)
    by (destruct Hk as [<-|[<-|[<-|[]]]]; reflexivity).
  rewrite (path_join_relative ft Hft) in *.
  assert (Ekind : Merge.str_slice (String.append prefix ft) (-7) (-5) = kind).
  { change (-7)%Z with (- (7))%Z. change (-5)%Z with (- (5))%Z.
    rewrite str_slice_end;
      destruct Hk as [<-|[<-|[<-|[]]]]; try reflexivity; simpl; lia. }
  assert (Efront : Merge.str_slice (String.append prefix ft) 0 (-11)
                   = String.append prefix "e").
  { change (-11)%Z with (- (11))%Z.
    rewrite str_slice_front;
      destruct Hk as [<-|[<-|[<-|[]]]]; try reflexivity; simpl; lia. }
  rewrite Ekind, Efront.
  assert (Hhead : forall rest,
            Merge.path_join (String.append prefix "e")
              (String.append head rest)
            = String.append prefix
                (String.append "e/" (String.append head rest))).
  { intros rest. apply merged_path;
      destruct Hk as [<-|[<-|[<-|[]]]]; try reflexivity; discriminate. }
  destruct Hk as [<-|[<-|[<-|[]]]]; cbn [String.eqb Ascii.eqb Bool.eqb];
    rewrite (merged_name_some _ _ Hfl); cbn [Merge.raised Merge.merged_file
                                               Merge.log];
    rewrite Hhead; cbn [app]; reflexivity.
Qed.

(** One type without files: [files_list[0]] raises, nothing is done. *)
Lemma merge_step_no_file (st : Merge.state) (kind : string) :
  In kind ["sa"; "sf"; "pl"] ->
  let ft := String.append "erai_" (String.append kind "_*.nc") in
  files ft = [] ->
  Merge.merge_step sorted_glob directory st ft
  = {| Merge.merged_file := Merge.merged_file st;
       Merge.log := Merge.log st;
       Merge.raised := Some Merge.IndexError |}.
Proof.
  intros Hk ft Hfl. unfold Merge.merge_step. cbv zeta.
  assert (Hft : Merge.startswith "/"%char ft = false)
    by (destruct Hk as [<-|[<-|[<-|[]]]]; reflexivity).
  rewrite (path_join_relative ft Hft) in *.
  assert (Ekind : Merge.str_slice (String.append prefix ft) (-7) (-5) = kind).
  { change (-7)%Z with (- (7))%Z. change (-5)%Z with (- (5))%Z.
    rewrite str_slice_end;
      destruct Hk as [<-|[<-|[<-|[]]]]; try reflexivity; simpl; lia. }
  rewrite Ekind, Hfl.
  destruct Hk as [<-|[<-|[<-|[]]]]; reflexivity.
Qed.

Lemma merge_step_raised (st : Merge.state) (kind : string) :
  In kind ["sa"; "sf"; "pl"] ->
  let ft := String.append "erai_" (String.append kind "_*.nc") in
  Merge.raised (Merge.merge_step sorted_glob directory st ft)
  = match files ft with
    | [] => Some Merge.IndexError
    | _ :: _ => None
    end.
Proof.
  intros Hk ft. destruct (files ft) eqn:E.
  - unfold ft in *. now rewrite (merge_step_no_file st kind Hk E).
  - unfold ft in *. rewrite (merge_step_files st kind Hk); [reflexivity|].
    now rewrite E.
Qed.

(** The file that [file_ncdf] names ends with its two dates. *)
Lemma file_ncdf_dates (dir head date_beg date_end : string) :
  exists p,
    Merge.file_ncdf dir head date_beg date_end
    = String.append p
        (String.append date_beg
           (String.append "_to_" (String.append date_end ".nc"))).
Proof.
  unfold Merge.file_ncdf, Merge.getDstring, Merge.path_join. cbv zeta.
  repeat match goal with |- context [if ?b then _ else _] => destruct b end.
  - exists (String.append head "_").
    now rewrite !string_append_assoc.
  - exists (String.append dir (String.append head "_")).
    now rewrite !string_append_assoc.
  - exists (String.append dir (String.append "/" (String.append head "_"))).
    now rewrite !string_append_assoc.
Qed.

Lemma slice_date_beg (p date_beg date_end : string) :
  String.length date_beg = 8 -> String.length date_end = 8 ->
  Merge.str_slice
    (String.append p
       (String.append date_beg
          (String.append "_to_" (String.append date_end ".nc"))))
    (-23) (-15)
  = date_beg.
Proof.
  intros Hb He.
  change (-23)%Z with (- (23))%Z. change (-15)%Z with (- (15))%Z.
  rewrite str_slice_end; rewrite ?length_append, ?Hb, ?He;
    [ | cbn; lia | cbn; lia].
  change (String.length "_to_") with 4. change (String.length ".nc") with 3.
  replace (8 + (4 + (8 + 3)) - Z.to_nat 23) with 0 by lia.
  replace (Z.to_nat 23 - Z.to_nat 15) with 8 by lia.
  rewrite <- Hb at 1. apply substring_prefix.
Qed.

Lemma slice_date_end (p date_beg date_end : string) :
  String.length date_end = 8 ->
  Merge.str_slice
    (String.append p
       (String.append date_beg
          (String.append "_to_" (String.append date_end ".nc"))))
    (-11) (-3)
  = date_end.
Proof.
  intros He.
  rewrite <- (string_append_assoc date_beg), <- (string_append_assoc p).
  change (-11)%Z with (- (11))%Z. change (-3)%Z with (- (3))%Z.
  rewrite str_slice_end; rewrite ?length_append, ?He;
    [ | cbn; lia | cbn; lia].
  change (String.length ".nc") with 3.
  replace (8 + 3 - Z.to_nat 11) with 0 by lia.
  replace (Z.to_nat 11 - Z.to_nat 3) with 8 by lia.
  rewrite <- He at 1. apply substring_prefix.
Qed.

End MergeFacts.

Section MergeRun.

Variable sorted_glob : string -> list string.
Variable directory : string.

Local Abbreviation files ft :=
  (sorted_glob (Merge.path_join directory ft)).

Local Abbreviation merged head fl :=
  (String.append (Merge.path_join directory "")
     (String.append "e/"
        (String.append head
           (String.append (Merge.str_slice (hd "" fl) (-23) (-15))
              (String.append "_"
                 (String.append (Merge.str_slice (last fl "") (-11) (-3))
                    ".nc")))))).

Local Abbreviation merge head fl :=
  ([Merge.Ncrcat fl (merged head fl);
    Merge.Print "The Merged File below is saved:";
    Merge.Print (merged head fl)] ++ map Merge.Remove fl).

(** X21. [netCDF_merge] with at least one file of each of the three
    types raises nothing and handles the types in the order sa, sf, pl:
    for each it calls [ncrcat] once, on the sorted file list, prints two
    lines and removes every input file.  The output of [ncrcat] is not
    in [directory] but in its subdirectory [e]: its name is [directory],
    a separator, ["e/erai_<type>_all_"], the characters [-23:-15] of the
    first file name, ["_"], the characters [-11:-3] of the last one and
    [".nc"]. *)
Theorem netCDF_merge_all_types :
  files "erai_sa_*.nc" <> [] ->
  files "erai_sf_*.nc" <> [] ->
  files "erai_pl_*.nc" <> [] ->
  Merge.netCDF_merge sorted_glob directory
  = {| Merge.merged_file :=
         Some (merged "erai_pl_all_" (files "erai_pl_*.nc"));
       Merge.log :=
         merge "erai_sa_all_" (files "erai_sa_*.nc")
         ++ merge "erai_sf_all_" (files "erai_sf_*.nc")
         ++ merge "erai_pl_all_" (files "erai_pl_*.nc");
       Merge.raised := None |}.
Proof.
  intros Hsa Hsf Hpl.
  unfold Merge.netCDF_merge, Merge.file_type. cbn [Merge.merge_loop].
  rewrite (merge_step_files sorted_glob directory _ "sa")
    by (simpl; auto).
  cbn [Merge.raised].
  rewrite (merge_step_files sorted_glob directory _ "sf")
    by (simpl; auto).
  cbn [Merge.raised].
  rewrite (merge_step_files sorted_glob directory _ "pl")
    by (simpl; auto).
  cbn [Merge.raised Merge.log]. rewrite <- !app_assoc. reflexivity.
Qed.

(** X22. [netCDF_merge] with files of type sa but none of type sf ends
    in the [IndexError] of [files_list[0]], after the sa files have
    been merged and removed; nothing is done for the types sf and
    pl. *)
Theorem netCDF_merge_missing_type :
  files "erai_sa_*.nc" <> [] ->
  files "erai_sf_*.nc" = [] ->
  Merge.netCDF_merge sorted_glob directory
  = {| Merge.merged_file :=
         Some (merged "erai_sa_all_" (files "erai_sa_*.nc"));
       Merge.log := merge "erai_sa_all_" (files "erai_sa_*.nc");
       Merge.raised := Some Merge.IndexError |}.
Proof.
  intros Hsa Hsf.
  unfold Merge.netCDF_merge, Merge.file_type. cbn [Merge.merge_loop].
  rewrite (merge_step_files sorted_glob directory _ "sa")
    by (simpl; auto).
  cbn [Merge.raised].
  rewrite (merge_step_no_file sorted_glob directory _ "sf")
    by (simpl; auto).
  reflexivity.
Qed.

(** X23. [netCDF_merge] raises exactly when one of the three types has
    no file, and what it raises then is the [IndexError] of
    [files_list[0]]: the name [merged_file] is never used unbound. *)
Theorem netCDF_merge_raises :
  Merge.raised (Merge.netCDF_merge sorted_glob directory)
  = if forallb (fun ft => match files ft with [] => false | _ => true end)
         Merge.file_type
    then None else Some Merge.IndexError.
Proof.
  unfold Merge.netCDF_merge, Merge.file_type.
  cbn [Merge.merge_loop forallb].
  pose proof (merge_step_raised sorted_glob directory) as R.
  assert (Rsa := fun st => R st "sa" (or_introl eq_refl)).
  assert (Rsf := fun st => R st "sf" (or_intror (or_introl eq_refl))).
  assert (Rpl :=
            fun st => R st "pl" (or_intror (or_intror (or_introl eq_refl)))).
  clear R. cbv zeta in Rsa, Rsf, Rpl.
  change (String.append "erai_" (String.append "sa" "_*.nc"))
    with "erai_sa_*.nc" in Rsa.
  change (String.append "erai_" (String.append "sf" "_*.nc"))
    with "erai_sf_*.nc" in Rsf.
  change (String.append "erai_" (String.append "pl" "_*.nc"))
    with "erai_pl_*.nc" in Rpl.
  repeat match goal with
         | |- context [match Merge.raised ?s with _ => _ end] =>
             first [rewrite (Rsa _) | rewrite (Rsf _) | rewrite (Rpl _)]
         end.
  destruct (files "erai_sa_*.nc"); [now rewrite Rsa|].
  destruct (files "erai_sf_*.nc"); [now rewrite Rsf|].
  destruct (files "erai_pl_*.nc"); now rewrite Rpl.
Qed.

End MergeRun.

(** X24. The dates of the download files come back in the merged name:
    for a file list that begins with the file that [ERAIpl], [ERAIsa]
    or [ERAIsf] names for the dates [beg1] to [end1] and ends with the
    one for [beg2] to [end2], all printed with eight characters, the
    merged name is the head followed by [beg1], ["_"], [end2] and
    [".nc"]. *)
Theorem merged_name_dates (directory kind head : string)
    (beg1 end1 beg2 end2 : string) (files_list : list string) :
  String.length beg1 = 8 -> String.length end1 = 8 ->
  String.length end2 = 8 ->
  files_list <> [] ->
  hd "" files_list = Merge.file_ncdf directory kind beg1 end1 ->
  last files_list "" = Merge.file_ncdf directory kind beg2 end2 ->
  Merge.merged_name head files_list
  = Some (String.append head
            (String.append beg1
               (String.append "_" (String.append end2 ".nc")))).
Proof.
  intros Hb1 He1 He2 Hne Hhd Hlast.
  rewrite (merged_name_some head files_list Hne), Hhd, Hlast.
  destruct (file_ncdf_dates directory kind beg1 end1) as [p1 ->].
  destruct (file_ncdf_dates directory kind beg2 end2) as [p2 ->].
  now rewrite (slice_date_beg p1 beg1 end1 Hb1 He1),
    (slice_date_end p2 beg2 end2 He2).
Qed.

Lemma netCDF_merge_all_types_witness :
  (Merge.example_glob (Merge.path_join "/data" "erai_sa_*.nc") <> []
   /\ Merge.example_glob (Merge.path_join "/data" "erai_sf_*.nc") <> []
   /\ Merge.example_glob (Merge.path_join "/data" "erai_pl_*.nc") <> [])
  /\ Merge.merged_file (Merge.netCDF_merge Merge.example_glob "/data")
     = Some "/data/e/erai_pl_all_19790101_19790110.nc".
Proof.
  assert (Hsa : Merge.example_glob (Merge.path_join "/data" "erai_sa_*.nc")
                <> []) by (vm_compute; discriminate).
  assert (Hsf : Merge.example_glob (Merge.path_join "/data" "erai_sf_*.nc")
                <> []) by (vm_compute; discriminate).
  assert (Hpl : Merge.example_glob (Merge.path_join "/data" "erai_pl_*.nc")
                <> []) by (vm_compute; discriminate).
  split; [auto|].
  exact (f_equal Merge.merged_file
           (netCDF_merge_all_types Merge.example_glob "/data" Hsa Hsf Hpl)).
Defined.

Lemma netCDF_merge_missing_type_witness :
  (Merge.example_glob_no_sf (Merge.path_join "/data" "erai_sa_*.nc") <> []
   /\ Merge.example_glob_no_sf (Merge.path_join "/data" "erai_sf_*.nc")
      = [])
  /\ Merge.netCDF_merge Merge.example_glob_no_sf "/data"
     = {| Merge.merged_file :=
            Some "/data/e/erai_sa_all_19790101_19790110.nc";
          Merge.log :=
            [Merge.Ncrcat
               ["/data/erai_sa_19790101_to_19790105.nc";
                "/data/erai_sa_19790106_to_19790110.nc"]
               "/data/e/erai_sa_all_19790101_19790110.nc";
             Merge.Print "The Merged File below is saved:";
             Merge.Print "/data/e/erai_sa_all_19790101_19790110.nc";
             Merge.Remove "/data/erai_sa_19790101_to_19790105.nc";
             Merge.Remove "/data/erai_sa_19790106_to_19790110.nc"];
          Merge.raised := Some Merge.IndexError |}.
Proof.
  assert (Hsa : Merge.example_glob_no_sf
                  (Merge.path_join "/data" "erai_sa_*.nc") <> [])
    by (vm_compute; discriminate).
  assert (Hsf : Merge.example_glob_no_sf
                  (Merge.path_join "/data" "erai_sf_*.nc") = [])
    by reflexivity.
  split; [auto|].
  exact (netCDF_merge_missing_type Merge.example_glob_no_sf "/data" Hsa Hsf).
Defined.

Lemma merged_name_dates_witness :
  Merge.merged_name "erai_sa_all_"
    [Merge.file_ncdf "/data" "erai_sa" "19790101" "19790105";
     Merge.file_ncdf "/data" "erai_sa" "19790106" "19790110"]
  = Some "erai_sa_all_19790101_19790110.nc".
Proof.
  apply (merged_name_dates "/data" "erai_sa" "erai_sa_all_"
           "19790101" "19790105" "19790106" "19790110");
    first [reflexivity | discriminate].
Defined.
